(** * GenericPropagation: drift-diffusion transport of charge-carrier groups

    A shallow embedding of [GenericPropagationModule::run] and
    [GenericPropagationModule::propagate]
    (src/modules/GenericPropagation/GenericPropagationModule.cpp) and of the
    recombination models of src/physics/Recombination.hpp.
    Further parts embed the geometry of the detector assembly
    (src/core/geometry/DetectorModel.cpp), the mesh elements of the TCAD
    converter (src/tools/tcad_dfise_converter/MeshElement.cpp) and the
    command line of the field converter
    (src/tools/apf_tools/FieldConverter.cpp).

    Conventions of the embedding.
    - [double] quantities are rationals ([Q]): the properties below concern the
      control flow of the module, not the rounding of IEEE arithmetic.
      Comparisons are the boolean tests the code performs.
    - [unsigned int] quantities are integers ([Z]) in the range [0, 2^32);
      every conversion into that type is written with [to_uint].
    - The C++ standard library ([std::sqrt], [std::exp], [std::pow]), the
      random distributions, the detector and the physics models that are
      queried through an interface are fields of records passed explicitly,
      the way the module reaches them through its members.
    - Loops that the code does not bound run on fuel; [Diverges] is the answer
      of a loop whose fuel ran out, [Undefined] the one of an execution that
      hits undefined behaviour (an integer division by zero).
    - Histogram fills and TRACE output leave no trace in the results and are
      left out; of the line-graph buffer only the header of each entry is
      kept (the sampled trajectory points do not enter the results). *)

From Stdlib Require Import ZArith QArith Qabs Qround Qminmax List Bool String Lia Lqa.
Import ListNotations.
Local Open Scope Q_scope.

(** ** Numbers *)

Module Num.

(** [a < b] on doubles. *)
Definition Qltb (a b : Q) : bool := negb (Qle_bool b a).

(** Conversion to [unsigned int] (32 bits, modular). *)
Definition to_uint (z : Z) : Z := (z mod 2 ^ 32)%Z.

(** [std::lround]: nearest integer, halfway cases away from zero. *)
Definition lround (q : Q) : Z :=
  if Qle_bool 0 q then Qfloor (q + (1 # 2))
  else (- Qfloor (- q + (1 # 2)))%Z.

(** [ceil] of a double. *)
Definition ceil (q : Q) : Z := Qceiling q.

(** Conversion of a double to an unsigned integer type: truncation. *)
Definition trunc (q : Q) : Z := (Qnum q ÷ Z.pos (Qden q))%Z.

(** The C++ numeric library, as far as the module calls it. *)
Record Libm := {
  sqrt : Q -> Q;
  exp : Q -> Q;
  pow : Q -> Q -> Q
}.

End Num.
Export Num.

(** ** Eigen::Vector3d / ROOT::Math::XYZPoint *)

Record Vector3d := Vec { vx : Q; vy : Q; vz : Q }.

Module V.
Definition zero : Vector3d := Vec 0 0 0.
Definition add (a b : Vector3d) : Vector3d :=
  Vec (vx a + vx b) (vy a + vy b) (vz a + vz b).
Definition scale (s : Q) (a : Vector3d) : Vector3d :=
  Vec (s * vx a) (s * vy a) (s * vz a).
Definition div (a : Vector3d) (s : Q) : Vector3d :=
  Vec (vx a / s) (vy a / s) (vz a / s).
Definition dot (a b : Vector3d) : Q :=
  vx a * vx b + vy a * vy b + vz a * vz b.
Definition cross (a b : Vector3d) : Vector3d :=
  Vec (vy a * vz b - vz a * vy b)
      (vz a * vx b - vx a * vz b)
      (vx a * vy b - vy a * vx b).
Definition norm (m : Libm) (a : Vector3d) : Q := sqrt m (dot a a).
(** Componentwise equality of the rational coordinates. *)
Definition eqv (a b : Vector3d) : Prop :=
  vx a == vx b /\ vy a == vy b /\ vz a == vz b.
End V.

Declare Scope vec_scope.
Delimit Scope vec_scope with vec.
Bind Scope vec_scope with Vector3d.
Infix "+" := V.add : vec_scope.
Infix "*" := V.scale : vec_scope.
Infix "/" := V.div : vec_scope.
Infix "==" := V.eqv (at level 70, no associativity) : vec_scope.

(** ** Carriers *)

Inductive CarrierType := ELECTRON | HOLE.

(** Modelled from the spec: the enumeration [CarrierType] is declared in
    objects/SensorCharge.hpp, which is not among the sources; it "carries a
    sign (+1/-1) used in velocity formulas", read by [static_cast<int>(type)].
    The electron is the negative carrier. *)
Definition static_cast_int (type : CarrierType) : Q :=
  match type with ELECTRON => -1 | HOLE => 1 end.

Inductive CarrierState := UNKNOWN | MOTION | RECOMBINED | TRAPPED | HALTED.

Definition CarrierType_eqb (a b : CarrierType) : bool :=
  match a, b with
  | ELECTRON, ELECTRON | HOLE, HOLE => true
  | _, _ => false
  end.

Definition CarrierState_eqb (a b : CarrierState) : bool :=
  match a, b with
  | UNKNOWN, UNKNOWN | MOTION, MOTION | RECOMBINED, RECOMBINED
  | TRAPPED, TRAPPED | HALTED, HALTED => true
  | _, _ => false
  end.

(** ** Recombination models (src/physics/Recombination.hpp) *)

Module Recombination.

(** Data members of [ShockleyReadHall]. *)
Record SRHData := {
  electron_lifetime_reference_ : Q;
  electron_doping_reference_ : Q;
  hole_lifetime_reference_ : Q;
  hole_doping_reference_ : Q;
  temperature_scaling_ : Q
}.

(** The classes deriving from [RecombinationModel]. *)
Inductive Model :=
| None_
| ShockleyReadHall (d : SRHData)
| Auger (auger_coefficient_ : Q)
| ShockleyReadHallAuger (d : SRHData) (auger_coefficient_ : Q)
| ConstantLifetime (electron_lifetime_ hole_lifetime_ : Q).

Definition srh_lifetime (d : SRHData) (type : CarrierType) (doping : Q) : Q :=
  (if CarrierType_eqb type ELECTRON
   then electron_lifetime_reference_ d else hole_lifetime_reference_ d)
  / (1 + Qabs doping /
         (if CarrierType_eqb type ELECTRON
          then electron_doping_reference_ d else hole_doping_reference_ d))
  * temperature_scaling_ d.

Definition auger_lifetime (auger_coefficient_ : Q) (doping : Q) : Q :=
  1 / (auger_coefficient_ * doping * doping).

Definition minorityType (doping : Q) : CarrierType :=
  if Qltb 0 doping then HOLE else ELECTRON.

(** [survival_prob < (1 - std::exp(-1. * timestep / lifetime))] *)
Definition decays (m : Libm) (survival_prob timestep lifetime : Q) : bool :=
  Qltb survival_prob (1 - exp m (-1 * timestep / lifetime)).

(** [operator()]: [true] if the carrier has recombined. *)
Definition call (m : Libm) (model : Model)
    (type : CarrierType) (doping survival_prob timestep : Q) : bool :=
  match model with
  | None_ => false
  | ShockleyReadHall d =>
      decays m survival_prob timestep (srh_lifetime d type doping)
  | Auger c =>
      if negb (CarrierType_eqb (minorityType doping) type) then false
      else decays m survival_prob timestep (auger_lifetime c doping)
  | ShockleyReadHallAuger d c =>
      if negb (CarrierType_eqb (minorityType doping) type)
      then decays m survival_prob timestep (srh_lifetime d type doping)
      else
        let combined_lifetime :=
          1 / (1 / srh_lifetime d type doping + 1 / auger_lifetime c doping) in
        decays m survival_prob timestep combined_lifetime
  | ConstantLifetime e h =>
      decays m survival_prob timestep
             (if CarrierType_eqb type ELECTRON then e else h)
  end.

(** The keys of the configuration the factory reads; a key that is not set
    holds [None].  core/config/Configuration.hpp is not among the sources:
    [config.get] is taken to throw a [MissingKeyError], which is not a
    [ModelError], for a key that is not set, and to return the value
    otherwise. *)
Record Configuration := {
  recombination_model : option string;
  temperature : option Q;
  lifetime_electron : option Q;
  lifetime_hole : option Q
}.

Inductive Error :=
| InvalidValueError (key : string)
| MissingKeyError (key : string).

(** [config.get<T>(key)] *)
Definition get {T : Type} (value : option T) (key : string) : T + Error :=
  match value with
  | Some v => inl v
  | None => inr (MissingKeyError key)
  end.

Definition make_srh (m : Libm) (units : Q -> string -> Q) (temperature : Q)
  : SRHData :=
  {| electron_lifetime_reference_ := units (1 # 100000) "s"%string;
     electron_doping_reference_ := units (inject_Z (10 ^ 16)) "/cm/cm/cm"%string;
     hole_lifetime_reference_ := units (4 # 10000) "s"%string;
     hole_doping_reference_ := units (inject_Z (71 * 10 ^ 14)) "/cm/cm/cm"%string;
     temperature_scaling_ := pow m (300 / temperature) (3 # 2) |}.

Definition make_auger (units : Q -> string -> Q) : Q :=
  units (38 # (10 ^ 32)) "cm*cm*cm*cm*cm*cm*/s"%string.

(** The two arguments of [std::make_unique<ConstantLifetime>]: the standard
    leaves open which of the two calls of [config.get] is made first;
    [lifetime_hole_first] tells. *)
Definition constant_lifetimes (lifetime_hole_first : bool) (config : Configuration)
  : Model + Error :=
  if lifetime_hole_first then
    match get (lifetime_hole config) "lifetime_hole" with
    | inr e => inr e
    | inl hole =>
        match get (lifetime_electron config) "lifetime_electron" with
        | inr e => inr e
        | inl electron => inl (ConstantLifetime electron hole)
        end
    end
  else
    match get (lifetime_electron config) "lifetime_electron" with
    | inr e => inr e
    | inl electron =>
        match get (lifetime_hole config) "lifetime_hole" with
        | inr e => inr e
        | inl hole => inl (ConstantLifetime electron hole)
        end
    end.

(** The constructor [Recombination(config, doping)].  [units] is
    [Units::get].  A model that needs a doping profile throws
    [ModelUnsuitable] without one, an unknown name throws
    [InvalidModelError]; both are rethrown as [InvalidValueError].  The
    [MissingKeyError] of a key that is not set leaves the constructor as it
    is. *)
Definition factory (m : Libm) (units : Q -> string -> Q)
    (lifetime_hole_first : bool) (config : Configuration) (doping : bool)
  : Model + Error :=
  match get (recombination_model config) "recombination_model" with
  | inr e => inr e
  | inl model =>
      match get (temperature config) "temperature" with
      | inr e => inr e
      | inl temperature =>
          let unsuitable := inr (InvalidValueError "recombination_model") in
          if String.eqb model "srh" then
            if doping then inl (ShockleyReadHall (make_srh m units temperature))
            else unsuitable
          else if String.eqb model "auger" then
            if doping then inl (Auger (make_auger units)) else unsuitable
          else if String.eqb model "combined" || String.eqb model "srh_auger" then
            if doping
            then inl (ShockleyReadHallAuger (make_srh m units temperature)
                                            (make_auger units))
            else unsuitable
          else if String.eqb model "constant" then
            constant_lifetimes lifetime_hole_first config
          else if String.eqb model "none" then inl None_
          else unsuitable
      end
  end.

End Recombination.

(** ** The other physics models

    Their headers (Mobility, Trapping, Detrapping, ImpactIonization) are not
    among the sources; the module reaches each through its call operator,
    which is what the embedding keeps. *)

(** [mobility_(type, efield_mag, doping)] *)
Definition MobilityModel := CarrierType -> Q -> Q -> Q.
(** [trapping_(type, probability, timestep, efield_mag)] *)
Definition TrappingModel := CarrierType -> Q -> Q -> Q -> bool.
(** [detrapping_(type, probability, efield_mag)] *)
Definition DetrappingModel := CarrierType -> Q -> Q -> Q.
(** [multiplication_(type, efield_mag, step)] *)
Definition ImpactIonizationModel := CarrierType -> Q -> Q -> Q.

(** Modelled from the spec: the trapping model selected by ["none"], a
    carrier is never captured. *)
Definition NoTrapping : TrappingModel := fun _ _ _ _ => false.

(** Modelled from the spec: the multiplication model selected by ["none"],
    the per-step gain factor is one. *)
Definition NoImpactIonization : ImpactIonizationModel := fun _ _ _ => 1.

(** ** Random numbers

    [RNG] is the state of the event's [RandomNumberGenerator].  A
    distribution object is a value of its own ([normal_distribution] keeps
    state between draws); each draw returns the sample and the new states. *)

Record Distributions (RNG : Type) := {
  NormalDist : Type;
  normal_distribution : Q -> Q -> NormalDist;
  normal_draw : NormalDist -> RNG -> Q * NormalDist * RNG;
  (** [uniform_real_distribution<double>(a, b)(rng)] *)
  uniform_draw : Q -> Q -> RNG -> Q * RNG
}.
Arguments NormalDist {RNG}.
Arguments normal_distribution {RNG}.
Arguments normal_draw {RNG}.
Arguments uniform_draw {RNG}.

(** ** The detector and its model, as the module queries them *)

Record Detector := {
  getElectricField : Vector3d -> Vector3d;
  getMagneticField : Vector3d -> Vector3d;
  getDopingConcentration : Vector3d -> Q;
  getGlobalPosition : Vector3d -> Vector3d;
  (** [model_->isWithinSensor], [model_->getSensorIntercept],
      [model_->getSensorSize] *)
  isWithinSensor : Vector3d -> bool;
  getSensorIntercept : Vector3d -> Vector3d -> Vector3d;
  getSensorSize : Vector3d
}.

(** ** Outcomes of an execution *)

Inductive Result (A : Type) :=
| Ok (a : A)
| Diverges
| Undefined.
Arguments Ok {A}.
Arguments Diverges {A}.
Arguments Undefined {A}.

Definition bind {A B} (r : Result A) (k : A -> Result B) : Result B :=
  match r with
  | Ok a => k a
  | Diverges => Diverges
  | Undefined => Undefined
  end.

Notation "x <- r ;; k" := (bind r (fun x => k))
  (at level 61, r at next level, right associativity).

(** ** The Runge-Kutta stepper *)

Module RK.

(** The result of one step: the step taken and its error estimate. *)
Record Step := { value : Vector3d; error : Vector3d }.

(** A tableau turns the step function, the time, the step size and the
    current value into the step and the embedded error estimate. *)
Definition Tableau := (Q -> Vector3d -> Vector3d) -> Q -> Q -> Vector3d -> Step.

(** Modelled from the spec: the solver of tools/runge_kutta.h, which is not
    among the sources: "an explicit value (position, elapsed time, step
    size) threaded through each loop iteration"; "elapsed time accumulates
    monotonically per step taken; a separate operation allows advancing
    elapsed time without a spatial step". *)
Record Solver := { y_ : Vector3d; t_ : Q; h_ : Q }.

Definition make_runge_kutta (step_size : Q) (initial_y : Vector3d) : Solver :=
  {| y_ := initial_y; t_ := 0; h_ := step_size |}.

Definition step (tableau : Tableau) (function : Q -> Vector3d -> Vector3d)
    (s : Solver) : Step * Solver :=
  let st := tableau function (t_ s) (h_ s) (y_ s) in
  (st, {| y_ := (y_ s + value st)%vec; t_ := t_ s + h_ s; h_ := h_ s |}).

Definition getValue (s : Solver) : Vector3d := y_ s.
Definition setValue (s : Solver) (y : Vector3d) : Solver :=
  {| y_ := y; t_ := t_ s; h_ := h_ s |}.
Definition getTime (s : Solver) : Q := t_ s.
Definition advanceTime (s : Solver) (t : Q) : Solver :=
  {| y_ := y_ s; t_ := t_ s + t; h_ := h_ s |}.
Definition getTimeStep (s : Solver) : Q := h_ s.
Definition setTimeStep (s : Solver) (h : Q) : Solver :=
  {| y_ := y_ s; t_ := t_ s; h_ := h |}.

End RK.

(** ** Data members of GenericPropagationModule *)

(** The widths, in bits, of the counters the module keeps over a run
    ([total_deposits_], ...).  They are members declared in
    GenericPropagationModule.hpp, which is not among the sources; the code
    increments them and adds unsigned values to them, and [finalize]
    converts [total_propagated_charges_] to [unsigned int]: they are taken
    to be unsigned, of the widths given here. *)
Record CounterBits := {
  total_deposits_bits : Z;
  deposits_exceeding_max_groups_bits : Z;
  total_propagated_charges_bits : Z;
  total_steps_bits : Z;
  total_time_picoseconds_bits : Z
}.

(** Arithmetic in an unsigned type of the given width. *)
Definition wrap (bits : Z) (z : Z) : Z := (z mod 2 ^ bits)%Z.

Record GenericPropagationModule := {
  timestep_min_ : Q;
  timestep_max_ : Q;
  timestep_start_ : Q;
  integration_time_ : Q;
  target_spatial_precision_ : Q;
  charge_per_step_ : Z;
  max_charge_groups_ : Z;
  propagate_electrons_ : bool;
  propagate_holes_ : bool;
  output_linegraphs_ : bool;
  boltzmann_kT_ : Q;
  electron_Hall_ : Q;
  hole_Hall_ : Q;
  has_magnetic_field_ : bool;
  detector_ : Detector;
  mobility_ : MobilityModel;
  recombination_ : Recombination.Model;
  trapping_ : TrappingModel;
  detrapping_ : DetrappingModel;
  multiplication_ : ImpactIonizationModel;
  counter_bits_ : CounterBits
}.

(** An entry of [LineGraph::OutputPlotPoints]: the tuple
    (global time, charge, type, state); the trajectory points are left out. *)
Definition PlotHeader : Type := Q * Z * CarrierType * CarrierState.
Definition OutputPlotPoints := list PlotHeader.

(** [std::get<3>(output_plot_points.back().first) = st].  [run] pushes an
    entry before each call of [propagate]; an empty buffer is left empty. *)
Definition set_state (h : PlotHeader) (st : CarrierState) : PlotHeader :=
  let '(t, c, ty, _) := h in (t, c, ty, st).

Fixpoint set_back_state (pts : OutputPlotPoints) (st : CarrierState)
  : OutputPlotPoints :=
  match pts with
  | [] => []
  | p :: rest =>
      match rest with
      | [] => [set_state p st]
      | _ :: _ => p :: set_back_state rest st
      end
  end.

(** ** GenericPropagationModule::propagate *)

(** The local variables of [propagate] that live across loop iterations. *)
Record LoopState (RNG : Type) := {
  runge_kutta : RK.Solver;
  position : Vector3d;
  last_position : Vector3d;
  efield : Vector3d;
  last_efield : Vector3d;
  last_time : Q;
  gain : Q;
  state : CarrierState;
  random_generator : RNG
}.
Arguments runge_kutta {RNG}.
Arguments position {RNG}.
Arguments last_position {RNG}.
Arguments efield {RNG}.
Arguments last_efield {RNG}.
Arguments last_time {RNG}.
Arguments gain {RNG}.
Arguments state {RNG}.
Arguments random_generator {RNG}.

(** What [propagate] hands back: the returned tuple, and the two arguments
    it updates through their references. *)
Record Propagated (RNG : Type) := {
  final_position : Vector3d;
  final_time : Q;
  final_gain : Q;
  final_state : CarrierState;
  rng_after : RNG;
  plot_after : OutputPlotPoints
}.
Arguments final_position {RNG}.
Arguments final_time {RNG}.
Arguments final_gain {RNG}.
Arguments final_state {RNG}.
Arguments rng_after {RNG}.
Arguments plot_after {RNG}.

Section Propagate.

Context {RNG : Type}.
Variable libm : Libm.
Variable dist : Distributions RNG.
(** [tableau::RK5] *)
Variable RK5 : RK.Tableau.
Variable self : GenericPropagationModule.

Let detector := detector_ self.

(** The lambda [carrier_diffusion]. *)
Definition carrier_diffusion (type : CarrierType) (rng : RNG)
    (efield_mag doping_concentration timestep : Q) : Vector3d * RNG :=
  let diffusion_constant :=
    boltzmann_kT_ self * mobility_ self type efield_mag doping_concentration in
  let diffusion_std_dev := sqrt libm (2 * diffusion_constant * timestep) in
  let gauss_distribution := normal_distribution dist 0 diffusion_std_dev in
  let '(x, gauss_distribution, rng) := normal_draw dist gauss_distribution rng in
  let '(y, gauss_distribution, rng) := normal_draw dist gauss_distribution rng in
  let '(z, _, rng) := normal_draw dist gauss_distribution rng in
  (Vec x y z, rng).

(** The lambda [carrier_velocity_noB]. *)
Definition carrier_velocity_noB (type : CarrierType) (_ : Q)
    (cur_pos : Vector3d) : Vector3d :=
  let efield := getElectricField detector cur_pos in
  let doping := getDopingConcentration detector cur_pos in
  ((static_cast_int type * mobility_ self type (V.norm libm efield) doping)
     * efield)%vec.

(** The lambda [carrier_velocity_withB]. *)
Definition carrier_velocity_withB (type : CarrierType) (_ : Q)
    (cur_pos : Vector3d) : Vector3d :=
  let efield := getElectricField detector cur_pos in
  let bfield := getMagneticField detector cur_pos in
  let doping := getDopingConcentration detector cur_pos in
  let mob := mobility_ self type (V.norm libm efield) doping in
  let exb := V.cross efield bfield in
  let hallFactor :=
    if CarrierType_eqb type ELECTRON then electron_Hall_ self
    else hole_Hall_ self in
  let term1 := ((static_cast_int type * mob * hallFactor) * exb)%vec in
  let term2 :=
    ((mob * mob * hallFactor * hallFactor * V.dot efield bfield) * bfield)%vec in
  let rnorm := 1 + mob * mob * hallFactor * hallFactor * V.dot bfield bfield in
  (((static_cast_int type * mob) * (efield + term1 + term2)) / rnorm)%vec.

(** The step function handed to [make_runge_kutta]. *)
Definition carrier_velocity (type : CarrierType) : Q -> Vector3d -> Vector3d :=
  if has_magnetic_field_ self then carrier_velocity_withB type
  else carrier_velocity_noB type.

(** "Adapt step size to match target precision" *)
Definition adapt_timestep (position : Vector3d) (step : RK.Step)
    (timestep : Q) : Q :=
  let uncertainty := V.norm libm (RK.error step) in
  if Qltb (Qabs (vz (getSensorSize detector) / 2 - vz position))
          (2 * vz (RK.value step))
  then timestep * (3 # 4)
  else if Qltb (target_spatial_precision_ self) uncertainty
       then timestep * (3 # 4)
       else if Qltb (2 * uncertainty) (target_spatial_precision_ self)
            then timestep * (3 # 2)
            else timestep.

(** "Limit the timestep to certain minimum and maximum step sizes" *)
Definition limit_timestep (timestep : Q) : Q :=
  if Qltb (timestep_max_ self) timestep then timestep_max_ self
  else if Qltb timestep (timestep_min_ self) then timestep_min_ self
       else timestep.

(** "Check if the charge carrier has been trapped" *)
Definition check_trapping (type : CarrierType) (initial_time timestep : Q)
    (efield : Vector3d) (st : CarrierState) (rk : RK.Solver) (rng : RNG)
  : CarrierState * RK.Solver * RNG :=
  let (u, rng) := uniform_draw dist 0 1 rng in
  if trapping_ self type u timestep (V.norm libm efield) then
    let (u', rng) := uniform_draw dist 0 1 rng in
    let detrap_time := detrapping_ self type u' (V.norm libm efield) in
    if Qltb (initial_time + RK.getTime rk + detrap_time) (integration_time_ self)
    then (st, RK.advanceTime rk detrap_time, rng)
    else (TRAPPED, rk, rng)
  else (st, rk, rng).

(** The loop condition. *)
Definition in_motion (initial_time : Q) (s : LoopState RNG) : bool :=
  CarrierState_eqb (state s) MOTION
  && Qltb (initial_time + RK.getTime (runge_kutta s)) (integration_time_ self).

(** One iteration of the stepping loop. *)
Definition loop_body (type : CarrierType) (initial_time : Q)
    (s : LoopState RNG) : LoopState RNG :=
  (* Save previous position and time *)
  let last_position := position s in
  let last_time := RK.getTime (runge_kutta s) in
  let last_efield := efield s in
  (* Execute a Runge Kutta step *)
  let (step, rk) := RK.step RK5 (carrier_velocity type) (runge_kutta s) in
  let timestep := RK.getTimeStep rk in
  let position := RK.getValue rk in
  let efield := getElectricField detector position in
  let doping := getDopingConcentration detector position in
  (* Apply diffusion step *)
  let (diffusion, rng) :=
    carrier_diffusion type (random_generator s) (V.norm libm efield) doping
                      timestep in
  let position := (position + diffusion)%vec in
  let rk := RK.setValue rk position in
  (* Check if we are still in the sensor *)
  let st := if negb (isWithinSensor detector position) then HALTED
            else state s in
  (* Check if charge carrier is still alive *)
  let (u, rng) := uniform_draw dist 0 1 rng in
  let st :=
    if Recombination.call libm (recombination_ self) type
         (getDopingConcentration detector position) u timestep
    then RECOMBINED else st in
  let '(st, rk, rng) := check_trapping type initial_time timestep efield st rk rng in
  (* Apply multiplication step *)
  let gain :=
    gain s * multiplication_ self type
               ((V.norm libm efield + V.norm libm last_efield) / 2)
               (V.norm libm (RK.value step)) in
  let timestep := limit_timestep (adapt_timestep position step timestep) in
  let rk := RK.setTimeStep rk timestep in
  {| runge_kutta := rk; position := position; last_position := last_position;
     efield := efield; last_efield := last_efield; last_time := last_time;
     gain := gain; state := st; random_generator := rng |}.

(** The values one iteration computes on its way, as functions of the
    state at its head: the step, the position after diffusion, the field
    there, the outcome of the recombination and trapping tests and the
    release delay drawn when the trapping test fires. *)
Record Locals := {
  l_step : RK.Step;
  l_timestep : Q;
  l_position : Vector3d;
  l_efield : Vector3d;
  l_recombination : bool;
  l_trapping : bool;
  l_detrap_time : Q
}.

Definition locals (type : CarrierType) (s : LoopState RNG) : Locals :=
  let (step, rk) := RK.step RK5 (carrier_velocity type) (runge_kutta s) in
  let timestep := RK.getTimeStep rk in
  let position := RK.getValue rk in
  let efield := getElectricField detector position in
  let doping := getDopingConcentration detector position in
  let (diffusion, rng) :=
    carrier_diffusion type (random_generator s) (V.norm libm efield) doping
                      timestep in
  let position := (position + diffusion)%vec in
  let (u, rng) := uniform_draw dist 0 1 rng in
  let recombined :=
    Recombination.call libm (recombination_ self) type
      (getDopingConcentration detector position) u timestep in
  let (u, rng) := uniform_draw dist 0 1 rng in
  let trapped := trapping_ self type u timestep (V.norm libm efield) in
  let (u', _) := uniform_draw dist 0 1 rng in
  {| l_step := step; l_timestep := timestep; l_position := position;
     l_efield := efield; l_recombination := recombined;
     l_trapping := trapped;
     l_detrap_time := detrapping_ self type u' (V.norm libm efield) |}.

(** The trapping test fired and the release delay does not fit into the
    integration time. *)
Definition stays_trapped (type : CarrierType) (initial_time : Q)
    (s : LoopState RNG) : bool :=
  let l := locals type s in
  l_trapping l
  && negb (Qltb (initial_time + (RK.getTime (runge_kutta s) + l_timestep l)
                 + l_detrap_time l)
                (integration_time_ self)).

(** The stepping loop, [while(state == MOTION && ... < integration_time_)]. *)
Fixpoint loop (fuel : nat) (type : CarrierType) (initial_time : Q)
    (s : LoopState RNG) : Result (LoopState RNG) :=
  if in_motion initial_time s then
    match fuel with
    | O => Diverges
    | S fuel => loop fuel type initial_time (loop_body type initial_time s)
    end
  else Ok s.

(** The state of the locals when the loop is entered. *)
Definition loop_entry (pos : Vector3d) (rng : RNG) : LoopState RNG :=
  {| runge_kutta := RK.make_runge_kutta (timestep_start_ self) pos;
     position := pos; last_position := pos;
     efield := V.zero; last_efield := V.zero; last_time := 0;
     gain := 1; state := MOTION; random_generator := rng |}.

(** "Find proper final position in the sensor" *)
Definition exit_position (s : LoopState RNG) : Vector3d :=
  if CarrierState_eqb (state s) HALTED
  then getSensorIntercept detector (last_position s) (position s)
  else position s.

(** "Set final state of charge carrier for plotting" *)
Definition plot_state (s : LoopState RNG) : CarrierState :=
  if Qle_bool (integration_time_ self) (RK.getTime (runge_kutta s))
     || Qltb (vz (last_position s)) (- vz (getSensorSize detector) * (45 # 100))
  then UNKNOWN else state s.

Definition loop_exit (s : LoopState RNG) (output_plot_points : OutputPlotPoints)
  : Propagated RNG :=
  {| final_position := exit_position s;
     final_time := RK.getTime (runge_kutta s);
     final_gain := gain s;
     final_state := state s;
     rng_after := random_generator s;
     plot_after :=
       if output_linegraphs_ self
       then set_back_state output_plot_points (plot_state s)
       else output_plot_points |}.

Definition propagate (fuel : nat) (pos : Vector3d) (type : CarrierType)
    (initial_time : Q) (random_generator : RNG)
    (output_plot_points : OutputPlotPoints) (charge : Z)
  : Result (Propagated RNG) :=
  s <- loop fuel type initial_time (loop_entry pos random_generator) ;;
  Ok (loop_exit s output_plot_points).

End Propagate.

(** ** GenericPropagationModule::run *)

(** [DepositedCharge], by its getters. *)
Record DepositedCharge := {
  getLocalPosition : Vector3d;
  getType : CarrierType;
  getCharge : Z;
  getLocalTime : Q;
  getGlobalTime : Q
}.

(** [PropagatedCharge], by the arguments of its constructor. *)
Module PropagatedCharge.
Record t := {
  local_position : Vector3d;
  global_position : Vector3d;
  type : CarrierType;
  charge : Z;
  local_time : Q;
  global_time : Q;
  state : CarrierState;
  deposit : DepositedCharge
}.
End PropagatedCharge.

(** The messages of [run] that tell what happened to a deposit. *)
Inductive LogMsg :=
| Skipping_type (d : DepositedCharge)
| Skipping_beyond_integration_time (d : DepositedCharge)
| Increasing_charge_per_step (deposited charge_per_step : Z)
| Propagated_group (charge_per_step : Z) (final_position : Vector3d)
                   (time gain : Q) (st : CarrierState).

(** The run-wide counters of the module, unsigned integers of the widths
    [counter_bits_]. *)
Record Statistics := {
  total_deposits_ : Z;
  deposits_exceeding_max_groups_ : Z;
  total_propagated_charges_ : Z;
  total_steps_ : Z;
  total_time_picoseconds_ : Z
}.

(** The locals of [run], the event's random engine, the counters the loop
    over the deposits updates, and the log. *)
Record RunState (RNG : Type) := {
  propagated_charges : list PropagatedCharge.t;
  output_plot_points : OutputPlotPoints;
  propagated_charges_count : Z;
  recombined_charges_count : Z;
  trapped_charges_count : Z;
  step_count : Z;
  total_time : Q;
  random_engine : RNG;
  statistics : Statistics;
  log : list LogMsg
}.
Arguments propagated_charges {RNG}.
Arguments output_plot_points {RNG}.
Arguments propagated_charges_count {RNG}.
Arguments recombined_charges_count {RNG}.
Arguments trapped_charges_count {RNG}.
Arguments step_count {RNG}.
Arguments total_time {RNG}.
Arguments random_engine {RNG}.
Arguments statistics {RNG}.
Arguments log {RNG}.

Section Run.

Context {RNG : Type}.
Variable libm : Libm.
Variable dist : Distributions RNG.
Variable RK5 : RK.Tableau.
Variable self : GenericPropagationModule.

Definition add_log (st : RunState RNG) (m : LogMsg) : RunState RNG :=
  {| propagated_charges := propagated_charges st;
     output_plot_points := output_plot_points st;
     propagated_charges_count := propagated_charges_count st;
     recombined_charges_count := recombined_charges_count st;
     trapped_charges_count := trapped_charges_count st;
     step_count := step_count st;
     total_time := total_time st;
     random_engine := random_engine st;
     statistics := statistics st;
     log := log st ++ [m] |}.

Definition set_statistics (st : RunState RNG) (s : Statistics) : RunState RNG :=
  {| propagated_charges := propagated_charges st;
     output_plot_points := output_plot_points st;
     propagated_charges_count := propagated_charges_count st;
     recombined_charges_count := recombined_charges_count st;
     trapped_charges_count := trapped_charges_count st;
     step_count := step_count st;
     total_time := total_time st;
     random_engine := random_engine st;
     statistics := s;
     log := log st |}.

(** The body of the loop over the charges of a deposit, after the group
    size has been fixed: propagate one group and record it. *)
Definition propagate_group (fuel : nat) (deposit : DepositedCharge)
    (charge_per_step : Z) (st : RunState RNG) : Result (RunState RNG) :=
  let initial_position := getLocalPosition deposit in
  let plot :=
    if output_linegraphs_ self
    then output_plot_points st
           ++ [(getGlobalTime deposit, charge_per_step, getType deposit, MOTION)]
    else output_plot_points st in
  p <- propagate libm dist RK5 self fuel initial_position (getType deposit)
         (getLocalTime deposit) (random_engine st) plot charge_per_step ;;
  let recombined :=
    if CarrierState_eqb (final_state p) RECOMBINED
    then to_uint (recombined_charges_count st + charge_per_step)
    else recombined_charges_count st in
  let trapped :=
    if CarrierState_eqb (final_state p) RECOMBINED
    then trapped_charges_count st
    else if CarrierState_eqb (final_state p) TRAPPED
         then to_uint (trapped_charges_count st + charge_per_step)
         else trapped_charges_count st in
  let global_position := getGlobalPosition (detector_ self) (final_position p) in
  let propagated_charge :=
    {| PropagatedCharge.local_position := final_position p;
       PropagatedCharge.global_position := global_position;
       PropagatedCharge.type := getType deposit;
       PropagatedCharge.charge :=
         to_uint (lround (inject_Z charge_per_step * final_gain p));
       PropagatedCharge.local_time := getLocalTime deposit + final_time p;
       PropagatedCharge.global_time := getGlobalTime deposit + final_time p;
       PropagatedCharge.state := final_state p;
       PropagatedCharge.deposit := deposit |} in
  Ok {| propagated_charges := propagated_charges st ++ [propagated_charge];
        output_plot_points := plot_after p;
        propagated_charges_count :=
          to_uint (propagated_charges_count st + charge_per_step);
        recombined_charges_count := recombined;
        trapped_charges_count := trapped;
        step_count := to_uint (step_count st + 1);
        total_time := total_time st + inject_Z charge_per_step * final_time p;
        random_engine := rng_after p;
        statistics := statistics st;
        log := log st ++ [Propagated_group charge_per_step (final_position p)
                            (final_time p) (final_gain p) (final_state p)] |}.

(** [while(charges_remaining > 0)] *)
Fixpoint charge_loop (pfuel fuel : nat) (deposit : DepositedCharge)
    (charges_remaining charge_per_step : Z) (st : RunState RNG)
  : Result (RunState RNG) :=
  if (0 <? charges_remaining)%Z then
    match fuel with
    | O => Diverges
    | S fuel =>
        let charge_per_step :=
          if (charges_remaining <? charge_per_step)%Z then charges_remaining
          else charge_per_step in
        let charges_remaining := to_uint (charges_remaining - charge_per_step) in
        st <- propagate_group pfuel deposit charge_per_step st ;;
        charge_loop pfuel fuel deposit charges_remaining charge_per_step st
    end
  else Ok st.

(** The group size for a deposit, and whether it was increased.  The
    quotient of the two doubles is the exact one here; as both hold integers
    below 2^32, rounding the quotient to a double does not move it across
    an integer, so [ceil] is the same on both. *)
Definition group_size (deposit : DepositedCharge) : Result (Z * bool) :=
  let charge_per_step := charge_per_step_ self in
  if (0 <? max_charge_groups_ self)%Z then
    if (charge_per_step =? 0)%Z then Undefined
    else if (max_charge_groups_ self <? getCharge deposit / charge_per_step)%Z
         then Ok (to_uint (ceil (inject_Z (getCharge deposit)
                                 / inject_Z (max_charge_groups_ self))),
                  true)
         else Ok (charge_per_step, false)
  else Ok (charge_per_step, false).

Definition skipped_type (deposit : DepositedCharge) : bool :=
  (CarrierType_eqb (getType deposit) ELECTRON && negb (propagate_electrons_ self))
  || (CarrierType_eqb (getType deposit) HOLE && negb (propagate_holes_ self)).

Definition skipped_time (deposit : DepositedCharge) : bool :=
  Qltb (integration_time_ self) (getLocalTime deposit).

(** The body of the loop over the deposits. *)
Definition run_deposit (fuel : nat) (deposit : DepositedCharge)
    (st : RunState RNG) : Result (RunState RNG) :=
  if skipped_type deposit then Ok (add_log st (Skipping_type deposit))
  else if skipped_time deposit
  then Ok (add_log st (Skipping_beyond_integration_time deposit))
  else
    let s := statistics st in
    let st := set_statistics st
      {| total_deposits_ :=
           wrap (total_deposits_bits (counter_bits_ self)) (total_deposits_ s + 1);
         deposits_exceeding_max_groups_ := deposits_exceeding_max_groups_ s;
         total_propagated_charges_ := total_propagated_charges_ s;
         total_steps_ := total_steps_ s;
         total_time_picoseconds_ := total_time_picoseconds_ s |} in
    let charges_remaining := getCharge deposit in
    g <- group_size deposit ;;
    let (charge_per_step, increased) := g in
    let st :=
      if increased then
        let s := statistics st in
        add_log
          (set_statistics st
             {| total_deposits_ := total_deposits_ s;
                deposits_exceeding_max_groups_ :=
                  wrap (deposits_exceeding_max_groups_bits (counter_bits_ self))
                       (deposits_exceeding_max_groups_ s + 1);
                total_propagated_charges_ := total_propagated_charges_ s;
                total_steps_ := total_steps_ s;
                total_time_picoseconds_ := total_time_picoseconds_ s |})
          (Increasing_charge_per_step (getCharge deposit) charge_per_step)
      else st in
    charge_loop fuel fuel deposit charges_remaining charge_per_step st.

(** [for(const auto& deposit : deposits_message->getData())] *)
Fixpoint for_deposits (fuel : nat) (deposits : list DepositedCharge)
    (st : RunState RNG) : Result (RunState RNG) :=
  match deposits with
  | [] => Ok st
  | deposit :: rest =>
      st <- run_deposit fuel deposit st ;;
      for_deposits fuel rest st
  end.

Definition run_entry (rng : RNG) (stats : Statistics) : RunState RNG :=
  {| propagated_charges := []; output_plot_points := [];
     propagated_charges_count := 0; recombined_charges_count := 0;
     trapped_charges_count := 0; step_count := 0; total_time := 0;
     random_engine := rng; statistics := stats; log := [] |}.

(** What [run] leaves behind: the dispatched message, the counters of the
    module, the random engine of the event and the log. *)
Record RunOutput := {
  message : list PropagatedCharge.t;
  counters : Statistics;
  engine : RNG;
  messages : list LogMsg
}.

Definition run (fuel : nat) (deposits : list DepositedCharge) (rng : RNG)
    (stats : Statistics) : Result RunOutput :=
  st <- for_deposits fuel deposits (run_entry rng stats) ;;
  let s := statistics st in
  Ok {| message := propagated_charges st;
        counters :=
          {| total_deposits_ := total_deposits_ s;
             deposits_exceeding_max_groups_ := deposits_exceeding_max_groups_ s;
             total_propagated_charges_ :=
               wrap (total_propagated_charges_bits (counter_bits_ self))
                    (total_propagated_charges_ s + propagated_charges_count st);
             total_steps_ :=
               wrap (total_steps_bits (counter_bits_ self))
                    (total_steps_ s + step_count st);
             total_time_picoseconds_ :=
               wrap (total_time_picoseconds_bits (counter_bits_ self))
                    (total_time_picoseconds_ s + trunc (total_time st * 1000)) |};
        engine := random_engine st;
        messages := log st |}.

End Run.
Arguments message {RNG}.
Arguments counters {RNG}.
Arguments engine {RNG}.
Arguments messages {RNG}.

(** ** The detector model (src/core/geometry/DetectorModel.cpp)

    DetectorModel.hpp is not among the sources: the classes are kept by the
    members that [getSupportLayers] and [getSize] reach, and the accessors
    they call ([getSensorCenter], [getChipCenter], [getMatrixCenter],
    [getSensorSize], [getChipSize], virtual or defined in the header) are
    fields of the model. *)

Module DetectorModel.

(** [std::numeric_limits<double>::lowest()] and [::max()] *)
Record NumericLimits := {
  limits_lowest : Q;
  limits_max : Q
}.

(** [DetectorModel::SupportLayer]; [getCenter] and [getSize] read [center_]
    and [size_]. *)
Record SupportLayer := {
  center_ : Vector3d;
  size_ : Vector3d;
  offset_ : Vector3d;
  location_ : string
}.

(** The chip: [getOffset], and [getBumpsOffset] (x and y) of a [HybridChip],
    the class the dynamic cast of [getSize] looks for. *)
Inductive Chip :=
| MonolithicChip (offset : Vector3d)
| HybridChip (offset : Vector3d) (bumps_offset : Q * Q).

Definition getOffset (chip : Chip) : Vector3d :=
  match chip with
  | MonolithicChip offset | HybridChip offset _ => offset
  end.

Record t := {
  getSensorCenter : Vector3d;
  getChipCenter : Vector3d;
  getMatrixCenter : Vector3d;
  getSensorSize : Vector3d;
  getChipSize : Vector3d;
  chip_ : Chip;
  support_layers_ : list SupportLayer
}.

Definition sub (a b : Vector3d) : Vector3d :=
  Vec (vx a - vx b) (vy a - vy b) (vz a - vz b).

Definition SetZ (v : Vector3d) (z : Q) : Vector3d := Vec (vx v) (vy v) z.

Definition set_center (layer : SupportLayer) (center : Vector3d) : SupportLayer :=
  {| center_ := center; size_ := size_ layer; offset_ := offset_ layer;
     location_ := location_ layer |}.

(** The loop of [getSupportLayers] over the copied layers, with the running
    [sensor_offset] and [chip_offset]. *)
Fixpoint place_layers (matrix_center : Vector3d) (sensor_offset chip_offset : Q)
    (layers : list SupportLayer) : list SupportLayer :=
  match layers with
  | [] => []
  | layer :: rest =>
      let offset := offset_ layer in
      if String.eqb (location_ layer) "sensor" then
        let offset := SetZ offset (sensor_offset - vz (size_ layer) / 2) in
        set_center layer (matrix_center + offset)%vec
        :: place_layers matrix_center (sensor_offset - vz (size_ layer))
             chip_offset rest
      else if String.eqb (location_ layer) "chip" then
        let offset := SetZ offset (chip_offset + vz (size_ layer) / 2) in
        set_center layer (matrix_center + offset)%vec
        :: place_layers matrix_center sensor_offset
             (chip_offset + vz (size_ layer)) rest
      else
        set_center layer (matrix_center + offset)%vec
        :: place_layers matrix_center sensor_offset chip_offset rest
  end.

Definition getSupportLayers (model : t) : list SupportLayer :=
  let sensor_offset := - vz (getSensorSize model) / 2 in
  let chip_offset :=
    vz (getSensorSize model) / 2 + vz (getChipSize model)
    + vz (getOffset (chip_ model)) in
  place_layers (getMatrixCenter model) sensor_offset chip_offset
    (support_layers_ model).

(** One round of the two loops of [getSize]: the running corners [max] and
    [min] after an element with the given centre and size. *)
Definition enclose (box : Vector3d * Vector3d) (center size : Vector3d)
  : Vector3d * Vector3d :=
  let (max, min) := box in
  let upper := (center + size / 2)%vec in
  let lower := sub center (size / 2)%vec in
  (Vec (Qmax (vx max) (vx upper)) (Qmax (vy max) (vy upper))
       (Qmax (vz max) (vz upper)),
   Vec (Qmin (vx min) (vx lower)) (Qmin (vy min) (vy lower))
       (Qmin (vz min) (vz lower))).

Definition getSize (limits : NumericLimits) (model : t) : Vector3d :=
  let max := Vec (limits_lowest limits) (limits_lowest limits) (limits_lowest limits) in
  let min := Vec (limits_max limits) (limits_max limits) (limits_max limits) in
  let box := enclose (max, min) (getSensorCenter model) (getSensorSize model) in
  let box := enclose box (getChipCenter model) (getChipSize model) in
  let box :=
    fold_left (fun box support_layer =>
                 enclose box (center_ support_layer) (size_ support_layer))
              (getSupportLayers model) box in
  let (max, min) := box in
  let center := getMatrixCenter model in
  let size :=
    Vec (2 * Qmax (vx max - vx center) (vx center - vx min))
        (2 * Qmax (vy max - vy center) (vy center - vy min))
        ((vz max - vz center) + (vz center - vz min)) in
  match chip_ model with
  | HybridChip _ (bumps_x, bumps_y) =>
      let bump_grid :=
        (getSensorSize model + 2 * Vec (Qabs bumps_x) (Qabs bumps_y) 0)%vec in
      Vec (Qmax (vx size) (vx bump_grid)) (Qmax (vy size) (vy bump_grid))
          (Qmax (vz size) (vz bump_grid))
  | MonolithicChip _ => size
  end.

End DetectorModel.

(** ** Mesh elements of the TCAD converter
       (src/tools/tcad_dfise_converter/MeshElement.cpp)

    MeshElement.hpp is not among the sources.  What the functions below use
    of it: a [Point] has the coordinates [x], [y], [z], zero when it is
    default-constructed; an element has the members [dimension_],
    [vertices_], [e_field_] and [volume_], and its constructor stores its
    arguments and calls [calculate_volume] on a volume of zero (the
    sub-elements built by [validElement] and [getObservable] are asked for
    their volume right after construction).  Reading or writing a vector past
    its end is undefined. *)

Module MeshElement.

Record Point := { x : Q; y : Q; z : Q }.

Definition Point_default : Point := {| x := 0; y := 0; z := 0 |}.

Record t := {
  dimension_ : nat;
  vertices_ : list Point;
  e_field_ : list Point;
  volume_ : Q
}.

Definition MIN_VOLUME : Q := 1 # (10 ^ 12).

(** [v[i]] *)
Definition at_ {A} (v : list A) (i : nat) : Result A :=
  match nth_error v i with
  | Some a => Ok a
  | None => Undefined
  end.

(** [v[i] = a] *)
Fixpoint assign {A} (v : list A) (i : nat) (a : A) : Result (list A) :=
  match v, i with
  | [], _ => Undefined
  | _ :: rest, O => Ok (a :: rest)
  | b :: rest, S i => rest <- assign rest i a ;; Ok (b :: rest)
  end.

(** [Eigen::Matrix3d::determinant] and [Eigen::Matrix4d::determinant], the
    coefficients in the row-major order of the comma initialiser. *)
Definition determinant3 (a11 a12 a13 a21 a22 a23 a31 a32 a33 : Q) : Q :=
  a11 * (a22 * a33 - a23 * a32)
  - a12 * (a21 * a33 - a23 * a31)
  + a13 * (a21 * a32 - a22 * a31).

Definition determinant4
    (a11 a12 a13 a14 a21 a22 a23 a24 a31 a32 a33 a34 a41 a42 a43 a44 : Q) : Q :=
  a11 * determinant3 a22 a23 a24 a32 a33 a34 a42 a43 a44
  - a12 * determinant3 a21 a23 a24 a31 a33 a34 a41 a43 a44
  + a13 * determinant3 a21 a22 a24 a31 a32 a34 a41 a42 a44
  - a14 * determinant3 a21 a22 a23 a31 a32 a33 a41 a42 a43.

(** [calculate_volume], returning the new value of [volume_]. *)
Definition calculate_volume (dimension_ : nat) (vertices_ : list Point)
    (volume_ : Q) : Result Q :=
  volume_ <-
    (if Nat.eqb dimension_ 3 then
       v0 <- at_ vertices_ 0 ;; v1 <- at_ vertices_ 1 ;;
       v2 <- at_ vertices_ 2 ;; v3 <- at_ vertices_ 3 ;;
       Ok (determinant4 1 1 1 1
                        (x v0) (x v1) (x v2) (x v3)
                        (y v0) (y v1) (y v2) (y v3)
                        (z v0) (z v1) (z v2) (z v3) / 6)
     else Ok volume_) ;;
  if Nat.eqb dimension_ 2 then
    v0 <- at_ vertices_ 0 ;; v1 <- at_ vertices_ 1 ;; v2 <- at_ vertices_ 2 ;;
    Ok (determinant3 1 1 1
                     (y v0) (y v1) (y v2)
                     (z v0) (z v1) (z v2) / 2)
  else Ok volume_.

(** The constructor. *)
Definition make (dimension : nat) (vertices e_field : list Point) : Result t :=
  volume <- calculate_volume dimension vertices 0 ;;
  Ok {| dimension_ := dimension; vertices_ := vertices; e_field_ := e_field;
        volume_ := volume |}.

Definition getVolume (e : t) : Q := volume_ e.

(** The volume of the element with vertex [i] replaced by [qp]. *)
Definition sub_volume (e : t) (i : nat) (qp : Point) : Result Q :=
  sub_vertices <- assign (vertices_ e) i qp ;;
  sub_tetrahedron <- make (dimension_ e) sub_vertices [] ;;
  Ok (getVolume sub_tetrahedron).

(** The loop of [validElement] from index [i], [n] rounds to go. *)
Fixpoint validElement_loop (e : t) (qp : Point) (n i : nat) : Result bool :=
  match n with
  | O => Ok true
  | S n =>
      tetra_volume <- sub_volume e i qp ;;
      if Qle_bool 0 (volume_ e * tetra_volume)
      then validElement_loop e qp n (S i)
      else if Qltb (volume_ e * tetra_volume) 0 then Ok false
      else validElement_loop e qp n (S i)
  end.

Definition validElement (e : t) (volume_cut : Q) (qp : Point) : Result bool :=
  if Qltb (volume_ e) MIN_VOLUME then Ok false
  else if Qle_bool (Qabs (volume_ e)) volume_cut then Ok false
  else validElement_loop e qp (dimension_ e + 1) 0.

(** The loop of [getObservable] from [index], [n] rounds to go. *)
Fixpoint getObservable_loop (e : t) (qp : Point) (n index : nat)
    (new_observable : Point) : Result Point :=
  match n with
  | O => Ok new_observable
  | S n =>
      sub_volume <- sub_volume e index qp ;;
      field <- at_ (e_field_ e) index ;;
      getObservable_loop e qp n (S index)
        {| x := x new_observable + (sub_volume * x field) / volume_ e;
           y := y new_observable + (sub_volume * y field) / volume_ e;
           z := z new_observable + (sub_volume * z field) / volume_ e |}
  end.

Definition getObservable (e : t) (qp : Point) : Result Point :=
  getObservable_loop e qp (dimension_ e + 1) 0 Point_default.

End MeshElement.

(** ** The field converter (src/tools/apf_tools/FieldConverter.cpp)

    [main] on the arguments after the program name.  The log level parser,
    and the field parser and writer of tools/field_parser.h, are reached
    through their calls: [getLevelFromString] answers [None] where the code
    catches [std::invalid_argument], [get_by_file_name] answers [None] where
    building the parser or reading the file throws, and [write_file] answers
    [false] where building the writer or writing throws.  [format_from] and
    [format_to] are declared without initialiser: they hold no value until
    an option assigns one, and reading them before is undefined;
    [format_from] is read for the call of the parser, [format_to] only for
    the call of the writer, after the parser has returned. *)

Module FieldConverter.

Inductive FileType := UNKNOWN | INIT | APF.
Inductive FieldQuantity := SCALAR | VECTOR.

(** [::tolower] in the C locale and [std::transform] with it. *)
Definition tolower (c : Ascii.ascii) : Ascii.ascii :=
  let n := Ascii.nat_of_ascii c in
  if (65 <=? n)%nat && (n <=? 90)%nat then Ascii.ascii_of_nat (n + 32) else c.

Fixpoint transform (s : string) : string :=
  match s with
  | EmptyString => EmptyString
  | String c rest => String (tolower c) (transform rest)
  end.

Definition file_type (format : string) : FileType :=
  if String.eqb format "init" then INIT
  else if String.eqb format "apf" then APF
  else UNKNOWN.

(** The local variables of [main] that the argument loop assigns, with the
    reporting level of the log and the errors logged. *)
Record Locals (LogLevel : Type) := {
  print_help : bool;
  return_code : Z;
  format_from : option FileType;
  format_to : option FileType;
  file_input : string;
  file_output : string;
  scalar : bool;
  reporting_level : LogLevel;
  errors : list string
}.
Arguments print_help {LogLevel}.
Arguments return_code {LogLevel}.
Arguments format_from {LogLevel}.
Arguments format_to {LogLevel}.
Arguments file_input {LogLevel}.
Arguments file_output {LogLevel}.
Arguments scalar {LogLevel}.
Arguments reporting_level {LogLevel}.
Arguments errors {LogLevel}.

(** What [main] ends with: the usage text, the call of the parser (which
    threw), or the call of the writer. *)
Inductive Action :=
| PrintHelp
| Read (quantity : FieldQuantity) (file_input : string) (format_from : FileType)
| Write (quantity : FieldQuantity) (file_input : string) (format_from : FileType)
        (file_output : string) (format_to : FileType).

Section Main.

Context {LogLevel : Type}.
(** The type of [field_data]. *)
Context {FieldData : Type}.
Variable getLevelFromString : string -> option LogLevel.
(** [FieldParser<double>(quantity, "").get_by_file_name(file, format)] *)
Variable get_by_file_name : FieldQuantity -> string -> FileType -> option FieldData.
(** [FieldWriter<double>(quantity, "").write_file(field_data, file, format)] *)
Variable write_file : FieldQuantity -> FieldData -> string -> FileType -> bool.
Variable default_level : LogLevel.

(** The branches of the argument loop. *)
Definition help (l : Locals LogLevel) : Locals LogLevel :=
  {| print_help := true; return_code := return_code l;
     format_from := format_from l; format_to := format_to l;
     file_input := file_input l; file_output := file_output l;
     scalar := scalar l; reporting_level := reporting_level l;
     errors := errors l |}.

Definition verbosity (value : string) (l : Locals LogLevel) : Locals LogLevel :=
  {| print_help := print_help l; return_code := return_code l;
     format_from := format_from l; format_to := format_to l;
     file_input := file_input l; file_output := file_output l;
     scalar := scalar l;
     reporting_level :=
       match getLevelFromString value with
       | Some log_level => log_level
       | None => reporting_level l
       end;
     errors :=
       match getLevelFromString value with
       | Some _ => errors l
       | None => errors l ++ ["Invalid verbosity level"%string]
       end |}.

Definition from (value : string) (l : Locals LogLevel) : Locals LogLevel :=
  {| print_help := print_help l; return_code := return_code l;
     format_from := Some (file_type (transform value));
     format_to := format_to l;
     file_input := file_input l; file_output := file_output l;
     scalar := scalar l; reporting_level := reporting_level l;
     errors := errors l |}.

Definition to (value : string) (l : Locals LogLevel) : Locals LogLevel :=
  {| print_help := print_help l; return_code := return_code l;
     format_from := format_from l;
     format_to := Some (file_type (transform value));
     file_input := file_input l; file_output := file_output l;
     scalar := scalar l; reporting_level := reporting_level l;
     errors := errors l |}.

Definition input (value : string) (l : Locals LogLevel) : Locals LogLevel :=
  {| print_help := print_help l; return_code := return_code l;
     format_from := format_from l; format_to := format_to l;
     file_input := value; file_output := file_output l;
     scalar := scalar l; reporting_level := reporting_level l;
     errors := errors l |}.

Definition output (value : string) (l : Locals LogLevel) : Locals LogLevel :=
  {| print_help := print_help l; return_code := return_code l;
     format_from := format_from l; format_to := format_to l;
     file_input := file_input l; file_output := value;
     scalar := scalar l; reporting_level := reporting_level l;
     errors := errors l |}.

Definition set_scalar (l : Locals LogLevel) : Locals LogLevel :=
  {| print_help := print_help l; return_code := return_code l;
     format_from := format_from l; format_to := format_to l;
     file_input := file_input l; file_output := file_output l;
     scalar := true; reporting_level := reporting_level l;
     errors := errors l |}.

Definition unrecognized (l : Locals LogLevel) : Locals LogLevel :=
  {| print_help := true; return_code := 1;
     format_from := format_from l; format_to := format_to l;
     file_input := file_input l; file_output := file_output l;
     scalar := scalar l; reporting_level := reporting_level l;
     errors := errors l ++ ["Unrecognized command line argument"%string] |}.

(** The argument loop on [argv[i]], [argv[i + 1]], ...: an option with a
    value is taken only if a further argument follows ([i + 1 < argc]), and
    skips it. *)
Fixpoint parse (args : list string) (l : Locals LogLevel) : Locals LogLevel :=
  match args with
  | [] => l
  | arg :: rest =>
      if String.eqb arg "-h" then parse rest (help l)
      else
        match rest with
        | value :: rest' =>
            if String.eqb arg "-v" then parse rest' (verbosity value l)
            else if String.eqb arg "--from" then parse rest' (from value l)
            else if String.eqb arg "--to" then parse rest' (to value l)
            else if String.eqb arg "--input" then parse rest' (input value l)
            else if String.eqb arg "--output" then parse rest' (output value l)
            else if String.eqb arg "--scalar" then parse rest (set_scalar l)
            else parse rest (unrecognized l)
        | [] =>
            if String.eqb arg "--scalar" then parse rest (set_scalar l)
            else parse rest (unrecognized l)
        end
  end.

(** The locals before the loop: [argc == 1] asks for the usage text. *)
Definition initial (args : list string) : Locals LogLevel :=
  {| print_help := match args with [] => true | _ => false end;
     return_code := match args with [] => 1 | _ => 0 end;
     format_from := None; format_to := None;
     file_input := EmptyString; file_output := EmptyString;
     scalar := false; reporting_level := default_level; errors := [] |}.

Definition main (args : list string) : Result (Action * Z) :=
  let l := parse args (initial args) in
  if print_help l then Ok (PrintHelp, return_code l)
  else
    let quantity := if scalar l then SCALAR else VECTOR in
    match format_from l with
    | None => Undefined
    | Some format_from =>
        match get_by_file_name quantity (file_input l) format_from with
        | None => Ok (Read quantity (file_input l) format_from, 127%Z)
        | Some field_data =>
            match format_to l with
            | None => Undefined
            | Some format_to =>
                if write_file quantity field_data (file_output l) format_to
                then Ok (Write quantity (file_input l) format_from
                           (file_output l) format_to, return_code l)
                else Ok (Write quantity (file_input l) format_from
                           (file_output l) format_to, 127%Z)
            end
        end
    end.

End Main.

End FieldConverter.

(** ** The statements of the specification, as definitions *)

Module Spec.

(** "Repeatedly peel off groups of size S (last group truncated to the
    remainder) until C is exhausted". *)
Definition groups (C S : Z) : list Z :=
  repeat S (Z.to_nat (C / S))
  ++ (if (C mod S =? 0)%Z then [] else [(C mod S)%Z]).

Definition sum (l : list Z) : Z := fold_right Z.add 0%Z l.

(** "ceil(C / max_charge_groups)" on integers. *)
Definition ceil_div (C M : Z) : Z := ((C + M - 1) / M)%Z.

(** "velocity = sign(type) . mobility(type, |E|, doping) . E" *)
Definition velocity (sign mob : Q) (E : Vector3d) : Vector3d :=
  (sign * (mob * E))%vec.

(** The velocity in a magnetic field, section 4.1. *)
Definition velocity_withB (sign mob hallFactor : Q) (E B : Vector3d)
  : Vector3d :=
  let exb := V.cross E B in
  let term1 := (sign * (mob * (hallFactor * exb)))%vec in
  let term2 := ((mob * mob * (hallFactor * hallFactor) * V.dot E B) * B)%vec in
  let rnorm := 1 + mob * mob * (hallFactor * hallFactor) * V.dot B B in
  (sign * (mob * ((E + term1 + term2) / rnorm)))%vec.

(** "Clamp to [timestep_min, timestep_max]". *)
Definition clamp (lo hi x : Q) : Q := Qmax lo (Qmin hi x).

(** Step 8 of the propagation driver, as worded: "shrink x0.75 if within 2
    step-lengths of a sensor boundary along the drift axis, or if the
    step's position error exceeds the target spatial precision; grow x1.5
    if the error is below half the target precision; otherwise unchanged.
    Clamp."  The sensor boundaries along the drift axis are the faces
    [z = -size_z/2] and [z = +size_z/2]; the step length is the norm of
    the step. *)
Definition near_boundary (size_z z step_length : Q) : bool :=
  Qltb (Qabs (size_z / 2 - z)) (2 * step_length)
  || Qltb (Qabs (- (size_z / 2) - z)) (2 * step_length).

Definition adapt (size_z z step_length uncertainty precision lo hi h : Q) : Q :=
  clamp lo hi
    (if near_boundary size_z z step_length || Qltb precision uncertainty
     then h * (3 # 4)
     else if Qltb uncertainty (precision / 2) then h * (3 # 2)
          else h).

End Spec.

(** ** Notions the statements below are about *)

(** The states in which the stepping loop starts an iteration: the state on
    entry, and the state a started iteration leads to whenever the loop
    condition holds again. *)
Inductive head_of_step {RNG : Type} (libm : Libm) (dist : Distributions RNG)
    (RK5 : RK.Tableau) (self : GenericPropagationModule) (type : CarrierType)
    (initial_time : Q) (pos : Vector3d) (rng : RNG) : LoopState RNG -> Prop :=
| first_step :
    in_motion self initial_time (loop_entry self pos rng) = true ->
    head_of_step libm dist RK5 self type initial_time pos rng
                 (loop_entry self pos rng)
| next_step (s : LoopState RNG) :
    head_of_step libm dist RK5 self type initial_time pos rng s ->
    in_motion self initial_time (loop_body libm dist RK5 self type initial_time s)
      = true ->
    head_of_step libm dist RK5 self type initial_time pos rng
                 (loop_body libm dist RK5 self type initial_time s).

(** The smallest step size the loop can start an iteration with. *)
Definition smallest_step (self : GenericPropagationModule) : Q :=
  Qmin (timestep_start_ self) (Qmin (timestep_min_ self) (timestep_max_ self)).

(** The configured step sizes are positive. *)
Definition positive_steps (self : GenericPropagationModule) : Prop :=
  0 < timestep_start_ self /\ 0 < timestep_min_ self /\ 0 < timestep_max_ self.

(** Where the trapping model can fire, no release delay is negative. *)
Definition releases_later (self : GenericPropagationModule) : Prop :=
  forall type u u' timestep efield_mag,
    trapping_ self type u timestep efield_mag = true ->
    0 <= detrapping_ self type u' efield_mag.

(** Every iteration then advances the elapsed time by at least
    [smallest_step]. *)
Definition advances (self : GenericPropagationModule) : Prop :=
  positive_steps self /\ releases_later self.

(** Iterations that suffice for a carrier deposited at [initial_time]. *)
Definition enough_fuel (self : GenericPropagationModule) (initial_time : Q) : nat :=
  Z.to_nat (Qceiling ((integration_time_ self - initial_time) / smallest_step self)).

(** The groups a log tells of: their sizes and gains. *)
Definition logged_group (m : LogMsg) : list (Z * Q) :=
  match m with
  | Propagated_group charge_per_step _ _ gain _ => [(charge_per_step, gain)]
  | _ => []
  end.

Definition logged_groups (l : list LogMsg) : list (Z * Q) :=
  flat_map logged_group l.

(** The charge of the record of a group: its size times its gain, rounded. *)
Definition output_charge (g : Z * Q) : Z :=
  to_uint (lround (inject_Z (fst g) * snd g)).

(** A deposit that passes both tests at the head of the loop. *)
Definition processed (self : GenericPropagationModule) (d : DepositedCharge) : bool :=
  negb (skipped_type self d) && negb (skipped_time self d).

(** The group size [run] settles on for a deposit. *)
Definition effective_size (self : GenericPropagationModule) (d : DepositedCharge) : Z :=
  match group_size self d with
  | Ok (size, _) => size
  | _ => 0%Z
  end.

(** The groups the specification asks for, each with its deposit. *)
Definition plan (self : GenericPropagationModule) (deposits : list DepositedCharge)
  : list (DepositedCharge * Z) :=
  flat_map (fun d =>
              if processed self d
              then map (pair d) (Spec.groups (getCharge d) (effective_size self d))
              else [])
           deposits.

(** Fuel that suffices for the loops of an event. *)
Definition fuel_for_deposit (self : GenericPropagationModule) (d : DepositedCharge)
  : nat :=
  Nat.max (Z.to_nat (getCharge d)) (enough_fuel self (getLocalTime d)).

Definition fuel_for (self : GenericPropagationModule)
    (deposits : list DepositedCharge) : nat :=
  fold_right Nat.max 0%nat (map (fuel_for_deposit self) deposits).

(** What a stretch of [run] adds to the records and to the log, for the
    groups [gs]. *)
Definition adds {RNG : Type} (gs : list (DepositedCharge * Z))
    (st st' : RunState RNG) : Prop :=
  exists (recs : list PropagatedCharge.t) (lg : list (Z * Q)),
    propagated_charges st' = propagated_charges st ++ recs
    /\ logged_groups (log st') = logged_groups (log st) ++ lg
    /\ map fst lg = map snd gs
    /\ map PropagatedCharge.deposit recs = map fst gs
    /\ map PropagatedCharge.charge recs = map output_charge lg.

(** ** The sensor boundary *)






(** ** Notions the further statements are about *)

(** Whether [run] increased the group size for a deposit. *)
Definition increased (self : GenericPropagationModule) (d : DepositedCharge) : bool :=
  match group_size self d with
  | Ok (_, b) => b
  | _ => false
  end.

(** The record [run] builds for a group of [charge_per_step] carriers of
    deposit [d] whose stepping loop ended in [s]. *)
Definition group_record {RNG : Type} (self : GenericPropagationModule)
    (d : DepositedCharge) (charge_per_step : Z) (s : LoopState RNG)
  : PropagatedCharge.t :=
  {| PropagatedCharge.local_position := exit_position self s;
     PropagatedCharge.global_position :=
       getGlobalPosition (detector_ self) (exit_position self s);
     PropagatedCharge.type := getType d;
     PropagatedCharge.charge := to_uint (lround (inject_Z charge_per_step * gain s));
     PropagatedCharge.local_time := getLocalTime d + RK.getTime (runge_kutta s);
     PropagatedCharge.global_time := getGlobalTime d + RK.getTime (runge_kutta s);
     PropagatedCharge.state := state s;
     PropagatedCharge.deposit := d |}.

(** The larger of the step sizes a loop iteration can start with when
    timestep_min <= timestep_max. *)
Definition largest_step (self : GenericPropagationModule) : Q :=
  Qmax (timestep_start_ self) (timestep_max_ self).

(** The counters hold values of their types. *)
Definition counters_in_range (self : GenericPropagationModule) (s : Statistics)
  : Prop :=
  (0 <= total_deposits_ s < 2 ^ total_deposits_bits (counter_bits_ self))%Z
  /\ (0 <= deposits_exceeding_max_groups_ s
      < 2 ^ deposits_exceeding_max_groups_bits (counter_bits_ self))%Z
  /\ (0 <= total_propagated_charges_ s
      < 2 ^ total_propagated_charges_bits (counter_bits_ self))%Z
  /\ (0 <= total_steps_ s < 2 ^ total_steps_bits (counter_bits_ self))%Z
  /\ (0 <= total_time_picoseconds_ s
      < 2 ^ total_time_picoseconds_bits (counter_bits_ self))%Z.

(** What a processed deposit adds to the counters of the module. *)
Definition count_deposit (self : GenericPropagationModule) (s : Statistics)
    (d : DepositedCharge) : Statistics :=
  if processed self d then
    {| total_deposits_ :=
         wrap (total_deposits_bits (counter_bits_ self)) (total_deposits_ s + 1);
       deposits_exceeding_max_groups_ :=
         if increased self d
         then wrap (deposits_exceeding_max_groups_bits (counter_bits_ self))
                   (deposits_exceeding_max_groups_ s + 1)
         else deposits_exceeding_max_groups_ s;
       total_propagated_charges_ := total_propagated_charges_ s;
       total_steps_ := total_steps_ s;
       total_time_picoseconds_ := total_time_picoseconds_ s |}
  else s.

(** A record that stems from a group of a processed deposit of the event. *)
Definition from_deposit {RNG : Type} (libm : Libm) (dist : Distributions RNG)
    (RK5 : RK.Tableau) (self : GenericPropagationModule)
    (deposits : list DepositedCharge) (pc : PropagatedCharge.t) : Prop :=
  exists (d : DepositedCharge) (charge_per_step : Z) (fuel : nat) (rng : RNG)
         (s : LoopState RNG),
    In d deposits /\ processed self d = true
    /\ loop libm dist RK5 self fuel (getType d) (getLocalTime d)
            (loop_entry self (getLocalPosition d) rng) = Ok s
    /\ pc = group_record self d charge_per_step s.

(** ** Notions for the recombination models *)

(** The exponential does not decrease on the arguments the models pass,
    which are never positive. *)
Definition monotone_exp (m : Libm) : Prop :=
  forall x y, x <= y -> y <= 0 -> exp m x <= exp m y.

Definition positive_srh (d : Recombination.SRHData) : Prop :=
  0 < Recombination.electron_lifetime_reference_ d
  /\ 0 < Recombination.electron_doping_reference_ d
  /\ 0 < Recombination.hole_lifetime_reference_ d
  /\ 0 < Recombination.hole_doping_reference_ d
  /\ 0 < Recombination.temperature_scaling_ d.

(** Reference lifetimes, reference concentrations and the temperature
    scaling are positive, the Auger coefficient is not negative. *)
Definition positive_parameters (model : Recombination.Model) : Prop :=
  match model with
  | Recombination.None_ => True
  | Recombination.ShockleyReadHall d => positive_srh d
  | Recombination.Auger c => 0 <= c
  | Recombination.ShockleyReadHallAuger d c => positive_srh d /\ 0 <= c
  | Recombination.ConstantLifetime e h => 0 < e /\ 0 < h
  end.

(** The carrier type that is not the minority for a doping concentration. *)
Definition majorityType (doping : Q) : CarrierType :=
  match Recombination.minorityType doping with
  | ELECTRON => HOLE
  | HOLE => ELECTRON
  end.

(** The names the factory knows that need a doping profile. *)
Definition doping_models : list string :=
  ["srh"; "auger"; "combined"; "srh_auger"]%string.

(** The keys that are read for a model name and are not set. *)
Definition missing_keys (config : Recombination.Configuration) : list string :=
  let missing {T : Type} (value : option T) (key : string) : list string :=
    match value with
    | None => [key]
    | Some _ => []
    end in
  missing (Recombination.recombination_model config) "recombination_model"%string
  ++ missing (Recombination.temperature config) "temperature"%string
  ++ match Recombination.recombination_model config with
     | Some name =>
         if String.eqb name "constant" then
           missing (Recombination.lifetime_electron config)
                   "lifetime_electron"%string
           ++ missing (Recombination.lifetime_hole config) "lifetime_hole"%string
         else []
     | None => []
     end.

(** The configuration with another value for the key recombination_model. *)
Definition with_model (config : Recombination.Configuration) (name : string)
  : Recombination.Configuration :=
  {| Recombination.recombination_model := Some name;
     Recombination.temperature := Recombination.temperature config;
     Recombination.lifetime_electron := Recombination.lifetime_electron config;
     Recombination.lifetime_hole := Recombination.lifetime_hole config |}.

(** Reference values all equal to one. *)
Definition unit_srh : Recombination.SRHData :=
  {| Recombination.electron_lifetime_reference_ := 1;
     Recombination.electron_doping_reference_ := 1;
     Recombination.hole_lifetime_reference_ := 1;
     Recombination.hole_doping_reference_ := 1;
     Recombination.temperature_scaling_ := 1 |}.

(** ** Notions for the detector model *)

(** The summed thickness of the layers placed at a location. *)
Fixpoint thickness_at (location : string) (layers : list DetectorModel.SupportLayer) : Q :=
  match layers with
  | [] => 0
  | layer :: rest =>
      (if String.eqb (DetectorModel.location_ layer) location
       then vz (DetectorModel.size_ layer) else 0)
      + thickness_at location rest
  end.

(** The faces of a layer along z. *)
Definition upper_face (layer : DetectorModel.SupportLayer) : Q :=
  vz (DetectorModel.center_ layer) + vz (DetectorModel.size_ layer) / 2.
Definition lower_face (layer : DetectorModel.SupportLayer) : Q :=
  vz (DetectorModel.center_ layer) - vz (DetectorModel.size_ layer) / 2.

(** Centre and size of the parts of an assembly: sensor, chip and the
    support layers as [getSupportLayers] places them. *)
Definition assembly (model : DetectorModel.t) : list (Vector3d * Vector3d) :=
  (DetectorModel.getSensorCenter model, DetectorModel.getSensorSize model)
  :: (DetectorModel.getChipCenter model, DetectorModel.getChipSize model)
  :: map (fun layer => (DetectorModel.center_ layer, DetectorModel.size_ layer))
         (DetectorModel.getSupportLayers model).

(** A part with the given centre and size lies within the corners [max] and
    [min] of a box. *)
Definition within_box (box : Vector3d * Vector3d) (part : Vector3d * Vector3d) : Prop :=
  let (max, min) := box in
  let (center, size) := part in
  vx center + vx size / 2 <= vx max /\ vx min <= vx center - vx size / 2
  /\ vy center + vy size / 2 <= vy max /\ vy min <= vy center - vy size / 2
  /\ vz center + vz size / 2 <= vz max /\ vz min <= vz center - vz size / 2.

(** The model with another chip. *)
Definition with_chip (model : DetectorModel.t) (chip : DetectorModel.Chip)
  : DetectorModel.t :=
  {| DetectorModel.getSensorCenter := DetectorModel.getSensorCenter model;
     DetectorModel.getChipCenter := DetectorModel.getChipCenter model;
     DetectorModel.getMatrixCenter := DetectorModel.getMatrixCenter model;
     DetectorModel.getSensorSize := DetectorModel.getSensorSize model;
     DetectorModel.getChipSize := DetectorModel.getChipSize model;
     DetectorModel.chip_ := chip;
     DetectorModel.support_layers_ := DetectorModel.support_layers_ model |}.

(** ** Notions for the mesh elements *)

(** Equality of the rational coordinates. *)
Definition same_point (p q : MeshElement.Point) : Prop :=
  MeshElement.x p == MeshElement.x q /\ MeshElement.y p == MeshElement.y q
  /\ MeshElement.z p == MeshElement.z q.

(** A field that is affine in the position: each component is a linear form
    of the coordinates plus a constant. *)
Record AffineField := {
  gradient_x : MeshElement.Point; at_origin_x : Q;
  gradient_y : MeshElement.Point; at_origin_y : Q;
  gradient_z : MeshElement.Point; at_origin_z : Q
}.

Definition linear_form (g : MeshElement.Point) (c : Q) (p : MeshElement.Point) : Q :=
  MeshElement.x g * MeshElement.x p + MeshElement.y g * MeshElement.y p
  + MeshElement.z g * MeshElement.z p + c.

Definition field_at (F : AffineField) (p : MeshElement.Point) : MeshElement.Point :=
  {| MeshElement.x := linear_form (gradient_x F) (at_origin_x F) p;
     MeshElement.y := linear_form (gradient_y F) (at_origin_y F) p;
     MeshElement.z := linear_form (gradient_z F) (at_origin_z F) p |}.

(** A field of a two-dimensional mesh does not vary along x. *)
Definition planar (F : AffineField) : Prop :=
  MeshElement.x (gradient_x F) == 0 /\ MeshElement.x (gradient_y F) == 0
  /\ MeshElement.x (gradient_z F) == 0.

(** Triangles (dimension 2, in the y-z plane) and tetrahedra (dimension 3)
    with all their vertices and field values. *)
Definition simplex (e : MeshElement.t) : Prop :=
  (MeshElement.dimension_ e = 2 \/ MeshElement.dimension_ e = 3)%nat
  /\ List.length (MeshElement.vertices_ e) = (MeshElement.dimension_ e + 1)%nat
  /\ List.length (MeshElement.e_field_ e) = (MeshElement.dimension_ e + 1)%nat.

(** The element with its first two vertices exchanged. *)
Definition mirrored (vertices : list MeshElement.Point) : list MeshElement.Point :=
  match vertices with
  | v0 :: v1 :: rest => v1 :: v0 :: rest
  | _ => vertices
  end.

(** The signed volume of a tetrahedron and the signed area of a triangle, as
    [calculate_volume] computes them. *)
Definition volume3 (v0 v1 v2 v3 : MeshElement.Point) : Q :=
  MeshElement.determinant4 1 1 1 1
    (MeshElement.x v0) (MeshElement.x v1) (MeshElement.x v2) (MeshElement.x v3)
    (MeshElement.y v0) (MeshElement.y v1) (MeshElement.y v2) (MeshElement.y v3)
    (MeshElement.z v0) (MeshElement.z v1) (MeshElement.z v2) (MeshElement.z v3) / 6.

Definition volume2 (v0 v1 v2 : MeshElement.Point) : Q :=
  MeshElement.determinant3 1 1 1
    (MeshElement.y v0) (MeshElement.y v1) (MeshElement.y v2)
    (MeshElement.z v0) (MeshElement.z v1) (MeshElement.z v2) / 2.

(** A point lies in the box spanned by two corners. *)
Definition in_box (lo hi p : MeshElement.Point) : Prop :=
  MeshElement.x lo <= MeshElement.x p <= MeshElement.x hi
  /\ MeshElement.y lo <= MeshElement.y p <= MeshElement.y hi
  /\ MeshElement.z lo <= MeshElement.z p <= MeshElement.z hi.

(** The weighted sum [getObservable] accumulates for one coordinate. *)
Definition weighted3 (V s0 s1 s2 f0 f1 f2 : Q) : Q :=
  0 + s0 * f0 / V + s1 * f1 / V + s2 * f2 / V.
Definition weighted4 (V s0 s1 s2 s3 f0 f1 f2 f3 : Q) : Q :=
  0 + s0 * f0 / V + s1 * f1 / V + s2 * f2 / V + s3 * f3 / V.

(** ** Notions for the field converter *)

(** The options that take a value. *)
Definition value_options : list string :=
  ["-v"; "--from"; "--to"; "--input"; "--output"]%string.

(** Command lines made of known options only, each option that takes a
    value followed by one. *)
Inductive recognised : list string -> Prop :=
| recognised_nil : recognised []
| recognised_help rest : recognised rest -> recognised ("-h"%string :: rest)
| recognised_scalar rest : recognised rest -> recognised ("--scalar"%string :: rest)
| recognised_value option value rest :
    In option value_options -> recognised rest ->
    recognised (option :: value :: rest).

(** [option] stands where an option is read, not as the value of another. *)
Definition given (option : string) (args : list string) : Prop :=
  exists before rest, recognised before /\ args = before ++ option :: rest.

(** ** A concrete detector, for the examples *)

Module Fixture.

(** The random engine: the samples still to be drawn, in units of the
    distribution's width; an exhausted engine draws zeros. *)
Definition RNG := list Q.

Definition draw (rng : RNG) : Q * RNG :=
  match rng with
  | [] => (0, [])
  | u :: rest => (u, rest)
  end.

Definition dist : Distributions RNG :=
  {| NormalDist := Q * Q;
     normal_distribution := fun mean stddev => (mean, stddev);
     normal_draw := fun d rng =>
       let (u, rng) := draw rng in (fst d + snd d * u, d, rng);
     uniform_draw := fun a b rng =>
       let (u, rng) := draw rng in (a + (b - a) * u, rng) |}.

(** Rational stand-ins for the numeric library: the integer square root
    (exact on squares), [1 / (1 - x)] for [exp x] (an upper bound of the
    exponential for [x <= 0], exact at 0), and a power that ignores its
    exponent. *)
Definition libm : Libm :=
  {| sqrt := fun q => (Z.sqrt (Qnum q * Z.pos (Qden q)) # Qden q);
     exp := fun x => 1 / (1 - x);
     pow := fun x _ => x |}.

(** A one-stage tableau (forward Euler) with a constant error estimate. *)
Definition euler (err : Vector3d) : RK.Tableau :=
  fun f t h y => {| RK.value := (h * f t y)%vec; RK.error := err |}.

(** A slab of thickness [size_z] around [z = 0], unbounded in x and y, with
    a uniform electric field along z. *)
Definition slab (size_z Ez : Q) : Detector :=
  {| getElectricField := fun _ => Vec 0 0 Ez;
     getMagneticField := fun _ => V.zero;
     getDopingConcentration := fun _ => 0;
     getGlobalPosition := fun p => p;
     isWithinSensor := fun p => Qle_bool (Qabs (vz p)) (size_z / 2);
     getSensorIntercept := fun p1 p2 =>
       let face := if Qle_bool 0 (vz p2) then size_z / 2 else - (size_z / 2) in
       let s := (face - vz p1) / (vz p2 - vz p1) in
       Vec (vx p1 + s * (vx p2 - vx p1)) (vy p1 + s * (vy p2 - vy p1)) face;
     getSensorSize := Vec 1 1 size_z |}.

(** Counters of 32 bits, of 64 bits for the time. *)
Definition counter_bits : CounterBits :=
  {| total_deposits_bits := 32;
     deposits_exceeding_max_groups_bits := 32;
     total_propagated_charges_bits := 32;
     total_steps_bits := 32;
     total_time_picoseconds_bits := 64 |}.

(** A module on a slab of thickness 10 with unit mobility and no thermal
    diffusion; the remaining members are the arguments. *)
Definition module (timestep_min timestep_max timestep_start integration_time : Q)
    (charge_per_step max_charge_groups : Z) (linegraphs : bool) (Ez : Q)
    (recombination : Recombination.Model) (trapping : TrappingModel)
    (detrapping : DetrappingModel) : GenericPropagationModule :=
  {| timestep_min_ := timestep_min;
     timestep_max_ := timestep_max;
     timestep_start_ := timestep_start;
     integration_time_ := integration_time;
     target_spatial_precision_ := 1 # 4;
     charge_per_step_ := charge_per_step;
     max_charge_groups_ := max_charge_groups;
     propagate_electrons_ := true;
     propagate_holes_ := false;
     output_linegraphs_ := linegraphs;
     boltzmann_kT_ := 0;
     electron_Hall_ := 115 # 100;
     hole_Hall_ := 9 # 10;
     has_magnetic_field_ := false;
     detector_ := slab 10 Ez;
     mobility_ := fun _ _ _ => 1;
     recombination_ := recombination;
     trapping_ := trapping;
     detrapping_ := detrapping;
     multiplication_ := NoImpactIonization;
     counter_bits_ := counter_bits |}.

(** The module with the magnetic-field branch switched on, and the module
    with a multiplication model of a constant factor per step. *)
Definition magnetic (self : GenericPropagationModule) : GenericPropagationModule :=
  {| timestep_min_ := timestep_min_ self;
     timestep_max_ := timestep_max_ self;
     timestep_start_ := timestep_start_ self;
     integration_time_ := integration_time_ self;
     target_spatial_precision_ := target_spatial_precision_ self;
     charge_per_step_ := charge_per_step_ self;
     max_charge_groups_ := max_charge_groups_ self;
     propagate_electrons_ := propagate_electrons_ self;
     propagate_holes_ := propagate_holes_ self;
     output_linegraphs_ := output_linegraphs_ self;
     boltzmann_kT_ := boltzmann_kT_ self;
     electron_Hall_ := electron_Hall_ self;
     hole_Hall_ := hole_Hall_ self;
     has_magnetic_field_ := true;
     detector_ := detector_ self;
     mobility_ := mobility_ self;
     recombination_ := recombination_ self;
     trapping_ := trapping_ self;
     detrapping_ := detrapping_ self;
     multiplication_ := multiplication_ self;
     counter_bits_ := counter_bits_ self |}.

Definition multiplying (factor : Q) (self : GenericPropagationModule)
  : GenericPropagationModule :=
  {| timestep_min_ := timestep_min_ self;
     timestep_max_ := timestep_max_ self;
     timestep_start_ := timestep_start_ self;
     integration_time_ := integration_time_ self;
     target_spatial_precision_ := target_spatial_precision_ self;
     charge_per_step_ := charge_per_step_ self;
     max_charge_groups_ := max_charge_groups_ self;
     propagate_electrons_ := propagate_electrons_ self;
     propagate_holes_ := propagate_holes_ self;
     output_linegraphs_ := output_linegraphs_ self;
     boltzmann_kT_ := boltzmann_kT_ self;
     electron_Hall_ := electron_Hall_ self;
     hole_Hall_ := hole_Hall_ self;
     has_magnetic_field_ := has_magnetic_field_ self;
     detector_ := detector_ self;
     mobility_ := mobility_ self;
     recombination_ := recombination_ self;
     trapping_ := trapping_ self;
     detrapping_ := detrapping_ self;
     multiplication_ := fun _ _ _ => factor;
     counter_bits_ := counter_bits_ self |}.

(** All of recombination, trapping and multiplication set to "none". *)
Definition plain (timestep_min timestep_max timestep_start integration_time : Q)
    (charge_per_step max_charge_groups : Z) (linegraphs : bool) (Ez : Q)
  : GenericPropagationModule :=
  module timestep_min timestep_max timestep_start integration_time
         charge_per_step max_charge_groups linegraphs Ez
         Recombination.None_ NoTrapping (fun _ _ _ => 0).

Definition electrons (charge : Z) (z local_time : Q) : DepositedCharge :=
  {| getLocalPosition := Vec 0 0 z; getType := ELECTRON; getCharge := charge;
     getLocalTime := local_time; getGlobalTime := local_time |}.

Definition no_statistics : Statistics :=
  {| total_deposits_ := 0; deposits_exceeding_max_groups_ := 0;
     total_propagated_charges_ := 0; total_steps_ := 0;
     total_time_picoseconds_ := 0 |}.

(** Counters one below the largest value of their types. *)
Definition full_statistics : Statistics :=
  {| total_deposits_ := 2 ^ 32 - 1; deposits_exceeding_max_groups_ := 2 ^ 32 - 1;
     total_propagated_charges_ := 2 ^ 32 - 1; total_steps_ := 2 ^ 32 - 1;
     total_time_picoseconds_ := 2 ^ 64 - 1 |}.

(** A detector assembly. *)

(** A support layer two units wide with the given thickness. *)
Definition layer (thickness : Q) (location : string) : DetectorModel.SupportLayer :=
  {| DetectorModel.center_ := V.zero;
     DetectorModel.size_ := Vec 2 2 thickness;
     DetectorModel.offset_ := V.zero;
     DetectorModel.location_ := location |}.

(** A sensor of thickness 2 around the origin under a chip of thickness 1,
    with two layers below the sensor and one above the chip. *)
Definition stack (chip : DetectorModel.Chip) : DetectorModel.t :=
  {| DetectorModel.getSensorCenter := V.zero;
     DetectorModel.getChipCenter := Vec 0 0 (3 # 2);
     DetectorModel.getMatrixCenter := V.zero;
     DetectorModel.getSensorSize := Vec 1 1 2;
     DetectorModel.getChipSize := Vec 1 1 1;
     DetectorModel.chip_ := chip;
     DetectorModel.support_layers_ :=
       [layer 1 "sensor"; layer 2 "sensor"; layer 3 "chip"] |}.

Definition limits : DetectorModel.NumericLimits :=
  {| DetectorModel.limits_lowest := - inject_Z (2 ^ 1024);
     DetectorModel.limits_max := inject_Z (2 ^ 1024) |}.

(** Mesh elements. *)

Definition point (x y z : Q) : MeshElement.Point :=
  {| MeshElement.x := x; MeshElement.y := y; MeshElement.z := z |}.

(** The unit tetrahedron and the unit triangle of the y-z plane. *)
Definition tetrahedron : list MeshElement.Point :=
  [point 0 0 0; point 1 0 0; point 0 1 0; point 0 0 1].
Definition triangle : list MeshElement.Point :=
  [point 0 0 0; point 0 1 0; point 0 0 1].

(** The element the constructor builds from vertices and field values. *)
Definition element (dimension : nat) (vertices e_field : list MeshElement.Point)
  : MeshElement.t :=
  match MeshElement.make dimension vertices e_field with
  | Ok e => e
  | _ => {| MeshElement.dimension_ := dimension;
            MeshElement.vertices_ := vertices;
            MeshElement.e_field_ := e_field;
            MeshElement.volume_ := 0 |}
  end.

(** A field growing along all three axes, and one that is constant
    along x. *)
Definition ramp : AffineField :=
  {| gradient_x := point 1 2 3; at_origin_x := 4;
     gradient_y := point 0 0 0; at_origin_y := 1;
     gradient_z := point (-1) 0 1; at_origin_z := 0 |}.
Definition planar_ramp : AffineField :=
  {| gradient_x := point 0 2 3; at_origin_x := 4;
     gradient_y := point 0 0 0; at_origin_y := 1;
     gradient_z := point 0 (-1) 1; at_origin_z := 0 |}.

End Fixture.

(** * Properties *)

(** ** Comparisons and integer conversions *)

Lemma Qltb_true (a b : Q) : Qltb a b = true <-> a < b.
Proof.
  unfold Qltb. rewrite negb_true_iff. split; intro H.
  - apply Qnot_le_lt. intro L. apply Qle_bool_iff in L. congruence.
  - destruct (Qle_bool b a) eqn:E; [|reflexivity].
    apply Qle_bool_iff in E. exfalso. apply (Qlt_not_le a b); assumption.
Qed.

Lemma Qltb_false (a b : Q) : Qltb a b = false <-> b <= a.
Proof.
  unfold Qltb. rewrite negb_false_iff. apply Qle_bool_iff.
Qed.

Lemma Qle_bool_false (a b : Q) : Qle_bool a b = false <-> b < a.
Proof.
  rewrite <- Qltb_true. unfold Qltb. rewrite negb_true_iff. tauto.
Qed.

Lemma to_uint_small (z : Z) : (0 <= z < 2 ^ 32)%Z -> to_uint z = z.
Proof. intro H. unfold to_uint. apply Z.mod_small. exact H. Qed.


(** ** The velocity evaluators *)

Lemma eqv_refl (a : Vector3d) : (a == a)%vec.
Proof. repeat split; reflexivity. Qed.

(** With a vanishing magnetic field the Hall terms drop out: both
    evaluators agree wherever the mobility does not vanish identically. *)
Lemma carrier_velocity_withB_zero_field libm self type t cur_pos :
  getMagneticField (detector_ self) cur_pos = V.zero ->
  (carrier_velocity_withB libm self type t cur_pos
   == carrier_velocity_noB libm self type t cur_pos)%vec.
Proof.
  intro HB. unfold carrier_velocity_withB, carrier_velocity_noB.
  rewrite HB. unfold V.eqv, V.div, V.scale, V.add, V.cross, V.dot, V.zero.
  simpl. repeat split; field.
Qed.

(** C6. Without a magnetic field the velocity evaluator returns
    sign(type) . mobility(type, |E|, doping) . E, with E the electric field
    at the position; the evaluator for a magnetic field computes the formula
    of the specification, the carrier sign being a factor of [term1] and
    once more of the outer expression (so that the coefficient of E x B in
    the velocity carries the square of the sign). *)
Theorem C6_velocity_evaluators :
  forall (libm : Libm) (self : GenericPropagationModule) (type : CarrierType)
         (t : Q) (cur_pos : Vector3d),
    let E := getElectricField (detector_ self) cur_pos in
    let B := getMagneticField (detector_ self) cur_pos in
    let sign := static_cast_int type in
    let mob := mobility_ self type (V.norm libm E)
                 (getDopingConcentration (detector_ self) cur_pos) in
    let hall := match type with
                | ELECTRON => electron_Hall_ self
                | HOLE => hole_Hall_ self
                end in
    let rnorm := 1 + mob * mob * hall * hall * V.dot B B in
    carrier_velocity libm self type
      = (if has_magnetic_field_ self then carrier_velocity_withB libm self type
         else carrier_velocity_noB libm self type)
    /\ carrier_velocity_noB libm self type t cur_pos = ((sign * mob) * E)%vec
    /\ (carrier_velocity_noB libm self type t cur_pos
        == Spec.velocity sign mob E)%vec
    /\ (carrier_velocity_withB libm self type t cur_pos
        == Spec.velocity_withB sign mob hall E B)%vec
    /\ (carrier_velocity_withB libm self type t cur_pos
        == ((sign * mob / rnorm) * E
            + (sign * sign * mob * mob * hall / rnorm) * V.cross E B
            + (sign * mob * mob * mob * hall * hall * V.dot E B / rnorm) * B))%vec.
Proof.
  intros. split; [reflexivity|]. split; [reflexivity|].
  unfold carrier_velocity_noB, carrier_velocity_withB, Spec.velocity,
    Spec.velocity_withB.
  fold E B. fold mob.
  replace (if CarrierType_eqb type ELECTRON then electron_Hall_ self
           else hole_Hall_ self) with hall by (destruct type; reflexivity).
  fold sign. fold rnorm.
  assert (Hr : 1 + mob * mob * (hall * hall) * V.dot B B == rnorm)
    by (unfold rnorm; ring).
  unfold V.eqv, V.div, V.scale, V.add, V.cross; simpl.
  rewrite !Hr. unfold Qdiv.
  repeat split; ring.
Qed.

(** ** One iteration of the stepping loop *)

Section Step.

Context {RNG : Type}.
Variable libm : Libm.
Variable dist : Distributions RNG.
Variable RK5 : RK.Tableau.
Variable self : GenericPropagationModule.
Variable type : CarrierType.
Variable initial_time : Q.

Local Abbreviation body := (loop_body libm dist RK5 self type initial_time) (only parsing).
Local Abbreviation locals_of := (locals libm dist RK5 self type) (only parsing).
Local Abbreviation trapped_in := (stays_trapped libm dist RK5 self type initial_time) (only parsing).

Ltac open_body :=
  unfold loop_body, locals, stays_trapped, locals, check_trapping, RK.step,
    RK.getTime, RK.getTimeStep, RK.getValue, RK.setValue, RK.setTimeStep,
    RK.advanceTime;
  cbn;
  repeat match goal with
         | |- context [match ?e with _ => _ end] =>
             lazymatch e with
             | context [match _ with _ => _ end] => fail
             | _ => destruct e eqn:?; cbn
             end
         end.

Lemma body_position (s : LoopState RNG) :
  position (body s) = l_position (locals_of s).
Proof. open_body; reflexivity. Qed.


(** The three tests of a step are made one after the other, each
    overwriting the outcome of the one before. *)
Lemma body_state (s : LoopState RNG) :
  state (body s) =
    if trapped_in s then TRAPPED
    else if l_recombination (locals_of s) then RECOMBINED
         else if negb (isWithinSensor (detector_ self) (l_position (locals_of s)))
              then HALTED
              else state s.
Proof. open_body; try reflexivity; try congruence. Qed.

Lemma body_time (s : LoopState RNG) :
  RK.getTime (runge_kutta (body s)) =
    if l_trapping (locals_of s) && negb (trapped_in s)
    then RK.getTime (runge_kutta s) + RK.getTimeStep (runge_kutta s)
         + l_detrap_time (locals_of s)
    else RK.getTime (runge_kutta s) + RK.getTimeStep (runge_kutta s).
Proof. open_body; try reflexivity; try congruence. Qed.

Lemma body_timestep (s : LoopState RNG) :
  RK.getTimeStep (runge_kutta (body s)) =
    limit_timestep self
      (adapt_timestep libm self (l_position (locals_of s)) (l_step (locals_of s))
         (RK.getTimeStep (runge_kutta s))).
Proof. open_body; reflexivity. Qed.

Lemma body_gain (s : LoopState RNG) :
  gain (body s) =
    gain s * multiplication_ self type
               ((V.norm libm (l_efield (locals_of s)) + V.norm libm (efield s)) / 2)
               (V.norm libm (RK.value (l_step (locals_of s)))).
Proof. open_body; reflexivity. Qed.

End Step.

(** ** The step size *)

Section StepSize.

Variable self : GenericPropagationModule.

Lemma limit_timestep_bounds (t : Q) :
  timestep_min_ self <= timestep_max_ self ->
  timestep_min_ self <= limit_timestep self t <= timestep_max_ self.
Proof.
  intro Hmm. unfold limit_timestep.
  destruct (Qltb (timestep_max_ self) t) eqn:E1.
  - split; [exact Hmm | apply Qle_refl].
  - apply Qltb_false in E1.
    destruct (Qltb t (timestep_min_ self)) eqn:E2.
    + split; [apply Qle_refl | exact Hmm].
    + apply Qltb_false in E2. split; assumption.
Qed.

(** Whatever the order of the two bounds, the limited step size is not
    below the smaller of them. *)
Lemma limit_timestep_lower (d t : Q) :
  d <= timestep_min_ self -> d <= timestep_max_ self ->
  d <= limit_timestep self t.
Proof.
  intros Hmin Hmax. unfold limit_timestep.
  destruct (Qltb (timestep_max_ self) t) eqn:E1; [exact Hmax|].
  destruct (Qltb t (timestep_min_ self)) eqn:E2; [exact Hmin|].
  apply Qltb_false in E2. lra.
Qed.

Lemma limit_timestep_clamp (t : Q) :
  timestep_min_ self <= timestep_max_ self ->
  limit_timestep self t == Spec.clamp (timestep_min_ self) (timestep_max_ self) t.
Proof.
  intro Hmm. unfold limit_timestep, Spec.clamp.
  destruct (Q.min_spec (timestep_max_ self) t) as [[L Hm]|[L Hm]];
    destruct (Q.max_spec (timestep_min_ self) (Qmin (timestep_max_ self) t))
      as [[L' HM]|[L' HM]];
    rewrite HM; rewrite ?Hm in *;
    destruct (Qltb (timestep_max_ self) t) eqn:E1;
    try (apply Qltb_true in E1); try (apply Qltb_false in E1);
    destruct (Qltb t (timestep_min_ self)) eqn:E2;
    try (apply Qltb_true in E2); try (apply Qltb_false in E2);
    lra.
Qed.

End StepSize.

(** C7, as stated, fails on the first step: with a start value of 1 above the
    maximum of 1/2 the loop is entered, its first step is taken with step
    size 1, and the elapsed time after it is 1. *)
Lemma C7_first_step_uses_timestep_start :
  let self := Fixture.plain (1 # 1000) (1 # 2) 1 25 10 1000 false 0 in
  let s := loop_entry self (Vec 0 0 0) ([] : Fixture.RNG) in
  head_of_step Fixture.libm Fixture.dist (Fixture.euler V.zero) self ELECTRON 0
               (Vec 0 0 0) [] s
  /\ RK.getTimeStep (runge_kutta s) = 1
  /\ ~ (timestep_min_ self <= RK.getTimeStep (runge_kutta s) <= timestep_max_ self)
  /\ RK.getTime (runge_kutta
       (loop_body Fixture.libm Fixture.dist (Fixture.euler V.zero) self ELECTRON 0 s))
     == 1.
Proof.
  cbv zeta. split; [constructor; reflexivity|].
  split; [reflexivity|]. split.
  - cbn. intros [_ H]. revert H. apply Qlt_not_le. reflexivity.
  - vm_compute. reflexivity.
Qed.

(** C7 (amended). When timestep_min <= timestep_max, every step of the loop
    but the first starts with a step size within [timestep_min,
    timestep_max]; the first step starts with timestep_start as configured,
    so that all steps start within the bounds when timestep_start lies
    within them too. *)
Theorem C7_step_size_within_bounds :
  forall (RNG : Type) (libm : Libm) (dist : Distributions RNG) (RK5 : RK.Tableau)
         (self : GenericPropagationModule) (type : CarrierType)
         (initial_time : Q) (pos : Vector3d) (rng : RNG) (s : LoopState RNG),
    timestep_min_ self <= timestep_max_ self ->
    head_of_step libm dist RK5 self type initial_time pos rng s ->
    let h := RK.getTimeStep (runge_kutta s) in
    (s = loop_entry self pos rng /\ h = timestep_start_ self
     \/ timestep_min_ self <= h <= timestep_max_ self)
    /\ (timestep_min_ self <= timestep_start_ self <= timestep_max_ self ->
        timestep_min_ self <= h <= timestep_max_ self).
Proof.
  intros RNG libm dist RK5 self type initial_time pos rng s Hmm Hs h.
  assert (Hcases : s = loop_entry self pos rng /\ h = timestep_start_ self
                   \/ timestep_min_ self <= h <= timestep_max_ self).
  { destruct Hs as [_|s0 _ _].
    - left. split; reflexivity.
    - right. unfold h. rewrite body_timestep.
      apply limit_timestep_bounds. exact Hmm. }
  split; [exact Hcases|].
  intro Hstart. destruct Hcases as [[_ ->]|H]; assumption.
Qed.

Lemma C7_step_size_within_bounds_witness :
  let self := Fixture.plain (1 # 1000) (1 # 2) (1 # 100) 25 10 1000 false 0 in
  let s := loop_body Fixture.libm Fixture.dist (Fixture.euler V.zero) self
             ELECTRON 0 (loop_entry self (Vec 0 0 0) ([] : Fixture.RNG)) in
  timestep_min_ self <= RK.getTimeStep (runge_kutta s) <= timestep_max_ self.
Proof.
  cbv zeta.
  refine (let self := Fixture.plain (1 # 1000) (1 # 2) (1 # 100) 25 10 1000 false 0 in _).
  refine (proj2 (C7_step_size_within_bounds Fixture.RNG Fixture.libm Fixture.dist
            (Fixture.euler V.zero) self ELECTRON 0 (Vec 0 0 0) [] _ _ _) _).
  - vm_compute. discriminate.
  - apply next_step; [apply first_step|]; vm_compute; reflexivity.
  - split; vm_compute; discriminate.
Defined.

(** C8, as stated, fails near the face [z = -size_z/2]: an electron in a
    field along +z drifts towards -z; the step from z = -39/10 of length 1
    ends at z = -49/10, a tenth away from the lower face of a sensor of
    thickness 10, with an error estimate of zero.  The wording asks for a
    shrunk step (3/4); the code, which measures the distance to the upper
    face against twice the signed z component of the step, enlarges it
    (3/2). *)
Lemma C8_lower_face_not_seen :
  let self := Fixture.plain (1 # 1000) 2 1 25 10 1000 false 1 in
  let s := loop_entry self (Vec 0 0 (-39 # 10)) ([] : Fixture.RNG) in
  let l := locals Fixture.libm Fixture.dist (Fixture.euler V.zero) self ELECTRON s in
  let s' := loop_body Fixture.libm Fixture.dist (Fixture.euler V.zero) self
              ELECTRON 0 s in
  in_motion self 0 s = true
  /\ (position s' == Vec 0 0 (-49 # 10))%vec
  /\ (RK.value (l_step l) == Vec 0 0 (-1))%vec
  /\ V.norm Fixture.libm (RK.value (l_step l)) == 1
  /\ V.norm Fixture.libm (RK.error (l_step l)) == 0
  /\ RK.getTimeStep (runge_kutta s') == 3 # 2
  /\ Spec.adapt (vz (getSensorSize (detector_ self))) (vz (position s'))
       (V.norm Fixture.libm (RK.value (l_step l)))
       (V.norm Fixture.libm (RK.error (l_step l)))
       (target_spatial_precision_ self) (timestep_min_ self) (timestep_max_ self)
       (RK.getTimeStep (runge_kutta s))
     == 3 # 4
  /\ ~ 3 # 2 == 3 # 4.
Proof.
  cbv zeta. unfold V.eqv.
  repeat split; try (vm_compute; reflexivity).
  vm_compute. discriminate.
Qed.

(** C8 (amended). After every step the step size is multiplied by 0.75 if
    the distance along z of the new position to the upper face,
    |size_z/2 - z|, is below twice the z component of the step, or if the
    norm of the step's error exceeds the target spatial precision; else by
    1.5 if twice that norm is below the target precision; else it is kept.
    The result is limited to timestep_max from above, else to timestep_min
    from below, which clamps it into [timestep_min, timestep_max] when
    timestep_min <= timestep_max. *)
Theorem C8_step_size_update :
  forall (RNG : Type) (libm : Libm) (dist : Distributions RNG) (RK5 : RK.Tableau)
         (self : GenericPropagationModule) (type : CarrierType)
         (initial_time : Q) (s : LoopState RNG),
    let l := locals libm dist RK5 self type s in
    let h := RK.getTimeStep (runge_kutta s) in
    let near_upper_face :=
      Qltb (Qabs (vz (getSensorSize (detector_ self)) / 2 - vz (l_position l)))
           (2 * vz (RK.value (l_step l))) in
    let uncertainty := V.norm libm (RK.error (l_step l)) in
    let factor :=
      if near_upper_face || Qltb (target_spatial_precision_ self) uncertainty
      then 3 # 4
      else if Qltb (2 * uncertainty) (target_spatial_precision_ self) then 3 # 2
           else 1 in
    let s' := loop_body libm dist RK5 self type initial_time s in
    let h' := RK.getTimeStep (runge_kutta s') in
    l_position l = position s'
    /\ h' == (if Qltb (timestep_max_ self) (h * factor) then timestep_max_ self
              else if Qltb (h * factor) (timestep_min_ self) then timestep_min_ self
                   else h * factor)
    /\ (timestep_min_ self <= timestep_max_ self ->
        h' == Spec.clamp (timestep_min_ self) (timestep_max_ self) (h * factor)).
Proof.
  intros RNG libm dist RK5 self type initial_time s l h near unc factor s' h'.
  assert (Hadapt : adapt_timestep libm self (l_position l) (l_step l) h == h * factor).
  { unfold adapt_timestep, factor. fold near. fold unc.
    destruct near; simpl; [reflexivity|].
    destruct (Qltb (target_spatial_precision_ self) unc); [reflexivity|].
    destruct (Qltb (2 * unc) (target_spatial_precision_ self)); [reflexivity|].
    ring. }
  assert (Hh' : h' = limit_timestep self
                       (adapt_timestep libm self (l_position l) (l_step l) h))
    by apply body_timestep.
  split; [symmetry; apply body_position|].
  split.
  - rewrite Hh'. unfold limit_timestep at 1.
    assert (E1 : Qltb (timestep_max_ self)
                   (adapt_timestep libm self (l_position l) (l_step l) h)
                 = Qltb (timestep_max_ self) (h * factor)).
    { unfold Qltb. rewrite Hadapt. reflexivity. }
    assert (E2 : Qltb (adapt_timestep libm self (l_position l) (l_step l) h)
                   (timestep_min_ self)
                 = Qltb (h * factor) (timestep_min_ self)).
    { unfold Qltb. rewrite Hadapt. reflexivity. }
    rewrite E1, E2.
    destruct (Qltb (timestep_max_ self) (h * factor)); [reflexivity|].
    destruct (Qltb (h * factor) (timestep_min_ self)); [reflexivity|].
    exact Hadapt.
  - intro Hmm. rewrite Hh'. rewrite limit_timestep_clamp by exact Hmm.
    unfold Spec.clamp. rewrite Hadapt. reflexivity.
Qed.

Lemma C8_step_size_update_witness :
  let self := Fixture.plain (1 # 1000) 2 1 25 10 1000 false 1 in
  let s := loop_entry self (Vec 0 0 (-39 # 10)) ([] : Fixture.RNG) in
  RK.getTimeStep
    (runge_kutta (loop_body Fixture.libm Fixture.dist (Fixture.euler V.zero) self
                    ELECTRON 0 s))
  == Spec.clamp (timestep_min_ self) (timestep_max_ self)
       (RK.getTimeStep (runge_kutta s) * (3 # 2)).
Proof.
  cbv zeta.
  refine (proj2 (proj2 (C8_step_size_update Fixture.RNG Fixture.libm Fixture.dist
            (Fixture.euler V.zero) (Fixture.plain (1 # 1000) 2 1 25 10 1000 false 1)
            ELECTRON 0
            (loop_entry (Fixture.plain (1 # 1000) 2 1 25 10 1000 false 1)
               (Vec 0 0 (-39 # 10)) []))) _).
  vm_compute. discriminate.
Defined.

(** ** The stepping loop *)

Lemma smallest_step_pos self : advances self -> 0 < smallest_step self.
Proof.
  intros ((H1 & H2 & H3) & _). unfold smallest_step.
  destruct (Q.min_spec (timestep_min_ self) (timestep_max_ self)) as [[_ E]|[_ E]];
    destruct (Q.min_spec (timestep_start_ self)
                (Qmin (timestep_min_ self) (timestep_max_ self))) as [[_ E']|[_ E']];
    rewrite E'; rewrite ?E; assumption.
Qed.

Lemma smallest_step_le self :
  smallest_step self <= timestep_start_ self
  /\ smallest_step self <= timestep_min_ self
  /\ smallest_step self <= timestep_max_ self.
Proof.
  unfold smallest_step.
  pose proof (Q.le_min_l (timestep_start_ self)
                (Qmin (timestep_min_ self) (timestep_max_ self))).
  pose proof (Q.le_min_r (timestep_start_ self)
                (Qmin (timestep_min_ self) (timestep_max_ self))).
  pose proof (Q.le_min_l (timestep_min_ self) (timestep_max_ self)).
  pose proof (Q.le_min_r (timestep_min_ self) (timestep_max_ self)).
  repeat split; lra.
Qed.

Lemma enough_fuel_spec self initial_time (fuel : nat) :
  advances self -> (enough_fuel self initial_time <= fuel)%nat ->
  integration_time_ self - initial_time
  <= inject_Z (Z.of_nat fuel) * smallest_step self.
Proof.
  intros Hadv Hfuel. pose proof (smallest_step_pos self Hadv) as Hd.
  set (d := smallest_step self) in *.
  set (x := (integration_time_ self - initial_time) / d).
  assert (Hx : x <= inject_Z (Z.of_nat fuel)).
  { apply Qle_trans with (inject_Z (Qceiling x)); [apply Qle_ceiling|].
    rewrite <- Zle_Qle. unfold enough_fuel in Hfuel. fold d in Hfuel. fold x in Hfuel.
    lia. }
  assert (E : integration_time_ self - initial_time == x * d).
  { unfold x. field. intro Z0. rewrite Z0 in Hd. revert Hd. apply Qlt_irrefl. }
  rewrite E. apply Qmult_le_compat_r; [exact Hx | apply Qlt_le_weak; exact Hd].
Qed.

Section Loop.

Context {RNG : Type}.
Variable libm : Libm.
Variable dist : Distributions RNG.
Variable RK5 : RK.Tableau.
Variable self : GenericPropagationModule.
Variable type : CarrierType.
Variable initial_time : Q.

Local Abbreviation body := (loop_body libm dist RK5 self type initial_time) (only parsing).
Local Abbreviation locals_of := (locals libm dist RK5 self type) (only parsing).
Local Abbreviation run_loop := (loop libm dist RK5 self) (only parsing).

Lemma loop_unfold (fuel : nat) (s : LoopState RNG) :
  run_loop fuel type initial_time s =
    if in_motion self initial_time s then
      match fuel with
      | O => Diverges
      | S fuel => run_loop fuel type initial_time (body s)
      end
    else Ok s.
Proof. destruct fuel; reflexivity. Qed.

(** A property kept by every iteration holds when the loop is left, and
    the loop condition is false then. *)
Lemma loop_invariant (P : LoopState RNG -> Prop) :
  (forall s, P s -> in_motion self initial_time s = true -> P (body s)) ->
  forall fuel s s',
    P s -> run_loop fuel type initial_time s = Ok s' ->
    P s' /\ in_motion self initial_time s' = false.
Proof.
  intros Hstep. induction fuel as [|fuel IH]; intros s s' HP Hrun;
    rewrite loop_unfold in Hrun;
    destruct (in_motion self initial_time s) eqn:Hm.
  - discriminate.
  - injection Hrun as <-. split; assumption.
  - apply (IH (body s)); [apply Hstep; assumption | exact Hrun].
  - injection Hrun as <-. split; assumption.
Qed.

Lemma body_time_advances (s : LoopState RNG) :
  advances self ->
  RK.getTime (runge_kutta s) + RK.getTimeStep (runge_kutta s)
  <= RK.getTime (runge_kutta (body s)).
Proof.
  intros (_ & Hdetrap). rewrite body_time.
  destruct (l_trapping (locals_of s)) eqn:Ht; [|apply Qle_refl].
  destruct (negb (stays_trapped libm dist RK5 self type initial_time s));
    [|apply Qle_refl].
  cbn [andb].
  assert (0 <= l_detrap_time (locals_of s)); [|lra].
  revert Ht. unfold locals, RK.step. cbn.
  repeat match goal with
         | |- context [match ?e with _ => _ end] =>
             lazymatch e with
             | context [match _ with _ => _ end] => fail
             | _ => destruct e eqn:?; cbn
             end
         end.
  intro Ht. eapply Hdetrap. exact Ht.
Qed.

(** With enough fuel the loop is left. *)
Lemma loop_terminates :
  advances self ->
  forall (fuel : nat) (s : LoopState RNG),
    smallest_step self <= RK.getTimeStep (runge_kutta s) ->
    integration_time_ self - (initial_time + RK.getTime (runge_kutta s))
    <= inject_Z (Z.of_nat fuel) * smallest_step self ->
    exists s', run_loop fuel type initial_time s = Ok s'.
Proof.
  intros Hadv. pose proof (smallest_step_le self) as (_ & Hdmin & Hdmax).
  induction fuel as [|fuel IH]; intros s Hh Hleft; rewrite loop_unfold;
    destruct (in_motion self initial_time s) eqn:Hm; try (eexists; reflexivity).
  - exfalso. unfold in_motion in Hm. apply andb_true_iff in Hm as [_ Hm].
    apply Qltb_true in Hm. change (inject_Z (Z.of_nat 0)) with 0 in Hleft. lra.
  - apply IH.
    + rewrite body_timestep. apply limit_timestep_lower; assumption.
    + pose proof (body_time_advances s Hadv) as Ht.
      rewrite Nat2Z.inj_succ in Hleft. unfold Z.succ in Hleft.
      rewrite inject_Z_plus in Hleft. change (inject_Z 1) with 1 in Hleft.
      lra.
Qed.

End Loop.

Section PropagateTotal.

Context {RNG : Type}.
Variable libm : Libm.
Variable dist : Distributions RNG.
Variable RK5 : RK.Tableau.
Variable self : GenericPropagationModule.

(** Under [advances], [propagate] returns once it has the fuel for the
    carrier's time of deposition. *)
Lemma propagate_returns (pos : Vector3d) (type : CarrierType) (initial_time : Q)
    (rng : RNG) (plot : OutputPlotPoints) (charge : Z) (fuel : nat) :
  advances self -> (enough_fuel self initial_time <= fuel)%nat ->
  exists s,
    loop libm dist RK5 self fuel type initial_time (loop_entry self pos rng) = Ok s
    /\ propagate libm dist RK5 self fuel pos type initial_time rng plot charge
       = Ok (loop_exit self s plot).
Proof.
  intros Hadv Hfuel.
  destruct (loop_terminates libm dist RK5 self type initial_time Hadv fuel
              (loop_entry self pos rng)) as [s Hs].
  - apply smallest_step_le.
  - cbn. pose proof (enough_fuel_spec self initial_time fuel Hadv Hfuel). lra.
  - exists s. split; [exact Hs|]. unfold propagate. rewrite Hs. reflexivity.
Qed.

Lemma propagate_inv (pos : Vector3d) (type : CarrierType) (initial_time : Q)
    (rng : RNG) (plot : OutputPlotPoints) (charge : Z) (fuel : nat)
    (p : Propagated RNG) :
  propagate libm dist RK5 self fuel pos type initial_time rng plot charge = Ok p ->
  exists s,
    loop libm dist RK5 self fuel type initial_time (loop_entry self pos rng) = Ok s
    /\ p = loop_exit self s plot.
Proof.
  unfold propagate.
  destruct (loop libm dist RK5 self fuel type initial_time (loop_entry self pos rng))
    as [s| |]; cbn; try discriminate.
  intro H. injection H as <-. exists s. split; reflexivity.
Qed.

End PropagateTotal.

(** ** Propagation without recombination, trapping and multiplication *)


Section NoModels.

Context {RNG : Type}.
Variable libm : Libm.
Variable dist : Distributions RNG.
Variable RK5 : RK.Tableau.
Variable self : GenericPropagationModule.
Variable type : CarrierType.
Variable initial_time : Q.

Hypothesis no_recombination : recombination_ self = Recombination.None_.
Hypothesis no_trapping : trapping_ self = NoTrapping.




End NoModels.




(** Both cases occur: an electron deposited at z = -9/2 leaves the sensor of
    thickness 10 in its first step and is halted on the lower face; one
    deposited outside the sensor when the integration time has already run
    out is returned where it was, in state MOTION, without a step. *)
Example halted_or_out_of_time :
  let self := Fixture.plain 1 1 1 2 10 1000 false 1 in
  (exists p,
     propagate Fixture.libm Fixture.dist (Fixture.euler V.zero) self 2
       (Vec 0 0 (-9 # 2)) ELECTRON 0 ([] : Fixture.RNG) [] 10 = Ok p
     /\ final_state p = HALTED
     /\ (final_position p == Vec 0 0 (-5))%vec)
  /\ (exists p,
        propagate Fixture.libm Fixture.dist (Fixture.euler V.zero) self 2
          (Vec 0 0 7) ELECTRON 2 ([] : Fixture.RNG) [] 10 = Ok p
        /\ final_state p = MOTION
        /\ final_position p = Vec 0 0 7
        /\ isWithinSensor (detector_ self) (final_position p) = false
        /\ final_time p = 0).
Proof.
  cbv zeta. split; eexists; (split; [vm_compute; reflexivity|]).
  - split; [reflexivity|]. unfold V.eqv. repeat split; vm_compute; reflexivity.
  - repeat split; reflexivity.
Qed.

(** ** The state a carrier group is returned in *)

Lemma set_back_state_app (pts : OutputPlotPoints) t c ty st0 st :
  set_back_state (pts ++ [(t, c, ty, st0)]) st = pts ++ [(t, c, ty, st)].
Proof.
  induction pts as [|p pts IH]; [reflexivity|].
  cbn [app set_back_state]. rewrite IH.
  destruct (pts ++ [(t, c, ty, st0)]) eqn:E; [|reflexivity].
  destruct pts; discriminate.
Qed.

Section States.

Context {RNG : Type}.
Variable libm : Libm.
Variable dist : Distributions RNG.
Variable RK5 : RK.Tableau.
Variable self : GenericPropagationModule.
Variable type : CarrierType.
Variable initial_time : Q.
Variable pos : Vector3d.
Variable rng : RNG.

Local Abbreviation body := (loop_body libm dist RK5 self type initial_time) (only parsing).
Local Abbreviation locals_of := (locals libm dist RK5 self type) (only parsing).
Local Abbreviation trapped_in := (stays_trapped libm dist RK5 self type initial_time) (only parsing).
Local Abbreviation within := (isWithinSensor (detector_ self)) (only parsing).
Local Abbreviation head := (head_of_step libm dist RK5 self type initial_time pos rng) (only parsing).


Lemma not_in_motion (s : LoopState RNG) :
  state s <> MOTION -> in_motion self initial_time s = false.
Proof.
  unfold in_motion. destruct (state s); cbn; congruence.
Qed.

(** [propagate] never assigns UNKNOWN to its state. *)
Lemma loop_state_known (fuel : nat) (s : LoopState RNG) :
  loop libm dist RK5 self fuel type initial_time (loop_entry self pos rng) = Ok s ->
  state s <> UNKNOWN.
Proof.
  intro Hloop.
  apply (loop_invariant libm dist RK5 self type initial_time
           (fun s => state s <> UNKNOWN) ) with (fuel := fuel)
           (s := loop_entry self pos rng) (s' := s); [| discriminate | exact Hloop].
  intros s0 H0 _. rewrite body_state.
  destruct (trapped_in s0); [discriminate|].
  destruct (l_recombination (locals_of s0)); [discriminate|].
  destruct (negb (within (l_position (locals_of s0)))); [discriminate|exact H0].
Qed.



Lemma head_in_motion (s : LoopState RNG) :
  head s -> in_motion self initial_time s = true.
Proof. intros [H|s0 _ H]; exact H. Qed.

(** The loop passes through every state in which an iteration starts. *)
Lemma loop_through (s s' : LoopState RNG) (fuel : nat) :
  head s ->
  loop libm dist RK5 self fuel type initial_time (loop_entry self pos rng) = Ok s' ->
  exists fuel',
    loop libm dist RK5 self fuel' type initial_time s = Ok s'.
Proof.
  intros Hs Hloop. induction Hs as [Hm|s0 Hs0 IH Hm].
  - exists fuel. exact Hloop.
  - destruct IH as [fuel' H'].
    rewrite loop_unfold, (head_in_motion s0 Hs0) in H'.
    destruct fuel' as [|fuel']; [discriminate|].
    exists fuel'. exact H'.
Qed.

(** A step that leaves the carrier in another state than MOTION is the
    last one. *)
Lemma loop_last_step (s s' : LoopState RNG) (fuel : nat) :
  in_motion self initial_time s = true ->
  state (body s) <> MOTION ->
  loop libm dist RK5 self fuel type initial_time s = Ok s' ->
  s' = body s.
Proof.
  intros Hm Hstop Hloop. rewrite loop_unfold, Hm in Hloop.
  destruct fuel as [|fuel]; [discriminate|].
  rewrite loop_unfold, (not_in_motion _ Hstop) in Hloop.
  injection Hloop as <-. reflexivity.
Qed.

End States.

(** C4, as stated, fails: a group of ten electrons deposited at the centre
    is still drifting when the integration time of 2 is reached.  With
    line graphs enabled the header of its plot entry is set to UNKNOWN, but
    the state [propagate] returns, and [run] stores in the record it
    dispatches, is MOTION. *)
Lemma C4_record_in_motion :
  let self := Fixture.plain (1 # 1000) 1 1 2 10 1000 true 1 in
  let deposit := Fixture.electrons 10 0 0 in
  (exists out,
     run Fixture.libm Fixture.dist (Fixture.euler V.zero) self 10 [deposit]
       ([] : Fixture.RNG) Fixture.no_statistics = Ok out
     /\ map PropagatedCharge.state (message out) = [MOTION])
  /\ (exists st,
        run_deposit Fixture.libm Fixture.dist (Fixture.euler V.zero) self 10 deposit
          (run_entry ([] : Fixture.RNG) Fixture.no_statistics) = Ok st
        /\ map PropagatedCharge.state (propagated_charges st) = [MOTION]
        /\ map snd (output_plot_points st) = [UNKNOWN])
  /\ MOTION <> UNKNOWN.
Proof.
  cbv zeta. split; [|split; [|discriminate]].
  - eexists. split; [vm_compute; reflexivity | reflexivity].
  - eexists. split; [vm_compute; reflexivity | split; reflexivity].
Qed.

(** C4 (amended). For every carrier group, the state returned by
    [propagate] and stored in the output record is the one the stepping
    loop ended in: one of MOTION, RECOMBINED, TRAPPED and HALTED, never
    UNKNOWN.  A group whose loop ends without reaching HALTED, RECOMBINED or
    TRAPPED is recorded in state MOTION, its integration time having run
    out.  UNKNOWN is written to the header of the group's line-graph entry
    only, when line graphs are enabled and the elapsed time has reached the
    integration time or the last position lies below -0.45 size_z. *)
Theorem C4_recorded_state :
  forall (RNG : Type) (libm : Libm) (dist : Distributions RNG) (RK5 : RK.Tableau)
         (self : GenericPropagationModule) (deposit : DepositedCharge)
         (charge_per_step : Z) (st : RunState RNG) (fuel : nat),
    advances self ->
    (enough_fuel self (getLocalTime deposit) <= fuel)%nat ->
    exists (s : LoopState RNG) (st' : RunState RNG) (pc : PropagatedCharge.t),
      loop libm dist RK5 self fuel (getType deposit) (getLocalTime deposit)
           (loop_entry self (getLocalPosition deposit) (random_engine st)) = Ok s
      /\ propagate_group libm dist RK5 self fuel deposit charge_per_step st = Ok st'
      /\ propagated_charges st' = propagated_charges st ++ [pc]
      /\ PropagatedCharge.state pc = state s
      /\ state s <> UNKNOWN
      /\ (state s <> HALTED -> state s <> RECOMBINED -> state s <> TRAPPED ->
          state s = MOTION
          /\ integration_time_ self
             <= getLocalTime deposit + RK.getTime (runge_kutta s))
      /\ output_plot_points st' =
           (if output_linegraphs_ self
            then output_plot_points st
                   ++ [(getGlobalTime deposit, charge_per_step, getType deposit,
                        if Qle_bool (integration_time_ self) (RK.getTime (runge_kutta s))
                           || Qltb (vz (last_position s))
                                   (- vz (getSensorSize (detector_ self)) * (45 # 100))
                        then UNKNOWN else state s)]
            else output_plot_points st).
Proof.
  intros RNG libm dist RK5 self deposit cps st fuel Hadv Hfuel.
  set (plot := if output_linegraphs_ self
               then output_plot_points st
                      ++ [(getGlobalTime deposit, cps, getType deposit, MOTION)]
               else output_plot_points st).
  destruct (propagate_returns libm dist RK5 self (getLocalPosition deposit)
              (getType deposit) (getLocalTime deposit) (random_engine st) plot cps
              fuel Hadv Hfuel) as (s & Hloop & Hprop).
  pose proof (loop_state_known _ _ _ _ _ _ _ _ _ _ Hloop) as Hknown.
  destruct (loop_invariant libm dist RK5 self (getType deposit) (getLocalTime deposit)
              (fun _ => True)) with (fuel := fuel)
              (s := loop_entry self (getLocalPosition deposit) (random_engine st))
              (s' := s) as [_ Hstop]; [tauto | exact I | exact Hloop |].
  exists s. unfold propagate_group. fold plot. rewrite Hprop. cbn.
  eexists. eexists. split; [exact Hloop|]. split; [reflexivity|].
  split; [reflexivity|]. split; [reflexivity|]. split; [exact Hknown|].
  split.
  - intros H1 H2 H3.
    assert (Hs : state s = MOTION) by (destruct (state s); congruence).
    split; [exact Hs|].
    unfold in_motion in Hstop. rewrite Hs in Hstop. cbn in Hstop.
    apply Qltb_false in Hstop. exact Hstop.
  - unfold plot. destruct (output_linegraphs_ self); [|reflexivity].
    rewrite set_back_state_app. reflexivity.
Qed.

Lemma C4_recorded_state_witness :
  let self := Fixture.plain 1 1 1 2 10 1000 true 1 in
  let deposit := Fixture.electrons 10 0 0 in
  let st := run_entry ([] : Fixture.RNG) Fixture.no_statistics in
  exists s st' pc,
    loop Fixture.libm Fixture.dist (Fixture.euler V.zero) self 2 ELECTRON 0
         (loop_entry self (Vec 0 0 0) []) = Ok s
    /\ propagate_group Fixture.libm Fixture.dist (Fixture.euler V.zero) self 2
         deposit 10 st = Ok st'
    /\ propagated_charges st' = propagated_charges st ++ [pc]
    /\ PropagatedCharge.state pc = state s
    /\ state s <> UNKNOWN
    /\ (state s <> HALTED -> state s <> RECOMBINED -> state s <> TRAPPED ->
        state s = MOTION
        /\ integration_time_ self <= 0 + RK.getTime (runge_kutta s))
    /\ output_plot_points st' =
         output_plot_points st
           ++ [(0, 10%Z, ELECTRON,
                if Qle_bool (integration_time_ self) (RK.getTime (runge_kutta s))
                   || Qltb (vz (last_position s))
                           (- vz (getSensorSize (detector_ self)) * (45 # 100))
                then UNKNOWN else state s)].
Proof.
  cbv zeta.
  refine (C4_recorded_state Fixture.RNG Fixture.libm Fixture.dist
            (Fixture.euler V.zero) (Fixture.plain 1 1 1 2 10 1000 true 1)
            (Fixture.electrons 10 0 0) 10
            (run_entry ([] : Fixture.RNG) Fixture.no_statistics) 2 _ _).
  - split; [repeat split; reflexivity | intros ? ? ? ? ? H; discriminate H].
  - vm_compute. apply le_n.
Defined.

(** ** Leaving the sensor *)









(** In that example the carrier is halted on the lower face. *)
Example halted_on_lower_face :
  exists p,
    propagate Fixture.libm Fixture.dist (Fixture.euler V.zero)
      (Fixture.plain 1 1 1 25 10 1000 false 1) 25
      (Vec 0 0 (-9 # 2)) ELECTRON 0 ([] : Fixture.RNG) [] 10 = Ok p
    /\ final_state p = HALTED
    /\ (final_position p == Vec 0 0 (-5))%vec
    /\ final_time p == 1.
Proof.
  eexists. split; [vm_compute; reflexivity|]. unfold V.eqv.
  repeat split; vm_compute; reflexivity.
Qed.

(** C10, as stated, fails when the trapping test fires but the carrier is
    released within the integration time: the electron of the example
    above leaves the sensor in its first step, the trapping test fires, the
    release delay of 1 fits into the integration time of 25.  The state
    stays HALTED and the position is replaced by the intercept on the lower
    face. *)
Lemma C10_released_on_exit :
  let self := Fixture.module (1 # 1000) 1 1 25 10 1000 false 1
                Recombination.None_ (fun _ _ _ _ => true) (fun _ _ _ => 1) in
  let s := loop_entry self (Vec 0 0 (-9 # 2)) ([] : Fixture.RNG) in
  let l := locals Fixture.libm Fixture.dist (Fixture.euler V.zero) self ELECTRON s in
  head_of_step Fixture.libm Fixture.dist (Fixture.euler V.zero) self ELECTRON 0
               (Vec 0 0 (-9 # 2)) [] s
  /\ isWithinSensor (detector_ self) (l_position l) = false
  /\ l_trapping l = true
  /\ exists p,
       propagate Fixture.libm Fixture.dist (Fixture.euler V.zero) self 10
         (Vec 0 0 (-9 # 2)) ELECTRON 0 [] [] 10 = Ok p
       /\ final_state p = HALTED
       /\ final_state p <> RECOMBINED /\ final_state p <> TRAPPED
       /\ (final_position p == Vec 0 0 (-5))%vec
       /\ isWithinSensor (detector_ self) (final_position p) = true
       /\ final_time p == 2.
Proof.
  cbv zeta. split; [constructor; reflexivity|].
  split; [vm_compute; reflexivity|]. split; [reflexivity|].
  eexists. split; [vm_compute; reflexivity|]. unfold V.eqv.
  repeat split; try discriminate; vm_compute; reflexivity.
Qed.

(** C10 (amended). The tests of a step do not short-circuit: if the
    position after diffusion is outside the sensor (which sets HALTED) and,
    in the same step, the recombination test fires, or the trapping test
    fires with a release delay that does not fit into the integration time,
    the state is overwritten (TRAPPED in the latter case, else RECOMBINED),
    the loop ends, the intercept is not applied and [propagate] returns the
    position outside the sensor. *)
Theorem C10_tests_do_not_short_circuit :
  forall (RNG : Type) (libm : Libm) (dist : Distributions RNG) (RK5 : RK.Tableau)
         (self : GenericPropagationModule) (pos : Vector3d) (type : CarrierType)
         (initial_time : Q) (rng : RNG) (plot : OutputPlotPoints) (charge : Z)
         (fuel : nat) (s : LoopState RNG),
    advances self ->
    (enough_fuel self initial_time <= fuel)%nat ->
    head_of_step libm dist RK5 self type initial_time pos rng s ->
    isWithinSensor (detector_ self) (l_position (locals libm dist RK5 self type s))
      = false ->
    l_recombination (locals libm dist RK5 self type s) = true
    \/ stays_trapped libm dist RK5 self type initial_time s = true ->
    exists p : Propagated RNG,
      propagate libm dist RK5 self fuel pos type initial_time rng plot charge = Ok p
      /\ final_state p
         = (if stays_trapped libm dist RK5 self type initial_time s
            then TRAPPED else RECOMBINED)
      /\ final_position p = l_position (locals libm dist RK5 self type s)
      /\ isWithinSensor (detector_ self) (final_position p) = false.
Proof.
  intros RNG libm dist RK5 self pos type initial_time rng plot charge fuel s
         Hadv Hfuel Hhead Hout Hfire.
  destruct (propagate_returns libm dist RK5 self pos type initial_time rng plot
              charge fuel Hadv Hfuel) as (s' & Hloop & Hprop).
  assert (Hstate : state (loop_body libm dist RK5 self type initial_time s)
                   = if stays_trapped libm dist RK5 self type initial_time s
                     then TRAPPED else RECOMBINED).
  { rewrite body_state.
    destruct (stays_trapped libm dist RK5 self type initial_time s); [reflexivity|].
    destruct Hfire as [-> | H]; [reflexivity | discriminate]. }
  assert (Hstop : state (loop_body libm dist RK5 self type initial_time s) <> MOTION).
  { rewrite Hstate.
    destruct (stays_trapped libm dist RK5 self type initial_time s); discriminate. }
  destruct (loop_through _ _ _ _ _ _ _ _ _ _ _ Hhead Hloop) as [fuel' Hloop'].
  pose proof (loop_last_step _ _ _ _ _ _ _ _ _
                (head_in_motion _ _ _ _ _ _ _ _ _ Hhead) Hstop Hloop') as ->.
  exists (loop_exit self (loop_body libm dist RK5 self type initial_time s) plot).
  split; [exact Hprop|]. split; [exact Hstate|].
  assert (Hpos : final_position
                   (loop_exit self (loop_body libm dist RK5 self type initial_time s) plot)
                 = l_position (locals libm dist RK5 self type s)).
  { unfold loop_exit. cbn [final_position]. unfold exit_position.
    rewrite Hstate, body_position.
    destruct (stays_trapped libm dist RK5 self type initial_time s); reflexivity. }
  split; [exact Hpos|]. rewrite Hpos. exact Hout.
Qed.

Lemma C10_tests_do_not_short_circuit_witness :
  let self := Fixture.module 1 1 1 25 10 1000 false 1
                (Recombination.ConstantLifetime 1 1) NoTrapping (fun _ _ _ => 0) in
  let s := loop_entry self (Vec 0 0 (-9 # 2)) ([] : Fixture.RNG) in
  exists p,
    propagate Fixture.libm Fixture.dist (Fixture.euler V.zero) self 25
      (Vec 0 0 (-9 # 2)) ELECTRON 0 [] [] 10 = Ok p
    /\ final_state p
       = (if stays_trapped Fixture.libm Fixture.dist (Fixture.euler V.zero) self
               ELECTRON 0 s
          then TRAPPED else RECOMBINED)
    /\ final_position p
       = l_position (locals Fixture.libm Fixture.dist (Fixture.euler V.zero) self
                       ELECTRON s)
    /\ isWithinSensor (detector_ self) (final_position p) = false.
Proof.
  cbv zeta.
  refine (C10_tests_do_not_short_circuit Fixture.RNG Fixture.libm Fixture.dist
            (Fixture.euler V.zero)
            (Fixture.module 1 1 1 25 10 1000 false 1
               (Recombination.ConstantLifetime 1 1) NoTrapping (fun _ _ _ => 0))
            (Vec 0 0 (-9 # 2)) ELECTRON 0 [] [] 10 25
            (loop_entry
               (Fixture.module 1 1 1 25 10 1000 false 1
                  (Recombination.ConstantLifetime 1 1) NoTrapping (fun _ _ _ => 0))
               (Vec 0 0 (-9 # 2)) [])
            _ _ _ _ _).
  - split; [repeat split; reflexivity | intros ? ? ? ? ? H; discriminate H].
  - vm_compute. apply le_n.
  - constructor. reflexivity.
  - vm_compute. reflexivity.
  - left. vm_compute. reflexivity.
Defined.

(** ** Charge groups *)

Local Open Scope Z_scope.

Lemma sum_app (l1 l2 : list Z) : Spec.sum (l1 ++ l2) = Spec.sum l1 + Spec.sum l2.
Proof.
  unfold Spec.sum. induction l1 as [|a l1 IH]; cbn [app fold_right].
  - reflexivity.
  - rewrite IH. ring.
Qed.

Lemma sum_repeat (S : Z) (n : nat) : Spec.sum (repeat S n) = S * Z.of_nat n.
Proof.
  unfold Spec.sum. induction n as [|n IH]; [cbn; ring|].
  cbn [repeat fold_right]. rewrite IH. lia.
Qed.

Lemma groups_zero (S : Z) : 0 < S -> Spec.groups 0 S = [].
Proof.
  intro HS. unfold Spec.groups.
  rewrite Z.div_0_l, Z.mod_0_l by lia. reflexivity.
Qed.

Lemma groups_small (C S : Z) : 0 < C < S -> Spec.groups C S = [C].
Proof.
  intro H. unfold Spec.groups.
  rewrite Z.div_small, Z.mod_small by lia.
  destruct (Z.eqb_spec C 0); [lia | reflexivity].
Qed.

Lemma groups_step (C S : Z) :
  0 < S <= C -> Spec.groups C S = S :: Spec.groups (C - S) S.
Proof.
  intro H. unfold Spec.groups.
  assert (HD : C / S = (C - S) / S + 1).
  { replace C with ((C - S) + 1 * S) at 1 by ring. apply Z.div_add. lia. }
  assert (HM : C mod S = (C - S) mod S).
  { replace C with ((C - S) + 1 * S) at 1 by ring. apply Z.mod_add. lia. }
  rewrite HD, HM.
  rewrite Z2Nat.inj_add by (try apply Z.div_pos; lia).
  rewrite Nat.add_comm. reflexivity.
Qed.

Lemma groups_sum (C S : Z) : 0 <= C -> 0 < S -> Spec.sum (Spec.groups C S) = C.
Proof.
  intros HC HS. unfold Spec.groups. rewrite sum_app, sum_repeat.
  rewrite Z2Nat.id by (apply Z.div_pos; lia).
  pose proof (Z.div_mod C S ltac:(lia)) as E.
  destruct (Z.eqb_spec (C mod S) 0) as [E0|E0]; cbn; lia.
Qed.

(** The number of groups is the quotient rounded up. *)
Lemma groups_length (C S : Z) :
  0 <= C -> 0 < S ->
  Z.of_nat (List.length (Spec.groups C S)) = Spec.ceil_div C S.
Proof.
  intros HC HS. unfold Spec.groups, Spec.ceil_div.
  rewrite length_app, repeat_length, Nat2Z.inj_add.
  rewrite Z2Nat.id by (apply Z.div_pos; lia).
  pose proof (Z.div_mod C S ltac:(lia)) as E.
  pose proof (Z.mod_pos_bound C S HS) as B.
  destruct (Z.eqb_spec (C mod S) 0) as [E0|E0]; cbn [List.length Z.of_nat].
  - apply Z.div_unique with (r := S - 1); lia.
  - apply Z.div_unique with (r := C mod S - 1); lia.
Qed.

(** Every group but the last has the full size, the last one is not
    empty. *)
Lemma groups_sizes (C S : Z) :
  0 <= C -> 0 < S -> Forall (fun g => 0 < g <= S) (Spec.groups C S).
Proof.
  intros HC HS. unfold Spec.groups. apply Forall_app. split.
  - apply Forall_forall. intros g Hg. apply repeat_spec in Hg. lia.
  - pose proof (Z.mod_pos_bound C S HS) as B.
    destruct (Z.eqb_spec (C mod S) 0); constructor; [lia | constructor].
Qed.

(** The rounded-up quotient of two doubles holding integers. *)
Lemma ceil_quotient (C M : Z) :
  0 < M -> ceil (inject_Z C / inject_Z M) = Spec.ceil_div C M.
Proof.
  intro HM. unfold ceil, Qceiling, Spec.ceil_div.
  assert (E : (- (inject_Z C / inject_Z M) == inject_Z (- C) / inject_Z M)%Q).
  { rewrite inject_Z_opp. field. intro H0.
    apply (inject_Z_injective M 0) in H0. lia. }
  rewrite (Qfloor_comp _ _ E), <- Zdiv_Qdiv.
  pose proof (Z.div_mod (- C) M ltac:(lia)) as D.
  pose proof (Z.mod_pos_bound (- C) M HM) as B.
  apply Z.div_unique with (r := M - 1 - (- C) mod M); lia.
Qed.

Local Close Scope Z_scope.

(** ** The loop over the deposits *)

Lemma fuel_for_In self deposits d :
  In d deposits -> (fuel_for_deposit self d <= fuel_for self deposits)%nat.
Proof.
  unfold fuel_for. induction deposits as [|d' ds IH]; cbn; [tauto|].
  intros [->|H]; [lia|]. specialize (IH H). lia.
Qed.

Lemma group_size_ok self d :
  (0 < charge_per_step_ self < 2 ^ 32)%Z -> (0 <= max_charge_groups_ self)%Z ->
  (0 <= getCharge d < 2 ^ 32)%Z ->
  exists S increased,
    group_size self d = Ok (S, increased)
    /\ (0 < S < 2 ^ 32)%Z
    /\ (increased = true ->
        (max_charge_groups_ self < getCharge d / charge_per_step_ self)%Z
        /\ S = Spec.ceil_div (getCharge d) (max_charge_groups_ self))
    /\ (increased = false ->
        S = charge_per_step_ self
        /\ (max_charge_groups_ self = 0
            \/ getCharge d / charge_per_step_ self <= max_charge_groups_ self)%Z).
Proof.
  intros HS HM HC. unfold group_size.
  destruct (Z.ltb_spec 0 (max_charge_groups_ self)) as [M1|M0].
  - destruct (Z.eqb_spec (charge_per_step_ self) 0) as [E|_]; [lia|].
    destruct (Z.ltb_spec (max_charge_groups_ self)
                (getCharge d / charge_per_step_ self)) as [L|L].
    + rewrite ceil_quotient by exact M1.
      assert (HCM : (max_charge_groups_ self < getCharge d)%Z).
      { apply Z.lt_le_trans with (1 := L).
        apply Z.div_le_upper_bound; nia. }
      assert (B : (0 < Spec.ceil_div (getCharge d) (max_charge_groups_ self)
                   <= getCharge d)%Z).
      { unfold Spec.ceil_div. split.
        - apply Z.div_str_pos. lia.
        - apply Z.div_le_upper_bound; nia. }
      rewrite to_uint_small by lia.
      eexists. exists true. split; [reflexivity|].
      split; [lia|]. split; [intros _; split; [exact L | reflexivity]|discriminate].
    + eexists. exists false. split; [reflexivity|]. split; [exact HS|].
      split; [discriminate|]. intros _. split; [reflexivity | right; exact L].
  - eexists. exists false. split; [reflexivity|]. split; [exact HS|].
    split; [discriminate|]. intros _. split; [reflexivity | left; lia].
Qed.

Section Batching.

Context {RNG : Type}.
Variable libm : Libm.
Variable dist : Distributions RNG.
Variable RK5 : RK.Tableau.
Variable self : GenericPropagationModule.

Hypothesis Hadv : advances self.

Lemma adds_nil (st st' : RunState RNG) :
  propagated_charges st' = propagated_charges st ->
  logged_groups (log st') = logged_groups (log st) ->
  adds [] st st'.
Proof.
  intros H1 H2. exists [], []. rewrite !app_nil_r. repeat split; assumption.
Qed.

Lemma adds_trans gs1 gs2 (st1 st2 st3 : RunState RNG) :
  adds gs1 st1 st2 -> adds gs2 st2 st3 -> adds (gs1 ++ gs2) st1 st3.
Proof.
  intros (r1 & l1 & A1 & B1 & C1 & D1 & E1) (r2 & l2 & A2 & B2 & C2 & D2 & E2).
  exists (r1 ++ r2), (l1 ++ l2). rewrite A2, A1, B2, B1, !map_app, !app_assoc.
  repeat split; congruence.
Qed.

Lemma logged_groups_app (l1 l2 : list LogMsg) :
  logged_groups (l1 ++ l2) = logged_groups l1 ++ logged_groups l2.
Proof. apply flat_map_app. Qed.

Lemma propagate_group_adds (fuel : nat) (d : DepositedCharge) (cps : Z)
    (st : RunState RNG) :
  (enough_fuel self (getLocalTime d) <= fuel)%nat ->
  exists st',
    propagate_group libm dist RK5 self fuel d cps st = Ok st'
    /\ adds [(d, cps)] st st'.
Proof.
  intro Hfuel. unfold propagate_group.
  match goal with
  | |- context [propagate _ _ _ _ _ ?pos ?ty ?t ?rng ?plot ?c] =>
      destruct (propagate_returns libm dist RK5 self pos ty t rng plot c fuel
                  Hadv Hfuel) as (s & _ & ->)
  end.
  cbn. eexists. split; [reflexivity|].
  eexists [_], [(cps, gain s)]. cbn.
  rewrite logged_groups_app. repeat split; reflexivity.
Qed.

Lemma charge_loop_adds (pfuel : nat) (d : DepositedCharge) :
  (enough_fuel self (getLocalTime d) <= pfuel)%nat ->
  forall (fuel : nat) (remaining S : Z) (st : RunState RNG),
    (0 <= remaining < 2 ^ 32)%Z -> (0 < S)%Z ->
    (remaining <= Z.of_nat fuel)%Z ->
    exists st',
      charge_loop libm dist RK5 self pfuel fuel d remaining S st = Ok st'
      /\ adds (map (pair d) (Spec.groups remaining S)) st st'.
Proof.
  intro Hp. induction fuel as [|fuel IH]; intros remaining S st Hr HS Hfuel.
  - assert (remaining = 0%Z) as -> by lia. cbn [charge_loop].
    rewrite Z.ltb_irrefl.
    exists st. split; [reflexivity|].
    rewrite groups_zero by exact HS. apply adds_nil; reflexivity.
  - cbn [charge_loop].
    destruct (Z.ltb_spec 0 remaining) as [Hpos|Hzero].
    + destruct (Z.ltb_spec remaining S) as [Hlt|Hge].
      * destruct (propagate_group_adds pfuel d remaining st Hp) as (st1 & -> & A1).
        cbn [bind]. rewrite Z.sub_diag.
        destruct (IH (to_uint 0) remaining st1) as (st2 & H2 & A2);
          [cbn; lia | lia | cbn; lia |].
        exists st2. split; [exact H2|].
        rewrite groups_small by lia.
        change (to_uint 0) with 0%Z in A2.
        rewrite groups_zero in A2 by lia.
        pose proof (adds_trans _ _ _ _ _ A1 A2) as A. exact A.
      * destruct (propagate_group_adds pfuel d S st Hp) as (st1 & -> & A1).
        cbn [bind]. rewrite to_uint_small by lia.
        destruct (IH (remaining - S)%Z S st1) as (st2 & H2 & A2); [lia | lia | lia |].
        exists st2. split; [exact H2|].
        rewrite groups_step by lia.
        pose proof (adds_trans _ _ _ _ _ A1 A2) as A. exact A.
    + assert (remaining = 0%Z) as -> by lia.
      exists st. split; [reflexivity|].
      rewrite groups_zero by exact HS. apply adds_nil; reflexivity.
Qed.

(** With a group size of zero the loop over the charges of a non-empty
    deposit never ends: every iteration propagates an empty group and
    leaves the remaining charge as it is. *)
Lemma charge_loop_zero_size (pfuel fuel : nat) (d : DepositedCharge)
    (remaining : Z) (st : RunState RNG) :
  (0 < remaining < 2 ^ 32)%Z ->
  charge_loop libm dist RK5 self pfuel fuel d remaining 0 st = Diverges.
Proof.
  intro Hr. revert st. induction fuel as [|fuel IH]; intro st; cbn [charge_loop];
    destruct (Z.ltb_spec 0 remaining) as [_|H]; try lia; [reflexivity|].
  destruct (Z.ltb_spec remaining 0) as [H|_]; [lia|].
  rewrite Z.sub_0_r, to_uint_small by lia.
  unfold propagate_group at 1, propagate.
  match goal with
  | |- context [loop ?a ?b ?c ?e ?f ?g ?h ?i] => destruct (loop a b c e f g h i) eqn:E
  end; cbn [bind].
  - apply IH.
  - reflexivity.
  - exfalso. clear -E. revert E.
    match goal with |- loop _ _ _ _ _ _ _ ?s0 = _ -> _ => generalize s0 end.
    induction pfuel as [|pfuel IHp]; intros s0; rewrite loop_unfold;
      destruct (in_motion self (getLocalTime d) s0); try discriminate.
    apply IHp.
Qed.

Hypothesis Hsize : (0 < charge_per_step_ self < 2 ^ 32)%Z.
Hypothesis Hcap : (0 <= max_charge_groups_ self)%Z.

Lemma run_deposit_adds (fuel : nat) (d : DepositedCharge) (st : RunState RNG) :
  (0 <= getCharge d < 2 ^ 32)%Z ->
  (fuel_for_deposit self d <= fuel)%nat ->
  exists st',
    run_deposit libm dist RK5 self fuel d st = Ok st'
    /\ adds (plan self [d]) st st'.
Proof.
  intros HC Hfuel. unfold plan, processed, run_deposit. cbn [flat_map].
  rewrite app_nil_r.
  destruct (skipped_type self d).
  { eexists. split; [reflexivity|]. cbn.
    apply adds_nil; cbn; [reflexivity|].
    rewrite logged_groups_app, app_nil_r. reflexivity. }
  destruct (skipped_time self d).
  { eexists. split; [reflexivity|]. cbn.
    apply adds_nil; cbn; [reflexivity|].
    rewrite logged_groups_app, app_nil_r. reflexivity. }
  cbn [negb andb]. unfold effective_size.
  destruct (group_size_ok self d Hsize Hcap HC) as (S & inc & -> & HS & _).
  cbn [bind]. unfold fuel_for_deposit in Hfuel.
  match goal with
  | |- context [charge_loop _ _ _ _ _ _ _ _ _ ?st0] =>
      destruct (charge_loop_adds fuel d ltac:(lia) fuel (getCharge d) S st0)
        as (st' & H' & A'); [lia | lia | lia |]
  end.
  exists st'. split; [exact H'|].
  destruct A' as (recs & lg & A1 & A2 & A3).
  exists recs, lg. split; [|split; [|exact A3]].
  - rewrite A1. destruct inc; reflexivity.
  - rewrite A2. destruct inc; cbn; [|reflexivity].
    rewrite logged_groups_app, app_nil_r. reflexivity.
Qed.

Lemma for_deposits_adds (fuel : nat) (deposits : list DepositedCharge) :
  Forall (fun d => (0 <= getCharge d < 2 ^ 32)%Z) deposits ->
  (fuel_for self deposits <= fuel)%nat ->
  forall st : RunState RNG,
  exists st',
    for_deposits libm dist RK5 self fuel deposits st = Ok st'
    /\ adds (plan self deposits) st st'.
Proof.
  induction deposits as [|d ds IH]; intros HC Hfuel st.
  - exists st. split; [reflexivity | apply adds_nil; reflexivity].
  - inversion HC as [|? ? Hd Hds]; subst.
    assert (Hfd : (fuel_for_deposit self d <= fuel)%nat).
    { pose proof (fuel_for_In self (d :: ds) d (or_introl eq_refl)). lia. }
    assert (Hfds : (fuel_for self ds <= fuel)%nat).
    { unfold fuel_for in *. cbn in Hfuel. lia. }
    destruct (run_deposit_adds fuel d st Hd Hfd) as (st1 & H1 & A1).
    destruct (IH Hds Hfds st1) as (st2 & H2 & A2).
    exists st2. cbn [for_deposits]. rewrite H1. cbn [bind].
    split; [exact H2|].
    replace (plan self (d :: ds)) with (plan self [d] ++ plan self ds)
      by (unfold plan; cbn [flat_map]; rewrite app_nil_r; reflexivity).
    exact (adds_trans _ _ _ _ _ A1 A2).
Qed.

Lemma plan_sum (deposits : list DepositedCharge) :
  Forall (fun d => (0 <= getCharge d < 2 ^ 32)%Z) deposits ->
  Spec.sum (map snd (plan self deposits))
  = Spec.sum (map getCharge (filter (processed self) deposits)).
Proof.
  induction 1 as [|d ds Hd _ IH]; [reflexivity|].
  unfold plan in *. cbn [flat_map filter].
  rewrite map_app, sum_app, IH.
  destruct (processed self d); [|reflexivity].
  cbn [map]. rewrite map_map. cbn [snd]. rewrite map_id.
  destruct (group_size_ok self d Hsize Hcap Hd) as (S & inc & HS & HS0 & _).
  unfold effective_size. rewrite HS.
  rewrite groups_sum by lia. unfold Spec.sum. cbn. reflexivity.
Qed.

End Batching.

(** C1. For deposits whose charge fits an unsigned int and a positive
    configured group size, [run] returns (given fuel for its loops) and
    propagates, for every processed deposit of charge C and effective group
    size S, the groups S, ..., S, C mod S in this order ([Spec.groups]),
    one record per group, the record's charge being the group size times
    the gain, rounded.  The group sizes of a deposit sum to C, a deposit
    with C = 0 yields no group, and over the event the group sizes sum to
    the charges of the processed deposits. *)
Theorem C1_groups_sum_to_charge :
  forall (RNG : Type) (libm : Libm) (dist : Distributions RNG) (RK5 : RK.Tableau)
         (self : GenericPropagationModule) (deposits : list DepositedCharge)
         (rng : RNG) (stats : Statistics) (fuel : nat),
    advances self ->
    (0 < charge_per_step_ self < 2 ^ 32)%Z ->
    (0 <= max_charge_groups_ self)%Z ->
    Forall (fun d => (0 <= getCharge d < 2 ^ 32)%Z) deposits ->
    (fuel_for self deposits <= fuel)%nat ->
    exists out : RunOutput,
      run libm dist RK5 self fuel deposits rng stats = Ok out
      /\ map fst (logged_groups (messages out)) = map snd (plan self deposits)
      /\ map PropagatedCharge.deposit (message out) = map fst (plan self deposits)
      /\ map PropagatedCharge.charge (message out)
         = map output_charge (logged_groups (messages out))
      /\ Spec.sum (map fst (logged_groups (messages out)))
         = Spec.sum (map getCharge (filter (processed self) deposits))
      /\ (forall d, In d deposits -> processed self d = true ->
          let C := getCharge d in
          let S := effective_size self d in
          (0 < S)%Z
          /\ Spec.sum (Spec.groups C S) = C
          /\ Forall (fun g => (0 < g <= S)%Z) (Spec.groups C S)
          /\ (C = 0%Z -> Spec.groups C S = [])).
Proof.
  intros RNG libm dist RK5 self deposits rng stats fuel Hadv Hsize Hcap HC Hfuel.
  destruct (for_deposits_adds libm dist RK5 self Hadv Hsize Hcap fuel deposits
              HC Hfuel (run_entry rng stats))
    as (st & Hrun & recs & lg & A1 & A2 & A3 & A4 & A5).
  cbn in A1, A2. subst recs. subst lg.
  unfold run. rewrite Hrun. cbn [bind]. eexists. split; [reflexivity|].
  cbn [message messages].
  split; [exact A3|]. split; [exact A4|]. split; [exact A5|].
  split.
  - rewrite A3. apply plan_sum; assumption.
  - intros d Hin _. cbv zeta.
    rewrite Forall_forall in HC. specialize (HC d Hin).
    destruct (group_size_ok self d Hsize Hcap HC) as (S' & inc & HS & HS0 & _).
    assert (effective_size self d = S') as ->
        by (unfold effective_size; rewrite HS; reflexivity).
    split; [lia|]. split; [apply groups_sum; lia|].
    split; [apply groups_sizes; lia|].
    intros ->. apply groups_zero. lia.
Qed.

Lemma C1_groups_sum_to_charge_witness :
  let self := Fixture.plain 1 1 1 2 10 1000 false 1 in
  let deposits := [Fixture.electrons 25 0 0; Fixture.electrons 0 0 0;
                   Fixture.electrons 7 0 3] in
  exists out,
    run Fixture.libm Fixture.dist (Fixture.euler V.zero) self 25 deposits
      ([] : Fixture.RNG) Fixture.no_statistics = Ok out
    /\ map fst (logged_groups (messages out)) = map snd (plan self deposits)
    /\ map PropagatedCharge.deposit (message out) = map fst (plan self deposits)
    /\ map PropagatedCharge.charge (message out)
       = map output_charge (logged_groups (messages out))
    /\ Spec.sum (map fst (logged_groups (messages out)))
       = Spec.sum (map getCharge (filter (processed self) deposits))
    /\ (forall d, In d deposits -> processed self d = true ->
        (0 < effective_size self d)%Z
        /\ Spec.sum (Spec.groups (getCharge d) (effective_size self d)) = getCharge d
        /\ Forall (fun g => (0 < g <= effective_size self d)%Z)
                  (Spec.groups (getCharge d) (effective_size self d))
        /\ (getCharge d = 0%Z ->
            Spec.groups (getCharge d) (effective_size self d) = [])).
Proof.
  cbv zeta.
  refine (C1_groups_sum_to_charge Fixture.RNG Fixture.libm Fixture.dist
            (Fixture.euler V.zero) (Fixture.plain 1 1 1 2 10 1000 false 1)
            [Fixture.electrons 25 0 0; Fixture.electrons 0 0 0;
             Fixture.electrons 7 0 3]
            [] Fixture.no_statistics 25 _ _ _ _ _).
  - split; [repeat split; reflexivity | intros ? ? ? ? ? H; discriminate H].
  - split; reflexivity.
  - discriminate.
  - repeat constructor; discriminate.
  - vm_compute. apply le_n.
Defined.

(** The groups of that event: 25 carriers in groups of 10, 10 and 5, none
    for the empty deposit and none for the one beyond the integration
    time. *)
Example groups_of_25 :
  let self := Fixture.plain 1 1 1 2 10 1000 false 1 in
  let deposits := [Fixture.electrons 25 0 0; Fixture.electrons 0 0 0;
                   Fixture.electrons 7 0 3] in
  map snd (plan self deposits) = [10; 10; 5]%Z
  /\ exists out,
       run Fixture.libm Fixture.dist (Fixture.euler V.zero) self 25 deposits
         ([] : Fixture.RNG) Fixture.no_statistics = Ok out
       /\ map PropagatedCharge.charge (message out) = [10; 10; 5]%Z
       /\ map fst (logged_groups (messages out)) = [10; 10; 5]%Z.
Proof.
  cbv zeta. split; [vm_compute; reflexivity|].
  eexists. split; [vm_compute; reflexivity|]. split; reflexivity.
Qed.

(** ** The cap on the number of groups *)

(** When [run] increases the group size, the groups of the deposit are at
    most max_charge_groups. *)
Lemma increased_groups_within_cap (C M : Z) :
  (0 <= C)%Z -> (0 < M)%Z -> (M < C)%Z ->
  (Z.of_nat (List.length (Spec.groups C (Spec.ceil_div C M))) <= M)%Z.
Proof.
  intros HC HM HMC.
  assert (HS : (0 < Spec.ceil_div C M)%Z)
    by (unfold Spec.ceil_div; apply Z.div_str_pos; lia).
  rewrite groups_length by lia.
  set (S := Spec.ceil_div C M) in *.
  assert (HMS : (C <= M * S)%Z).
  { unfold S, Spec.ceil_div.
    pose proof (Z.div_mod (C + M - 1) M ltac:(lia)).
    pose proof (Z.mod_pos_bound (C + M - 1) M HM). lia. }
  unfold Spec.ceil_div. apply Z.lt_succ_r. apply Z.div_lt_upper_bound; nia.
Qed.

(** When it does not, they are at most max_charge_groups + 1: the test
    compares the truncated quotient with the cap. *)
Lemma kept_groups_within_cap_plus_one (C S M : Z) :
  (0 <= C)%Z -> (0 < S)%Z -> (C / S <= M)%Z ->
  (Z.of_nat (List.length (Spec.groups C S)) <= M + 1)%Z.
Proof.
  intros HC HS HM. rewrite groups_length by lia. unfold Spec.ceil_div.
  pose proof (Z.div_mod C S ltac:(lia)).
  pose proof (Z.mod_pos_bound C S HS).
  apply Z.lt_succ_r. apply Z.div_lt_upper_bound; nia.
Qed.

(** C2. The code at the failing input: a deposit of 25 carriers,
    charge_per_step = 10 and max_charge_groups = 2.  The truncated quotient
    25 / 10 = 2 does not exceed the cap, the group size stays 10, and three
    groups (10, 10, 5) are propagated. *)
Theorem C2_cap_exceeded_by_one :
  let self := Fixture.plain 1 1 1 2 10 2 false 1 in
  let deposit := Fixture.electrons 25 0 0 in
  max_charge_groups_ self = 2%Z
  /\ group_size self deposit = Ok (10%Z, false)
  /\ exists out,
       run Fixture.libm Fixture.dist (Fixture.euler V.zero) self 25 [deposit]
         ([] : Fixture.RNG) Fixture.no_statistics = Ok out
       /\ map fst (logged_groups (messages out)) = [10; 10; 5]%Z
       /\ List.length (message out) = 3%nat
       /\ deposits_exceeding_max_groups_ (counters out) = 0%Z.
Proof.
  cbv zeta. split; [reflexivity|]. split; [reflexivity|].
  eexists. split; [vm_compute; reflexivity|]. repeat split; reflexivity.
Qed.

(** ** Deposits beyond the integration time *)

(** C9, as stated, fails in that the skipped deposit is not counted: a run
    over one deposit with local time 3 > integration_time = 2 dispatches an
    empty message and leaves every counter of the module as it was; the
    log line is all there is. *)
Lemma C9_skipped_deposit_not_counted :
  let self := Fixture.plain 1 1 1 2 10 1000 false 1 in
  let late := Fixture.electrons 10 0 3 in
  let stats := {| total_deposits_ := 4; deposits_exceeding_max_groups_ := 1;
                  total_propagated_charges_ := 30; total_steps_ := 5;
                  total_time_picoseconds_ := 6000 |} in
  integration_time_ self < getLocalTime late
  /\ exists out,
       run Fixture.libm Fixture.dist (Fixture.euler V.zero) self 10 [late]
         ([] : Fixture.RNG) stats = Ok out
       /\ message out = []
       /\ counters out = stats
       /\ messages out = [Skipping_beyond_integration_time late].
Proof.
  cbv zeta. split; [reflexivity|].
  eexists. split; [vm_compute; reflexivity|]. repeat split; reflexivity.
Qed.

(** C9 (amended). For every deposit whose local time exceeds
    integration_time, the loop over the deposits goes on to the next deposit
    without entering the batching loop and without an error: no record is
    added, no counter and no other local of [run] changes, the random engine
    is not used; one line is logged (the one for deposits beyond the
    integration time, unless the carrier type is not propagated, which is
    tested first). *)
Theorem C9_late_deposit_skipped :
  forall (RNG : Type) (libm : Libm) (dist : Distributions RNG) (RK5 : RK.Tableau)
         (self : GenericPropagationModule) (fuel : nat) (d : DepositedCharge)
         (st : RunState RNG),
    integration_time_ self < getLocalTime d ->
    exists (st' : RunState RNG) (m : LogMsg),
      run_deposit libm dist RK5 self fuel d st = Ok st'
      /\ m = (if skipped_type self d then Skipping_type d
              else Skipping_beyond_integration_time d)
      /\ log st' = log st ++ [m]
      /\ propagated_charges st' = propagated_charges st
      /\ statistics st' = statistics st
      /\ propagated_charges_count st' = propagated_charges_count st
      /\ recombined_charges_count st' = recombined_charges_count st
      /\ trapped_charges_count st' = trapped_charges_count st
      /\ step_count st' = step_count st
      /\ total_time st' = total_time st
      /\ random_engine st' = random_engine st
      /\ output_plot_points st' = output_plot_points st.
Proof.
  intros RNG libm dist RK5 self fuel d st Hlate.
  assert (Hskip : skipped_time self d = true) by (apply Qltb_true; exact Hlate).
  unfold run_deposit. rewrite Hskip.
  destruct (skipped_type self d); eexists; eexists;
    (split; [reflexivity|]); repeat split; reflexivity.
Qed.

Lemma C9_late_deposit_skipped_witness :
  let self := Fixture.plain 1 1 1 2 10 1000 false 1 in
  let late := Fixture.electrons 10 0 3 in
  let st := run_entry ([] : Fixture.RNG) Fixture.no_statistics in
  exists st' m,
    run_deposit Fixture.libm Fixture.dist (Fixture.euler V.zero) self 0 late st
    = Ok st'
    /\ m = (if skipped_type self late then Skipping_type late
            else Skipping_beyond_integration_time late)
    /\ log st' = log st ++ [m]
    /\ propagated_charges st' = propagated_charges st
    /\ statistics st' = statistics st
    /\ propagated_charges_count st' = propagated_charges_count st
    /\ recombined_charges_count st' = recombined_charges_count st
    /\ trapped_charges_count st' = trapped_charges_count st
    /\ step_count st' = step_count st
    /\ total_time st' = total_time st
    /\ random_engine st' = random_engine st
    /\ output_plot_points st' = output_plot_points st.
Proof.
  cbv zeta.
  refine (C9_late_deposit_skipped Fixture.RNG Fixture.libm Fixture.dist
            (Fixture.euler V.zero) (Fixture.plain 1 1 1 2 10 1000 false 1) 0
            (Fixture.electrons 10 0 3)
            (run_entry ([] : Fixture.RNG) Fixture.no_statistics) _).
  reflexivity.
Defined.

(** * Further properties *)

(** ** Elapsed time and gain of a carrier group *)

Ltac open_locals :=
  unfold locals, stays_trapped, locals, RK.step, RK.getTime, RK.getTimeStep,
    RK.getValue;
  cbn;
  repeat match goal with
         | |- context [match ?e with _ => _ end] =>
             lazymatch e with
             | context [match _ with _ => _ end] => fail
             | _ => destruct e eqn:?; cbn
             end
         end.

Section Elapsed.

Context {RNG : Type}.
Variable libm : Libm.
Variable dist : Distributions RNG.
Variable RK5 : RK.Tableau.
Variable self : GenericPropagationModule.
Variable type : CarrierType.
Variable initial_time : Q.

Lemma locals_timestep (s : LoopState RNG) :
  l_timestep (locals libm dist RK5 self type s) = RK.getTimeStep (runge_kutta s).
Proof. open_locals. reflexivity. Qed.

(** A release within a step is granted only if it ends before the
    integration time. *)
Lemma body_time_released (s : LoopState RNG) :
  RK.getTime (runge_kutta (loop_body libm dist RK5 self type initial_time s))
  = RK.getTime (runge_kutta s) + RK.getTimeStep (runge_kutta s)
  \/ initial_time
     + RK.getTime (runge_kutta (loop_body libm dist RK5 self type initial_time s))
     < integration_time_ self.
Proof.
  rewrite body_time.
  destruct (l_trapping (locals libm dist RK5 self type s)) eqn:Ht;
    [|left; reflexivity].
  destruct (stays_trapped libm dist RK5 self type initial_time s) eqn:Hs;
    [left; reflexivity|].
  right. cbn [andb negb].
  unfold stays_trapped in Hs. rewrite Ht in Hs. cbn [andb] in Hs.
  apply negb_false_iff in Hs. apply Qltb_true in Hs.
  rewrite locals_timestep in Hs. lra.
Qed.

Hypothesis Hadv : advances self.

Lemma positive_largest_step :
  timestep_start_ self <= largest_step self
  /\ timestep_max_ self <= largest_step self
  /\ 0 < largest_step self.
Proof.
  destruct Hadv as ((H1 & _ & _) & _). unfold largest_step.
  pose proof (Q.le_max_l (timestep_start_ self) (timestep_max_ self)).
  pose proof (Q.le_max_r (timestep_start_ self) (timestep_max_ self)).
  repeat split; lra.
Qed.

(** The elapsed time of a group is not negative; it is positive when the
    loop was entered. *)
Lemma loop_time_nonneg (fuel : nat) (pos : Vector3d) (rng : RNG)
    (s : LoopState RNG) :
  loop libm dist RK5 self fuel type initial_time (loop_entry self pos rng) = Ok s ->
  0 <= RK.getTime (runge_kutta s)
  /\ (initial_time < integration_time_ self -> 0 < RK.getTime (runge_kutta s)).
Proof.
  intro Hloop.
  pose proof (smallest_step_pos self Hadv) as Hd.
  pose proof (smallest_step_le self) as (Hds & Hdmin & Hdmax).
  destruct (loop_invariant libm dist RK5 self type initial_time
    (fun s => smallest_step self <= RK.getTimeStep (runge_kutta s)
              /\ 0 <= RK.getTime (runge_kutta s)
              /\ (s = loop_entry self pos rng \/ 0 < RK.getTime (runge_kutta s))))
    with (fuel := fuel) (s := loop_entry self pos rng) (s' := s)
    as [(_ & H0 & Hs) Hstop]; [| | exact Hloop |].
  - intros s0 (Hh & Ht & _) _.
    pose proof (body_time_advances libm dist RK5 self type initial_time s0 Hadv).
    split; [rewrite body_timestep; apply limit_timestep_lower; assumption|].
    split; [lra | right; lra].
  - split; [exact Hds|]. split; [cbn; lra | left; reflexivity].
  - split; [exact H0|]. intro Hlt.
    destruct Hs as [->|Hs]; [|exact Hs].
    exfalso. unfold in_motion in Hstop. cbn in Hstop.
    apply Qltb_false in Hstop. lra.
Qed.

Hypothesis Hmm : timestep_min_ self <= timestep_max_ self.

(** A group is tracked at most one step beyond the integration time. *)
Lemma loop_time_overshoot (fuel : nat) (pos : Vector3d) (rng : RNG)
    (s : LoopState RNG) :
  initial_time <= integration_time_ self ->
  loop libm dist RK5 self fuel type initial_time (loop_entry self pos rng) = Ok s ->
  initial_time + RK.getTime (runge_kutta s)
  < integration_time_ self + largest_step self.
Proof.
  intros Ht0 Hloop.
  pose proof positive_largest_step as (HMs & HMm & HM).
  destruct (loop_invariant libm dist RK5 self type initial_time
    (fun s => RK.getTimeStep (runge_kutta s) <= largest_step self
              /\ initial_time + RK.getTime (runge_kutta s)
                 < integration_time_ self + largest_step self))
    with (fuel := fuel) (s := loop_entry self pos rng) (s' := s)
    as [(_ & H) _]; [| | exact Hloop | exact H].
  - intros s0 (Hh & _) Hm.
    unfold in_motion in Hm. apply andb_true_iff in Hm as [_ Hm].
    apply Qltb_true in Hm.
    split.
    + rewrite body_timestep.
      pose proof (limit_timestep_bounds self
        (adapt_timestep libm self (l_position (locals libm dist RK5 self type s0))
           (l_step (locals libm dist RK5 self type s0))
           (RK.getTimeStep (runge_kutta s0))) Hmm). lra.
    + destruct (body_time_released s0) as [E|E]; [rewrite E|]; lra.
  - split; [exact HMs | cbn; lra].
Qed.

End Elapsed.

(** The cumulative gain does not drop below one when no step factor does. *)
Lemma loop_gain_at_least_one {RNG : Type} (libm : Libm) (dist : Distributions RNG)
    (RK5 : RK.Tableau) (self : GenericPropagationModule) (type : CarrierType)
    (initial_time : Q) (fuel : nat) (pos : Vector3d) (rng : RNG)
    (s : LoopState RNG) :
  (forall ty e l, 1 <= multiplication_ self ty e l) ->
  loop libm dist RK5 self fuel type initial_time (loop_entry self pos rng) = Ok s ->
  1 <= gain s.
Proof.
  intros Hm Hloop.
  destruct (loop_invariant libm dist RK5 self type initial_time
              (fun s => 1 <= gain s))
    with (fuel := fuel) (s := loop_entry self pos rng) (s' := s)
    as [H _]; [| | exact Hloop | exact H].
  - intros s0 H0 _. rewrite body_gain.
    match goal with |- 1 <= _ * ?m => assert (1 <= m) by apply Hm end.
    nra.
  - cbn. lra.
Qed.

Lemma lround_at_least (n : Z) (q : Q) : inject_Z n <= q -> (n <= lround q)%Z.
Proof.
  intro H. unfold lround.
  destruct (Qle_bool 0 q) eqn:E.
  - rewrite <- (Qfloor_Z n). apply Qfloor_resp_le. lra.
  - apply Qle_bool_false in E.
    assert (Hn : (n < 0)%Z).
    { rewrite Zlt_Qlt. change (inject_Z 0) with 0. lra. }
    pose proof (Qfloor_le (- q + (1 # 2))) as F.
    pose proof (Qlt_floor (- q + (1 # 2))) as G.
    rewrite inject_Z_plus in G. change (inject_Z 1) with 1 in G.
    assert (K : inject_Z (Qfloor (- q + (1 # 2))) < inject_Z (- n + 1)).
    { rewrite inject_Z_plus, inject_Z_opp. change (inject_Z 1) with 1. lra. }
    rewrite <- Zlt_Qlt in K. lia.
Qed.

(** ** What [run] records and counts *)

Section RunInvariants.

Context {RNG : Type}.
Variable libm : Libm.
Variable dist : Distributions RNG.
Variable RK5 : RK.Tableau.
Variable self : GenericPropagationModule.

Lemma propagate_group_inv (fuel : nat) (d : DepositedCharge) (cps : Z)
    (st st' : RunState RNG) :
  propagate_group libm dist RK5 self fuel d cps st = Ok st' ->
  exists s : LoopState RNG,
    loop libm dist RK5 self fuel (getType d) (getLocalTime d)
         (loop_entry self (getLocalPosition d) (random_engine st)) = Ok s
    /\ propagated_charges st' = propagated_charges st ++ [group_record self d cps s]
    /\ log st' = log st ++ [Propagated_group cps (exit_position self s)
                              (RK.getTime (runge_kutta s)) (gain s) (state s)]
    /\ propagated_charges_count st' = to_uint (propagated_charges_count st + cps)
    /\ step_count st' = to_uint (step_count st + 1)
    /\ statistics st' = statistics st.
Proof.
  unfold propagate_group.
  match goal with
  | |- context [propagate ?a ?b ?c ?e ?f ?g ?h ?i ?j ?k ?l] =>
      destruct (propagate a b c e f g h i j k l) as [p| |] eqn:Hp
  end; cbn [bind]; try discriminate.
  destruct (propagate_inv _ _ _ _ _ _ _ _ _ _ _ _ Hp) as (s & Hloop & ->).
  intro H. injection H as <-. exists s. cbn.
  repeat split; try reflexivity. exact Hloop.
Qed.

Lemma charge_loop_preserves (P : RunState RNG -> Prop) (pfuel : nat)
    (d : DepositedCharge) :
  (forall cps st st1,
      P st -> propagate_group libm dist RK5 self pfuel d cps st = Ok st1 -> P st1) ->
  forall (fuel : nat) (remaining size : Z) (st st' : RunState RNG),
    P st ->
    charge_loop libm dist RK5 self pfuel fuel d remaining size st = Ok st' ->
    P st'.
Proof.
  intro Hstep. induction fuel as [|fuel IH]; intros remaining size st st' HP;
    cbn [charge_loop]; destruct (0 <? remaining)%Z; try discriminate;
    try (intro H; injection H as <-; exact HP).
  match goal with
  | |- context [propagate_group ?a ?b ?c ?e ?f ?g ?h ?i] =>
      destruct (propagate_group a b c e f g h i) as [st1| |] eqn:Hg
  end; cbn [bind]; try discriminate.
  apply IH. exact (Hstep _ _ _ HP Hg).
Qed.

(** A property of the locals of [run] that logging and counting a deposit
    keep, and that every group of a processed deposit keeps, holds after the
    loop over the deposits. *)
Lemma for_deposits_preserves (P : RunState RNG -> Prop) (fuel : nat)
    (deposits : list DepositedCharge) :
  (forall st m, logged_group m = [] -> P st -> P (add_log st m)) ->
  (forall st s, P st -> P (set_statistics st s)) ->
  (forall d cps st st1,
      In d deposits -> processed self d = true -> P st ->
      propagate_group libm dist RK5 self fuel d cps st = Ok st1 -> P st1) ->
  forall st st' : RunState RNG,
    P st -> for_deposits libm dist RK5 self fuel deposits st = Ok st' -> P st'.
Proof.
  intros Hlog Hstat Hgroup.
  induction deposits as [|d ds IH]; intros st st' HP; cbn [for_deposits].
  - intro H. injection H as <-. exact HP.
  - destruct (run_deposit libm dist RK5 self fuel d st) as [st1| |] eqn:Hd;
      cbn [bind]; try discriminate.
    apply IH.
    + intros d' cps s0 s1 Hin. apply Hgroup. right. exact Hin.
    + revert Hd. unfold run_deposit.
      destruct (skipped_type self d) eqn:Hty.
      { intro H. injection H as <-. apply Hlog; [reflexivity | exact HP]. }
      destruct (skipped_time self d) eqn:Hti.
      { intro H. injection H as <-. apply Hlog; [reflexivity | exact HP]. }
      destruct (group_size self d) as [[size inc]| |]; cbn [bind];
        try discriminate.
      apply charge_loop_preserves.
      * intros cps s0 s1. apply Hgroup; [left; reflexivity|].
        unfold processed. rewrite Hty, Hti. reflexivity.
      * destruct inc; [apply Hlog; [reflexivity|]|]; repeat apply Hstat; exact HP.
Qed.

Lemma logged_groups_snoc (l : list LogMsg) (m : LogMsg) :
  logged_groups (l ++ [m]) = logged_groups l ++ logged_group m.
Proof.
  unfold logged_groups. rewrite flat_map_app. cbn. rewrite app_nil_r. reflexivity.
Qed.

Lemma to_uint_add_l (a b : Z) : to_uint (to_uint a + b) = to_uint (a + b).
Proof. unfold to_uint. apply Zplus_mod_idemp_l. Qed.

(** The two counters of [run] that enter the totals of the module follow
    the log: the sizes of the groups, and their number. *)
Lemma for_deposits_counts (fuel : nat) (deposits : list DepositedCharge)
    (rng : RNG) (stats : Statistics) (st : RunState RNG) :
  for_deposits libm dist RK5 self fuel deposits (run_entry rng stats) = Ok st ->
  propagated_charges_count st
  = to_uint (Spec.sum (map fst (logged_groups (log st))))
  /\ step_count st = to_uint (Z.of_nat (List.length (propagated_charges st)))
  /\ List.length (propagated_charges st) = List.length (logged_groups (log st)).
Proof.
  apply (for_deposits_preserves
    (fun st =>
       propagated_charges_count st
       = to_uint (Spec.sum (map fst (logged_groups (log st))))
       /\ step_count st = to_uint (Z.of_nat (List.length (propagated_charges st)))
       /\ List.length (propagated_charges st)
          = List.length (logged_groups (log st)))).
  - intros s0 m Hm (H1 & H2 & H3). cbn [add_log log propagated_charges
      propagated_charges_count step_count].
    rewrite logged_groups_snoc, Hm, app_nil_r. repeat split; assumption.
  - intros s0 s (H1 & H2 & H3). cbn. repeat split; assumption.
  - intros d cps s0 s1 _ _ (H1 & H2 & H3) Hg.
    destruct (propagate_group_inv _ _ _ _ _ Hg) as (s & _ & E1 & E2 & E3 & E4 & _).
    rewrite E1, E2, E3, E4, H1, H2, logged_groups_snoc. cbn [logged_group].
    rewrite map_app, sum_app, !length_app, H3. cbn [map fst List.length Spec.sum
      fold_right].
    rewrite !to_uint_add_l, Nat2Z.inj_add. repeat split.
    f_equal. unfold Spec.sum. lia.
  - cbn. repeat split; reflexivity.
Qed.

Lemma charge_loop_statistics (pfuel fuel : nat) (d : DepositedCharge)
    (remaining size : Z) (st st' : RunState RNG) :
  charge_loop libm dist RK5 self pfuel fuel d remaining size st = Ok st' ->
  statistics st' = statistics st.
Proof.
  apply (charge_loop_preserves (fun s => statistics s = statistics st));
    [|reflexivity].
  intros cps s0 s1 H0 Hg.
  destruct (propagate_group_inv _ _ _ _ _ Hg) as (s & _ & _ & _ & _ & _ & E).
  congruence.
Qed.

Lemma for_deposits_statistics (fuel : nat) (deposits : list DepositedCharge) :
  forall st st' : RunState RNG,
    for_deposits libm dist RK5 self fuel deposits st = Ok st' ->
    statistics st' = fold_left (count_deposit self) deposits (statistics st).
Proof.
  induction deposits as [|d ds IH]; intros st st'; cbn [for_deposits fold_left].
  - intro H. injection H as <-. reflexivity.
  - destruct (run_deposit libm dist RK5 self fuel d st) as [st1| |] eqn:Hd;
      cbn [bind]; try discriminate.
    intro H. rewrite (IH _ _ H). f_equal.
    revert Hd. unfold run_deposit, count_deposit, processed, increased.
    destruct (skipped_type self d).
    { intro H1. injection H1 as <-. reflexivity. }
    destruct (skipped_time self d).
    { intro H1. injection H1 as <-. reflexivity. }
    destruct (group_size self d) as [[size inc]| |]; cbn [bind negb andb];
      try discriminate.
    intro H1. rewrite (charge_loop_statistics _ _ _ _ _ _ _ H1).
    destruct inc; reflexivity.
Qed.

Lemma wrap_small (bits z : Z) : (0 <= z < 2 ^ bits)%Z -> wrap bits z = z.
Proof. intro H. apply Z.mod_small. exact H. Qed.

Lemma wrap_add_l (bits a b : Z) : wrap bits (wrap bits a + b) = wrap bits (a + b).
Proof. unfold wrap. apply Zplus_mod_idemp_l. Qed.

Lemma fold_count_deposit (deposits : list DepositedCharge) (s : Statistics) :
  counters_in_range self s ->
  let s' := fold_left (count_deposit self) deposits s in
  total_deposits_ s'
  = wrap (total_deposits_bits (counter_bits_ self))
         (total_deposits_ s
          + Z.of_nat (List.length (filter (processed self) deposits)))
  /\ deposits_exceeding_max_groups_ s'
     = wrap (deposits_exceeding_max_groups_bits (counter_bits_ self))
            (deposits_exceeding_max_groups_ s
             + Z.of_nat (List.length
                 (filter (fun d => processed self d && increased self d) deposits)))
  /\ total_propagated_charges_ s' = total_propagated_charges_ s
  /\ total_steps_ s' = total_steps_ s
  /\ total_time_picoseconds_ s' = total_time_picoseconds_ s.
Proof.
  intros (R1 & R2 & _). cbv zeta.
  enough (H : forall s0,
    let s' := fold_left (count_deposit self) deposits s0 in
    wrap (total_deposits_bits (counter_bits_ self)) (total_deposits_ s0)
      = total_deposits_ s0 ->
    wrap (deposits_exceeding_max_groups_bits (counter_bits_ self))
         (deposits_exceeding_max_groups_ s0)
      = deposits_exceeding_max_groups_ s0 ->
    total_deposits_ s'
    = wrap (total_deposits_bits (counter_bits_ self))
           (total_deposits_ s0
            + Z.of_nat (List.length (filter (processed self) deposits)))
    /\ deposits_exceeding_max_groups_ s'
       = wrap (deposits_exceeding_max_groups_bits (counter_bits_ self))
              (deposits_exceeding_max_groups_ s0
               + Z.of_nat (List.length
                   (filter (fun d => processed self d && increased self d)
                           deposits)))
    /\ total_propagated_charges_ s' = total_propagated_charges_ s0
    /\ total_steps_ s' = total_steps_ s0
    /\ total_time_picoseconds_ s' = total_time_picoseconds_ s0).
  { apply H; apply wrap_small; assumption. }
  induction deposits as [|d ds IH]; intros s0; cbn [fold_left filter].
  - cbn [List.length Z.of_nat]. rewrite !Z.add_0_r. intros W1 W2.
    repeat split; congruence.
  - intros W1 W2. cbv zeta in IH.
    destruct (IH (count_deposit self s0 d)) as (H1 & H2 & H3 & H4 & H5).
    + unfold count_deposit. destruct (processed self d); [|exact W1].
      cbn [total_deposits_]. unfold wrap. apply Zmod_mod.
    + unfold count_deposit. destruct (processed self d); [|exact W2].
      cbn [deposits_exceeding_max_groups_].
      destruct (increased self d); [|exact W2]. unfold wrap. apply Zmod_mod.
    + rewrite H1, H2, H3, H4, H5. unfold count_deposit.
      destruct (processed self d); cbn [andb]; [|repeat split; reflexivity].
      destruct (increased self d); cbn [List.length total_deposits_
        deposits_exceeding_max_groups_ total_propagated_charges_ total_steps_
        total_time_picoseconds_]; rewrite ?wrap_add_l; repeat split;
        f_equal; lia.
Qed.

(** Every record stems from a group of a processed deposit of the event. *)
Lemma for_deposits_records (fuel : nat) (deposits : list DepositedCharge)
    (rng : RNG) (stats : Statistics) (st : RunState RNG) :
  for_deposits libm dist RK5 self fuel deposits (run_entry rng stats) = Ok st ->
  Forall (from_deposit libm dist RK5 self deposits) (propagated_charges st).
Proof.
  apply (for_deposits_preserves
    (fun st => Forall (from_deposit libm dist RK5 self deposits)
                 (propagated_charges st))).
  - intros s0 m _ H. exact H.
  - intros s0 s H. exact H.
  - intros d cps s0 s1 Hin Hproc H Hg.
    destruct (propagate_group_inv _ _ _ _ _ Hg) as (s & Hloop & E & _).
    rewrite E. apply Forall_app. split; [exact H|].
    constructor; [|constructor].
    exists d, cps, fuel, (random_engine s0), s. repeat split; assumption.
  - constructor.
Qed.

End RunInvariants.

(** X1. The counters of the module after an event, for counters that held
    values of their types before it: each has grown, in the arithmetic of
    its unsigned type, by the number of processed deposits, by the number
    of those whose group size was increased, by the carriers propagated and
    by the number of groups, the latter two as the 32-bit locals of [run]
    hold them. *)
Theorem run_updates_counters :
  forall (RNG : Type) (libm : Libm) (dist : Distributions RNG) (RK5 : RK.Tableau)
         (self : GenericPropagationModule) (deposits : list DepositedCharge)
         (rng : RNG) (stats : Statistics) (fuel : nat),
    advances self ->
    (0 < charge_per_step_ self < 2 ^ 32)%Z ->
    (0 <= max_charge_groups_ self)%Z ->
    Forall (fun d => (0 <= getCharge d < 2 ^ 32)%Z) deposits ->
    counters_in_range self stats ->
    (fuel_for self deposits <= fuel)%nat ->
    exists out : RunOutput,
      run libm dist RK5 self fuel deposits rng stats = Ok out
      /\ total_deposits_ (counters out)
         = wrap (total_deposits_bits (counter_bits_ self))
                (total_deposits_ stats
                 + Z.of_nat (List.length (filter (processed self) deposits)))
      /\ deposits_exceeding_max_groups_ (counters out)
         = wrap (deposits_exceeding_max_groups_bits (counter_bits_ self))
                (deposits_exceeding_max_groups_ stats
                 + Z.of_nat (List.length
                     (filter (fun d => processed self d && increased self d)
                             deposits)))
      /\ total_propagated_charges_ (counters out)
         = wrap (total_propagated_charges_bits (counter_bits_ self))
                (total_propagated_charges_ stats
                 + to_uint (Spec.sum (map getCharge
                                          (filter (processed self) deposits))))
      /\ total_steps_ (counters out)
         = wrap (total_steps_bits (counter_bits_ self))
                (total_steps_ stats
                 + to_uint (Z.of_nat (List.length (message out)))).
Proof.
  intros RNG libm dist RK5 self deposits rng stats fuel Hadv Hsize Hcap HC Hrange
         Hfuel.
  destruct (for_deposits_adds libm dist RK5 self Hadv Hsize Hcap fuel deposits
              HC Hfuel (run_entry rng stats))
    as (st & Hrun & recs & lg & _ & A2 & A3 & _).
  cbn in A2. subst lg.
  destruct (for_deposits_counts _ _ _ _ _ _ _ _ _ Hrun) as (C1 & C2 & _).
  pose proof (for_deposits_statistics _ _ _ _ _ _ _ _ Hrun) as Hs.
  cbn [run_entry statistics] in Hs.
  destruct (fold_count_deposit self deposits stats Hrange)
    as (F1 & F2 & F3 & F4 & _).
  unfold run. rewrite Hrun. cbn [bind]. eexists. split; [reflexivity|].
  cbn [counters message total_deposits_ deposits_exceeding_max_groups_
       total_propagated_charges_ total_steps_].
  rewrite Hs, F1, F2, F3, F4, C1, C2, A3.
  rewrite (plan_sum self Hsize Hcap deposits HC).
  repeat split; reflexivity.
Qed.

Lemma run_updates_counters_witness :
  let self := Fixture.plain 1 1 1 2 10 2 false 1 in
  let deposits := [Fixture.electrons 25 0 0; Fixture.electrons 0 0 0;
                   Fixture.electrons 7 0 3; Fixture.electrons 50 0 1] in
  let stats := Fixture.full_statistics in
  exists out,
    run Fixture.libm Fixture.dist (Fixture.euler V.zero) self 50 deposits
      ([] : Fixture.RNG) stats = Ok out
    /\ total_deposits_ (counters out)
       = wrap 32 (total_deposits_ stats
                  + Z.of_nat (List.length (filter (processed self) deposits)))
    /\ deposits_exceeding_max_groups_ (counters out)
       = wrap 32 (deposits_exceeding_max_groups_ stats
                  + Z.of_nat (List.length
                      (filter (fun d => processed self d && increased self d)
                              deposits)))
    /\ total_propagated_charges_ (counters out)
       = wrap 32 (total_propagated_charges_ stats
                  + to_uint (Spec.sum (map getCharge
                                           (filter (processed self) deposits))))
    /\ total_steps_ (counters out)
       = wrap 32 (total_steps_ stats
                  + to_uint (Z.of_nat (List.length (message out)))).
Proof.
  cbv zeta.
  refine (run_updates_counters Fixture.RNG Fixture.libm Fixture.dist
            (Fixture.euler V.zero) (Fixture.plain 1 1 1 2 10 2 false 1)
            [Fixture.electrons 25 0 0; Fixture.electrons 0 0 0;
             Fixture.electrons 7 0 3; Fixture.electrons 50 0 1]
            [] Fixture.full_statistics 50 _ _ _ _ _ _).
  - split; [repeat split; reflexivity | intros ? ? ? ? ? H; discriminate H].
  - split; reflexivity.
  - discriminate.
  - repeat constructor; discriminate.
  - unfold counters_in_range. cbn. repeat split; try discriminate; reflexivity.
  - vm_compute. apply le_n.
Defined.

(** The counters of that event: three deposits processed, one of them with
    an increased group size (50 carriers, cap 2), 75 carriers in 5 groups.
    Counters that start from zero hold these numbers; counters that were
    one below the largest value of their type have wrapped around. *)
Example counters_of_an_event :
  let self := Fixture.plain 1 1 1 2 10 2 false 1 in
  let deposits := [Fixture.electrons 25 0 0; Fixture.electrons 0 0 0;
                   Fixture.electrons 7 0 3; Fixture.electrons 50 0 1] in
  (exists out,
     run Fixture.libm Fixture.dist (Fixture.euler V.zero) self 50 deposits
       ([] : Fixture.RNG) Fixture.no_statistics = Ok out
     /\ total_deposits_ (counters out) = 3%Z
     /\ deposits_exceeding_max_groups_ (counters out) = 1%Z
     /\ total_propagated_charges_ (counters out) = 75%Z
     /\ total_steps_ (counters out) = 5%Z)
  /\ (exists out,
        run Fixture.libm Fixture.dist (Fixture.euler V.zero) self 50 deposits
          ([] : Fixture.RNG) Fixture.full_statistics = Ok out
        /\ total_deposits_ (counters out) = 2%Z
        /\ deposits_exceeding_max_groups_ (counters out) = 0%Z
        /\ total_propagated_charges_ (counters out) = 74%Z
        /\ total_steps_ (counters out) = 4%Z).
Proof.
  cbv zeta.
  split; eexists; (split; [vm_compute; reflexivity|]); repeat split; reflexivity.
Qed.

(** X2. Every record [run] dispatches belongs to a deposit of the event
    that passed both tests (its carrier type is propagated, its local time
    is not beyond the integration time); it carries that deposit's carrier
    type, a state other than UNKNOWN, the global image of its local
    position, and local and global times that are the deposit's, both
    shifted by the same transport time, which is not negative. *)
Theorem run_records_follow_deposits :
  forall (RNG : Type) (libm : Libm) (dist : Distributions RNG) (RK5 : RK.Tableau)
         (self : GenericPropagationModule) (deposits : list DepositedCharge)
         (rng : RNG) (stats : Statistics) (fuel : nat),
    advances self ->
    (0 < charge_per_step_ self < 2 ^ 32)%Z ->
    (0 <= max_charge_groups_ self)%Z ->
    Forall (fun d => (0 <= getCharge d < 2 ^ 32)%Z) deposits ->
    (fuel_for self deposits <= fuel)%nat ->
    exists out : RunOutput,
      run libm dist RK5 self fuel deposits rng stats = Ok out
      /\ Forall
           (fun pc =>
              let d := PropagatedCharge.deposit pc in
              In d deposits
              /\ match getType d with
                 | ELECTRON => propagate_electrons_ self
                 | HOLE => propagate_holes_ self
                 end = true
              /\ getLocalTime d <= integration_time_ self
              /\ PropagatedCharge.type pc = getType d
              /\ PropagatedCharge.state pc <> UNKNOWN
              /\ PropagatedCharge.global_position pc
                 = getGlobalPosition (detector_ self)
                     (PropagatedCharge.local_position pc)
              /\ getLocalTime d <= PropagatedCharge.local_time pc
              /\ PropagatedCharge.global_time pc - PropagatedCharge.local_time pc
                 == getGlobalTime d - getLocalTime d)
           (message out).
Proof.
  intros RNG libm dist RK5 self deposits rng stats fuel Hadv Hsize Hcap HC Hfuel.
  destruct (for_deposits_adds libm dist RK5 self Hadv Hsize Hcap fuel deposits
              HC Hfuel (run_entry rng stats)) as (st & Hrun & _).
  pose proof (for_deposits_records _ _ _ _ _ _ _ _ _ Hrun) as Hrec.
  unfold run. rewrite Hrun. cbn [bind]. eexists. split; [reflexivity|].
  cbn [message]. revert Hrec. apply Forall_impl.
  intros pc (d & cps & fuel' & rng' & s & Hin & Hproc & Hloop & ->).
  cbn [group_record PropagatedCharge.deposit PropagatedCharge.type
       PropagatedCharge.state PropagatedCharge.global_position
       PropagatedCharge.local_position PropagatedCharge.local_time
       PropagatedCharge.global_time].
  unfold processed, skipped_type, skipped_time in Hproc.
  apply andb_true_iff in Hproc as [Hty Hti].
  apply negb_true_iff in Hty, Hti. apply Qltb_false in Hti.
  split; [exact Hin|]. split.
  { destruct (getType d); cbn in Hty;
      [destruct (propagate_electrons_ self) | destruct (propagate_holes_ self)];
      cbn in Hty; congruence. }
  split; [exact Hti|]. split; [reflexivity|].
  split; [exact (loop_state_known _ _ _ _ _ _ _ _ _ _ Hloop)|].
  split; [reflexivity|].
  destruct (loop_time_nonneg _ _ _ _ _ _ Hadv _ _ _ _ Hloop) as [H0 _].
  split; [lra | ring].
Qed.

Lemma run_records_follow_deposits_witness :
  let self := Fixture.plain 1 1 1 2 10 2 false 1 in
  let deposits := [Fixture.electrons 25 0 0; Fixture.electrons 7 0 3] in
  exists out,
    run Fixture.libm Fixture.dist (Fixture.euler V.zero) self 25 deposits
      ([] : Fixture.RNG) Fixture.no_statistics = Ok out
    /\ Forall
         (fun pc =>
            In (PropagatedCharge.deposit pc) deposits
            /\ match getType (PropagatedCharge.deposit pc) with
               | ELECTRON => propagate_electrons_ self
               | HOLE => propagate_holes_ self
               end = true
            /\ getLocalTime (PropagatedCharge.deposit pc) <= integration_time_ self
            /\ PropagatedCharge.type pc = getType (PropagatedCharge.deposit pc)
            /\ PropagatedCharge.state pc <> UNKNOWN
            /\ PropagatedCharge.global_position pc
               = getGlobalPosition (detector_ self)
                   (PropagatedCharge.local_position pc)
            /\ getLocalTime (PropagatedCharge.deposit pc)
               <= PropagatedCharge.local_time pc
            /\ PropagatedCharge.global_time pc - PropagatedCharge.local_time pc
               == getGlobalTime (PropagatedCharge.deposit pc)
                  - getLocalTime (PropagatedCharge.deposit pc))
         (message out).
Proof.
  cbv zeta.
  refine (run_records_follow_deposits Fixture.RNG Fixture.libm Fixture.dist
            (Fixture.euler V.zero) (Fixture.plain 1 1 1 2 10 2 false 1)
            [Fixture.electrons 25 0 0; Fixture.electrons 7 0 3]
            [] Fixture.no_statistics 25 _ _ _ _ _).
  - split; [repeat split; reflexivity | intros ? ? ? ? ? H; discriminate H].
  - split; reflexivity.
  - discriminate.
  - repeat constructor; discriminate.
  - vm_compute. apply le_n.
Defined.

(** X3. With timestep_min <= timestep_max no carrier group is tracked
    further than one step beyond the integration time: the local time of
    every record is below integration_time plus the larger of timestep_start
    and timestep_max. *)
Theorem run_records_within_one_step :
  forall (RNG : Type) (libm : Libm) (dist : Distributions RNG) (RK5 : RK.Tableau)
         (self : GenericPropagationModule) (deposits : list DepositedCharge)
         (rng : RNG) (stats : Statistics) (fuel : nat),
    advances self ->
    timestep_min_ self <= timestep_max_ self ->
    (0 < charge_per_step_ self < 2 ^ 32)%Z ->
    (0 <= max_charge_groups_ self)%Z ->
    Forall (fun d => (0 <= getCharge d < 2 ^ 32)%Z) deposits ->
    (fuel_for self deposits <= fuel)%nat ->
    exists out : RunOutput,
      run libm dist RK5 self fuel deposits rng stats = Ok out
      /\ Forall
           (fun pc =>
              PropagatedCharge.local_time pc
              < integration_time_ self
                + Qmax (timestep_start_ self) (timestep_max_ self))
           (message out).
Proof.
  intros RNG libm dist RK5 self deposits rng stats fuel Hadv Hmm Hsize Hcap HC
         Hfuel.
  destruct (for_deposits_adds libm dist RK5 self Hadv Hsize Hcap fuel deposits
              HC Hfuel (run_entry rng stats)) as (st & Hrun & _).
  pose proof (for_deposits_records _ _ _ _ _ _ _ _ _ Hrun) as Hrec.
  unfold run. rewrite Hrun. cbn [bind]. eexists. split; [reflexivity|].
  cbn [message]. revert Hrec. apply Forall_impl.
  intros pc (d & cps & fuel' & rng' & s & Hin & Hproc & Hloop & ->).
  cbn [group_record PropagatedCharge.local_time].
  unfold processed, skipped_time in Hproc.
  apply andb_true_iff in Hproc as [_ Hti].
  apply negb_true_iff in Hti. apply Qltb_false in Hti.
  exact (loop_time_overshoot _ _ _ _ _ _ Hadv Hmm _ _ _ _ Hti Hloop).
Qed.

Lemma run_records_within_one_step_witness :
  let self := Fixture.plain (1 # 1000) 1 1 2 10 2 false 1 in
  let deposits := [Fixture.electrons 25 0 0; Fixture.electrons 7 0 3] in
  exists out,
    run Fixture.libm Fixture.dist (Fixture.euler V.zero) self 2000 deposits
      ([] : Fixture.RNG) Fixture.no_statistics = Ok out
    /\ Forall
         (fun pc =>
            PropagatedCharge.local_time pc
            < integration_time_ self
              + Qmax (timestep_start_ self) (timestep_max_ self))
         (message out).
Proof.
  cbv zeta.
  refine (run_records_within_one_step Fixture.RNG Fixture.libm Fixture.dist
            (Fixture.euler V.zero) (Fixture.plain (1 # 1000) 1 1 2 10 2 false 1)
            [Fixture.electrons 25 0 0; Fixture.electrons 7 0 3]
            [] Fixture.no_statistics 2000 _ _ _ _ _ _).
  - split; [repeat split; reflexivity | intros ? ? ? ? ? H; discriminate H].
  - discriminate.
  - split; reflexivity.
  - discriminate.
  - repeat constructor; discriminate.
  - vm_compute. apply Nat.leb_le. vm_compute. reflexivity.
Defined.

(** X4. When no step factor of the multiplication model is below one, the
    cumulative gain the stepping loop ends with, which [propagate] returns,
    is at least one, and the charge [run] records for a group of
    [charge_per_step >= 0] carriers, the conversion to [unsigned int] of
    lround(charge_per_step * gain), is at least [charge_per_step] whenever
    the rounded product is below 2^32. *)
Theorem propagate_gain_at_least_one :
  forall (RNG : Type) (libm : Libm) (dist : Distributions RNG) (RK5 : RK.Tableau)
         (self : GenericPropagationModule) (deposit : DepositedCharge)
         (charge_per_step : Z) (st : RunState RNG) (fuel : nat),
    advances self ->
    (forall ty efield_mag step, 1 <= multiplication_ self ty efield_mag step) ->
    (0 <= charge_per_step)%Z ->
    (enough_fuel self (getLocalTime deposit) <= fuel)%nat ->
    exists (s : LoopState RNG) (st' : RunState RNG) (pc : PropagatedCharge.t),
      loop libm dist RK5 self fuel (getType deposit) (getLocalTime deposit)
           (loop_entry self (getLocalPosition deposit) (random_engine st)) = Ok s
      /\ propagate_group libm dist RK5 self fuel deposit charge_per_step st = Ok st'
      /\ propagated_charges st' = propagated_charges st ++ [pc]
      /\ 1 <= gain s
      /\ ((lround (inject_Z charge_per_step * gain s) < 2 ^ 32)%Z ->
          (charge_per_step <= PropagatedCharge.charge pc)%Z).
Proof.
  intros RNG libm dist RK5 self deposit cps st fuel Hadv Hmult Hn Hfuel.
  set (plot := if output_linegraphs_ self
               then output_plot_points st
                      ++ [(getGlobalTime deposit, cps, getType deposit, MOTION)]
               else output_plot_points st).
  destruct (propagate_returns libm dist RK5 self (getLocalPosition deposit)
              (getType deposit) (getLocalTime deposit) (random_engine st) plot
              cps fuel Hadv Hfuel) as (s & Hloop & Hprop).
  pose proof (loop_gain_at_least_one _ _ _ _ _ _ _ _ _ _ Hmult Hloop) as Hg.
  exists s. unfold propagate_group. fold plot. rewrite Hprop. cbn [bind].
  do 2 eexists. split; [exact Hloop|]. split; [reflexivity|].
  cbn [propagated_charges]. split; [reflexivity|]. split; [exact Hg|].
  cbn [PropagatedCharge.charge loop_exit final_gain].
  intro Hfit.
  assert (Hle : (cps <= lround (inject_Z cps * gain s))%Z).
  { apply lround_at_least.
    assert (0 <= inject_Z cps)
      by (change 0 with (inject_Z 0); rewrite <- Zle_Qle; exact Hn).
    nra. }
  rewrite to_uint_small; [exact Hle | lia].
Qed.

Lemma propagate_gain_at_least_one_witness :
  let self := Fixture.multiplying 2 (Fixture.plain 1 1 1 2 10 2 false 1) in
  let deposit := Fixture.electrons 25 0 0 in
  let st := run_entry ([] : Fixture.RNG) Fixture.no_statistics in
  exists s st' pc,
    loop Fixture.libm Fixture.dist (Fixture.euler V.zero) self 2 ELECTRON 0
         (loop_entry self (Vec 0 0 0) []) = Ok s
    /\ propagate_group Fixture.libm Fixture.dist (Fixture.euler V.zero) self 2
         deposit 10 st = Ok st'
    /\ propagated_charges st' = propagated_charges st ++ [pc]
    /\ 1 <= gain s
    /\ ((lround (inject_Z 10 * gain s) < 2 ^ 32)%Z ->
        (10 <= PropagatedCharge.charge pc)%Z).
Proof.
  cbv zeta.
  refine (propagate_gain_at_least_one Fixture.RNG Fixture.libm Fixture.dist
            (Fixture.euler V.zero)
            (Fixture.multiplying 2 (Fixture.plain 1 1 1 2 10 2 false 1))
            (Fixture.electrons 25 0 0) 10
            (run_entry ([] : Fixture.RNG) Fixture.no_statistics) 2 _ _ _ _).
  - split; [repeat split; reflexivity | intros ? ? ? ? ? H; discriminate H].
  - intros. cbn. discriminate.
  - discriminate.
  - vm_compute. apply le_n.
Defined.

(** In that example the gain is 4 after two steps and the group of 10 is
    recorded with charge 40.  With a single step of factor 2^31 the rounded
    product of a group of 2 carriers is 2^32, which no longer fits: the
    group is recorded with charge 0. *)
Example recorded_charge_of_a_multiplied_group :
  let deposit := Fixture.electrons 25 0 0 in
  let st := run_entry ([] : Fixture.RNG) Fixture.no_statistics in
  (exists st',
     propagate_group Fixture.libm Fixture.dist (Fixture.euler V.zero)
       (Fixture.multiplying 2 (Fixture.plain 1 1 1 2 10 2 false 1)) 2
       deposit 10 st = Ok st'
     /\ map PropagatedCharge.charge (propagated_charges st') = [40%Z])
  /\ (exists st',
        propagate_group Fixture.libm Fixture.dist (Fixture.euler V.zero)
          (Fixture.multiplying (inject_Z (2 ^ 31))
             (Fixture.plain 1 1 1 1 10 2 false 1)) 2
          deposit 2 st = Ok st'
        /\ map (fun m => match m with
                         | Propagated_group _ _ _ gain _ => [gain]
                         | _ => []
                         end) (log st') = [[inject_Z (2 ^ 31)]]
        /\ map PropagatedCharge.charge (propagated_charges st') = [0%Z]).
Proof.
  cbv zeta. split; eexists; (split; [vm_compute; reflexivity|]);
    repeat split; reflexivity.
Qed.

(** X5. Where the magnetic field vanishes, the evaluator for a magnetic
    field returns, coordinate by coordinate, the drift velocity
    sign . mobility . E of the evaluator without one, so that the velocity
    the stepper integrates does not depend on [has_magnetic_field_]. *)
Theorem velocity_without_magnetic_field :
  forall (libm : Libm) (self : GenericPropagationModule) (type : CarrierType)
         (t : Q) (cur_pos : Vector3d),
    getMagneticField (detector_ self) cur_pos = V.zero ->
    (carrier_velocity_withB libm self type t cur_pos
     == carrier_velocity_noB libm self type t cur_pos)%vec
    /\ (carrier_velocity libm self type t cur_pos
        == carrier_velocity_noB libm self type t cur_pos)%vec.
Proof.
  intros libm self type t cur_pos HB.
  pose proof (carrier_velocity_withB_zero_field libm self type t cur_pos HB) as H.
  split; [exact H|]. unfold carrier_velocity.
  destruct (has_magnetic_field_ self); [exact H | apply eqv_refl].
Qed.

Lemma velocity_without_magnetic_field_witness :
  let self := Fixture.magnetic (Fixture.plain 1 1 1 2 10 2 false 3) in
  has_magnetic_field_ self = true
  /\ (carrier_velocity_withB Fixture.libm self ELECTRON 0 (Vec 0 0 1)
      == carrier_velocity_noB Fixture.libm self ELECTRON 0 (Vec 0 0 1))%vec
  /\ (carrier_velocity Fixture.libm self ELECTRON 0 (Vec 0 0 1)
      == carrier_velocity_noB Fixture.libm self ELECTRON 0 (Vec 0 0 1))%vec.
Proof.
  cbv zeta. split; [reflexivity|].
  refine (velocity_without_magnetic_field Fixture.libm
            (Fixture.magnetic (Fixture.plain 1 1 1 2 10 2 false 3))
            ELECTRON 0 (Vec 0 0 1) _).
  reflexivity.
Defined.

(** ** The recombination models *)

Lemma srh_lifetime_pos (d : Recombination.SRHData) (type : CarrierType) (doping : Q) :
  positive_srh d -> 0 < Recombination.srh_lifetime d type doping.
Proof.
  intros (H1 & H2 & H3 & H4 & H5). unfold Recombination.srh_lifetime.
  pose proof (Qabs_nonneg doping) as Ha.
  destruct (CarrierType_eqb type ELECTRON).
  - assert (0 <= Qabs doping / Recombination.electron_doping_reference_ d).
    { apply Qle_shift_div_l; [exact H2 | lra]. }
    apply Qmult_lt_0_compat; [|exact H5].
    apply Qlt_shift_div_l; lra.
  - assert (0 <= Qabs doping / Recombination.hole_doping_reference_ d).
    { apply Qle_shift_div_l; [exact H4 | lra]. }
    apply Qmult_lt_0_compat; [|exact H5].
    apply Qlt_shift_div_l; lra.
Qed.

(** The inverse of the Auger lifetime is the Auger rate, also where the
    rate vanishes. *)
Lemma auger_rate (c doping : Q) :
  1 / Recombination.auger_lifetime c doping == c * doping * doping.
Proof.
  unfold Recombination.auger_lifetime, Qdiv. rewrite !Qmult_1_l.
  apply Qinv_involutive.
Qed.

Lemma auger_rate_nonneg (c doping : Q) : 0 <= c -> 0 <= c * doping * doping.
Proof. intro H. nra. Qed.

(** The test of a model fires all the more the larger the exponent
    timestep / lifetime is. *)
Lemma decays_monotone (m : Libm) (u t1 l1 t2 l2 : Q) :
  monotone_exp m ->
  -1 * t2 / l2 <= -1 * t1 / l1 -> -1 * t1 / l1 <= 0 ->
  Recombination.decays m u t1 l1 = true ->
  Recombination.decays m u t2 l2 = true.
Proof.
  intros Hexp H12 H1. unfold Recombination.decays. rewrite !Qltb_true.
  pose proof (Hexp _ _ H12 H1). lra.
Qed.

Lemma exponent_scale (t l : Q) : 0 < l -> -1 * t / l == - (t * / l).
Proof. intro H. field. lra. Qed.

Lemma exponent_monotone (t t' l : Q) :
  0 < l -> 0 <= t -> t <= t' ->
  -1 * t' / l <= -1 * t / l /\ -1 * t / l <= 0.
Proof.
  intros Hl Ht Htt. rewrite !exponent_scale by exact Hl.
  assert (0 < / l) by (apply Qinv_lt_0_compat; exact Hl).
  split; nra.
Qed.

(** The combined lifetime: its inverse is the sum of the two rates. *)
Lemma combined_exponent (d : Recombination.SRHData) (c : Q) (type : CarrierType)
    (doping t : Q) :
  positive_srh d -> 0 <= c ->
  let ls := Recombination.srh_lifetime d type doping in
  let la := Recombination.auger_lifetime c doping in
  -1 * t / (1 / (1 / ls + 1 / la)) == - (t * (/ ls + c * doping * doping)).
Proof.
  intros Hd Hc ls la.
  pose proof (srh_lifetime_pos d type doping Hd) as Hls. fold ls in Hls.
  pose proof (auger_rate c doping) as Ha. fold la in Ha.
  pose proof (auger_rate_nonneg c doping Hc) as Hn.
  assert (Hi : 0 < / ls) by (apply Qinv_lt_0_compat; exact Hls).
  assert (E : 1 / ls + 1 / la == / ls + c * doping * doping).
  { rewrite Ha. unfold Qdiv. ring. }
  rewrite E. unfold Qdiv. rewrite Qmult_1_l, Qinv_involutive. ring.
Qed.

Lemma auger_exponent (c doping t : Q) :
  -1 * t / Recombination.auger_lifetime c doping == - (t * (c * doping * doping)).
Proof.
  unfold Recombination.auger_lifetime, Qdiv.
  rewrite Qmult_1_l, Qinv_involutive. ring.
Qed.

(** X6. Auger recombination leaves majority carriers alone (electrons for a
    positive doping concentration, holes otherwise), and for them the
    combined model is the Shockley-Read-Hall model. *)
Theorem auger_spares_majority_carriers :
  forall (libm : Libm) (d : Recombination.SRHData) (c doping survival_prob timestep : Q),
    let type := majorityType doping in
    type = (if Qltb 0 doping then ELECTRON else HOLE)
    /\ Recombination.call libm (Recombination.Auger c) type doping survival_prob
         timestep = false
    /\ Recombination.call libm (Recombination.ShockleyReadHallAuger d c) type doping
         survival_prob timestep
       = Recombination.call libm (Recombination.ShockleyReadHall d) type doping
           survival_prob timestep.
Proof.
  intros libm d c doping u t type. unfold type, majorityType.
  unfold Recombination.call, Recombination.minorityType.
  destruct (Qltb 0 doping); cbn; repeat split; reflexivity.
Qed.

(** X7. The combined model recombines a carrier whenever one of its two
    components does on the same draw: its lifetime is the harmonic
    combination of theirs. *)
Theorem combined_recombines_with_either :
  forall (libm : Libm) (d : Recombination.SRHData) (c : Q) (type : CarrierType)
         (doping survival_prob timestep : Q),
    monotone_exp libm -> positive_srh d -> 0 <= c -> 0 <= timestep ->
    Recombination.call libm (Recombination.ShockleyReadHall d) type doping
      survival_prob timestep = true
    \/ Recombination.call libm (Recombination.Auger c) type doping survival_prob
         timestep = true ->
    Recombination.call libm (Recombination.ShockleyReadHallAuger d c) type doping
      survival_prob timestep = true.
Proof.
  intros libm d c type doping u t Hexp Hd Hc Ht.
  unfold Recombination.call.
  destruct (negb (CarrierType_eqb (Recombination.minorityType doping) type)).
  { intros [H|H]; [exact H | discriminate H]. }
  pose proof (srh_lifetime_pos d type doping Hd) as Hls.
  pose proof (auger_rate_nonneg c doping Hc) as Hn.
  assert (Hi : 0 < / Recombination.srh_lifetime d type doping)
    by (apply Qinv_lt_0_compat; exact Hls).
  pose proof (combined_exponent d c type doping t Hd Hc) as Ec. cbv zeta in Ec.
  intros [H|H]; revert H; apply decays_monotone; try exact Hexp.
  - rewrite Ec, exponent_scale by exact Hls. nra.
  - rewrite exponent_scale by exact Hls. nra.
  - rewrite Ec, auger_exponent. nra.
  - rewrite auger_exponent. nra.
Qed.

(** X8. For every model, a carrier that recombines in a step recombines, on
    the same draw, in any longer step. *)
Theorem recombination_monotone_in_timestep :
  forall (libm : Libm) (model : Recombination.Model) (type : CarrierType)
         (doping survival_prob timestep timestep' : Q),
    monotone_exp libm -> positive_parameters model ->
    0 <= timestep -> timestep <= timestep' ->
    Recombination.call libm model type doping survival_prob timestep = true ->
    Recombination.call libm model type doping survival_prob timestep' = true.
Proof.
  intros libm model type doping u t t' Hexp Hpos Ht Htt.
  destruct model as [|d|c|d c|e h]; cbn [Recombination.call positive_parameters] in *.
  - discriminate.
  - apply decays_monotone; [exact Hexp| |];
      apply (exponent_monotone t t'); try assumption;
      apply srh_lifetime_pos; exact Hpos.
  - destruct (negb (CarrierType_eqb (Recombination.minorityType doping) type));
      [discriminate|].
    pose proof (auger_rate_nonneg c doping Hpos).
    apply decays_monotone; [exact Hexp| |]; rewrite !auger_exponent; nra.
  - destruct Hpos as [Hd Hc].
    destruct (negb (CarrierType_eqb (Recombination.minorityType doping) type)).
    + apply decays_monotone; [exact Hexp| |];
        apply (exponent_monotone t t'); try assumption;
        apply srh_lifetime_pos; exact Hd.
    + pose proof (srh_lifetime_pos d type doping Hd) as Hls.
      pose proof (auger_rate_nonneg c doping Hc).
      assert (Hi : 0 < / Recombination.srh_lifetime d type doping)
        by (apply Qinv_lt_0_compat; exact Hls).
      pose proof (combined_exponent d c type doping t Hd Hc) as E1.
      pose proof (combined_exponent d c type doping t' Hd Hc) as E2.
      cbv zeta in E1, E2.
      apply decays_monotone; [exact Hexp| |]; rewrite ?E1, ?E2; nra.
  - destruct Hpos as [He Hh].
    apply decays_monotone; [exact Hexp| |];
      apply (exponent_monotone t t'); try assumption;
      destruct (CarrierType_eqb type ELECTRON); assumption.
Qed.

(** X9. The constructor reads recombination_model, then temperature, then,
    for "constant", the two lifetimes.  It builds a model exactly when none
    of the keys it reads is missing and the name is "none" or "constant",
    or one of [doping_models] with a doping profile present.  With a key
    missing it is left by the MissingKeyError of such a key, which is not
    turned into an InvalidValueError.  With all keys set, every other
    request (an unknown name, or a model of [doping_models] without doping
    profile) ends in an InvalidValueError for the key recombination_model.
    "combined" and "srh_auger" name the same model. *)
Theorem factory_accepts :
  forall (libm : Libm) (units : Q -> string -> Q) (lifetime_hole_first : bool)
         (config : Recombination.Configuration) (doping : bool),
    let result :=
      Recombination.factory libm units lifetime_hole_first config doping in
    ((exists model, result = inl model)
     <-> missing_keys config = []
         /\ exists name,
              Recombination.recombination_model config = Some name
              /\ (name = "none"%string \/ name = "constant"%string
                  \/ (In name doping_models /\ doping = true)))
    /\ ((exists key, result = inr (Recombination.MissingKeyError key))
        <-> missing_keys config <> [])
    /\ (forall key,
          result = inr (Recombination.MissingKeyError key) ->
          In key (missing_keys config))
    /\ (result = inr (Recombination.InvalidValueError "recombination_model")
        <-> missing_keys config = []
            /\ exists name,
                 Recombination.recombination_model config = Some name
                 /\ name <> "none"%string /\ name <> "constant"%string
                 /\ (In name doping_models -> doping = false))
    /\ Recombination.factory libm units lifetime_hole_first
         (with_model config "combined") doping
       = Recombination.factory libm units lifetime_hole_first
           (with_model config "srh_auger") doping.
Proof.
  intros libm units hole_first [rm t le lh] doping result.
  split; [|split; [|split; [|split; [|reflexivity]]]];
    unfold result, Recombination.factory, missing_keys, doping_models;
    cbn [Recombination.recombination_model Recombination.temperature
         Recombination.lifetime_electron Recombination.lifetime_hole In];
    destruct rm as [name|]; cbn [Recombination.get app];
    try (destruct t as [t|]; cbn [Recombination.get app]);
    try (split; [intros [? H]; discriminate H
                | intros [H _]; try discriminate H; intros; exfalso; tauto]);
    try (split; [intros _; discriminate | intros _; eexists; reflexivity]);
    try (intros key H; injection H as <-; left; reflexivity);
    try (split; [discriminate | intros [H _]; discriminate H]);
    destruct (String.eqb_spec name "srh") as [E1|N1],
             (String.eqb_spec name "auger") as [E2|N2],
             (String.eqb_spec name "combined") as [E3|N3],
             (String.eqb_spec name "srh_auger") as [E4|N4],
             (String.eqb_spec name "constant") as [E5|N5],
             (String.eqb_spec name "none") as [E6|N6];
    try congruence; cbn [orb app];
    unfold Recombination.constant_lifetimes;
    destruct doping, hole_first, le, lh; cbn [Recombination.get app];
    try (intros key H; try discriminate H; injection H as <-; cbn; tauto);
    (split;
     [ first [ intros [? H]; try discriminate H | intros H; try discriminate H ];
       try (split; [reflexivity|]; eexists; split; [reflexivity|]);
       try (exfalso; congruence);
       try (subst name; tauto);
       try (repeat split; try assumption; try congruence;
            intros; intuition congruence)
     | first [ intros [H (n & [= <-] & K)] | intros H ];
       try discriminate H; try (eexists; reflexivity); try reflexivity;
       try (exfalso; congruence);
       try (exfalso; intuition congruence);
       try (exfalso; destruct K as (_ & _ & K);
            assert (Hd : true = false) by (apply K; subst name; tauto);
            discriminate Hd) ]).
Qed.

(** A request for "constant" without lifetimes: no model is built and no
    InvalidValueError raised; the constructor is left by the MissingKeyError
    of the lifetime that is read first. *)
Example constant_without_lifetimes :
  let config :=
    {| Recombination.recombination_model := Some "constant"%string;
       Recombination.temperature := Some (29315 # 100);
       Recombination.lifetime_electron := None;
       Recombination.lifetime_hole := None |} in
  Recombination.factory Fixture.libm (fun x _ => x) false config true
  = inr (Recombination.MissingKeyError "lifetime_electron")
  /\ Recombination.factory Fixture.libm (fun x _ => x) true config true
     = inr (Recombination.MissingKeyError "lifetime_hole")
  /\ missing_keys config = ["lifetime_electron"; "lifetime_hole"]%string.
Proof. cbv zeta. repeat split; reflexivity. Qed.

(** The numeric stand-in of the fixture does not decrease on non-positive
    arguments. *)
Lemma fixture_exp_monotone : monotone_exp Fixture.libm.
Proof.
  intros x y Hxy Hy. cbn [exp Fixture.libm].
  apply Qle_shift_div_l; [lra|].
  unfold Qdiv. rewrite Qmult_1_l.
  setoid_replace (/ (1 - x) * (1 - y)) with ((1 - y) / (1 - x))
    by (unfold Qdiv; ring).
  apply Qle_shift_div_r; lra.
Qed.

Lemma combined_recombines_with_either_witness :
  Recombination.call Fixture.libm
    (Recombination.ShockleyReadHallAuger unit_srh 1) HOLE 1 0 1 = true.
Proof.
  apply (combined_recombines_with_either Fixture.libm unit_srh 1 HOLE 1 0 1).
  - exact fixture_exp_monotone.
  - unfold positive_srh, unit_srh; cbn; repeat split; reflexivity.
  - discriminate.
  - discriminate.
  - left. vm_compute. reflexivity.
Defined.

Lemma recombination_monotone_in_timestep_witness :
  Recombination.call Fixture.libm (Recombination.ConstantLifetime 1 2)
    ELECTRON 0 (1 # 3) 2 = true.
Proof.
  apply (recombination_monotone_in_timestep Fixture.libm
           (Recombination.ConstantLifetime 1 2) ELECTRON 0 (1 # 3) 1 2).
  - exact fixture_exp_monotone.
  - cbn. split; reflexivity.
  - discriminate.
  - discriminate.
  - vm_compute. reflexivity.
Defined.

(** ** The detector model *)

Lemma place_layers_length (mc : Vector3d) (layers : list DetectorModel.SupportLayer) :
  forall so co,
    List.length (DetectorModel.place_layers mc so co layers) = List.length layers.
Proof.
  induction layers as [|layer rest IH]; intros so co; cbn; [reflexivity|].
  destruct (String.eqb _ "sensor"); [|destruct (String.eqb _ "chip")];
    cbn; rewrite IH; reflexivity.
Qed.

(** A layer behind [pre] is placed with the offsets run down, and up, by
    the thickness of the layers of [pre] at the same location. *)
Lemma place_layers_nth (mc : Vector3d) (layer : DetectorModel.SupportLayer)
    (post : list DetectorModel.SupportLayer) :
  forall pre so co,
  exists so' co' rest,
    so' == so - thickness_at "sensor" pre
    /\ co' == co + thickness_at "chip" pre
    /\ DetectorModel.place_layers mc so' co' (layer :: post) = rest
    /\ nth_error (DetectorModel.place_layers mc so co (pre ++ layer :: post))
         (List.length pre) = nth_error rest 0.
Proof.
  induction pre as [|p pre IH]; intros so co.
  - exists so, co. eexists. cbn [thickness_at app List.length].
    repeat split; try reflexivity; ring.
  - cbn [app List.length thickness_at DetectorModel.place_layers].
    destruct (String.eqb (DetectorModel.location_ p) "sensor") eqn:Es.
    + assert (Ec : String.eqb (DetectorModel.location_ p) "chip" = false).
      { apply String.eqb_eq in Es. rewrite Es. reflexivity. }
      rewrite Ec.
      destruct (IH (so - vz (DetectorModel.size_ p)) co)
        as (so' & co' & rest & Hs & Hc & Hr & Hn).
      exists so', co', rest. cbn [nth_error].
      repeat split; try assumption; [rewrite Hs | rewrite Hc]; ring.
    + destruct (String.eqb (DetectorModel.location_ p) "chip") eqn:Ec.
      * destruct (IH so (co + vz (DetectorModel.size_ p)))
          as (so' & co' & rest & Hs & Hc & Hr & Hn).
        exists so', co', rest. cbn [nth_error].
        repeat split; try assumption; [rewrite Hs | rewrite Hc]; ring.
      * destruct (IH so co) as (so' & co' & rest & Hs & Hc & Hr & Hn).
        exists so', co', rest. cbn [nth_error].
        repeat split; try assumption; [rewrite Hs | rewrite Hc]; ring.
Qed.

(** X10. [getSupportLayers] returns the configured layers in their order,
    changing the centre only.  Layers at the sensor are stacked downwards
    from the lower sensor face, each with its upper face on the lower face
    of the one before; layers at the chip are stacked upwards from the upper
    chip face; any other layer sits at its own offset from the matrix
    centre.  In x and y every layer keeps its offset. *)
Theorem support_layers_stacked :
  forall (model : DetectorModel.t) (pre post : list DetectorModel.SupportLayer)
         (layer : DetectorModel.SupportLayer),
    DetectorModel.support_layers_ model = pre ++ layer :: post ->
    exists placed,
      nth_error (DetectorModel.getSupportLayers model) (List.length pre) = Some placed
      /\ List.length (DetectorModel.getSupportLayers model)
         = List.length (DetectorModel.support_layers_ model)
      /\ DetectorModel.size_ placed = DetectorModel.size_ layer
      /\ DetectorModel.offset_ placed = DetectorModel.offset_ layer
      /\ DetectorModel.location_ placed = DetectorModel.location_ layer
      /\ vx (DetectorModel.center_ placed)
         = vx (DetectorModel.getMatrixCenter model) + vx (DetectorModel.offset_ layer)
      /\ vy (DetectorModel.center_ placed)
         = vy (DetectorModel.getMatrixCenter model) + vy (DetectorModel.offset_ layer)
      /\ (DetectorModel.location_ layer = "sensor"%string ->
          upper_face placed
          == vz (DetectorModel.getMatrixCenter model)
             - vz (DetectorModel.getSensorSize model) / 2
             - thickness_at "sensor" pre)
      /\ (DetectorModel.location_ layer = "chip"%string ->
          lower_face placed
          == vz (DetectorModel.getMatrixCenter model)
             + vz (DetectorModel.getSensorSize model) / 2
             + vz (DetectorModel.getChipSize model)
             + vz (DetectorModel.getOffset (DetectorModel.chip_ model))
             + thickness_at "chip" pre)
      /\ (DetectorModel.location_ layer <> "sensor"%string ->
          DetectorModel.location_ layer <> "chip"%string ->
          vz (DetectorModel.center_ placed)
          = vz (DetectorModel.getMatrixCenter model)
            + vz (DetectorModel.offset_ layer)).
Proof.
  intros model pre post layer Hl.
  unfold DetectorModel.getSupportLayers. rewrite Hl.
  set (mc := DetectorModel.getMatrixCenter model).
  set (so := - vz (DetectorModel.getSensorSize model) / 2).
  set (co := _ + vz (DetectorModel.getOffset (DetectorModel.chip_ model))).
  destruct (place_layers_nth mc layer post pre so co)
    as (so' & co' & rest & Hs & Hc & Hr & Hn).
  rewrite place_layers_length, Hn, <- Hr. clear Hn Hr.
  unfold upper_face, lower_face.
  cbn [DetectorModel.place_layers].
  destruct (String.eqb_spec (DetectorModel.location_ layer) "sensor") as [Es|Ns];
    [|destruct (String.eqb_spec (DetectorModel.location_ layer) "chip") as [Ec|Nc]];
    cbn [nth_error]; eexists; (split; [reflexivity|]);
    cbn; repeat split; try reflexivity; try congruence; intros.
  - rewrite Hs. unfold so. field.
  - rewrite Hc. unfold co. field.
Qed.

Lemma support_layers_stacked_witness :
  exists placed,
    nth_error
      (DetectorModel.getSupportLayers
         (Fixture.stack (DetectorModel.MonolithicChip V.zero)))
      1 = Some placed
    /\ upper_face placed == - (2 # 1).
Proof.
  destruct (support_layers_stacked
              (Fixture.stack (DetectorModel.MonolithicChip V.zero))
              [Fixture.layer 1 "sensor"] [Fixture.layer 3 "chip"]
              (Fixture.layer 2 "sensor") eq_refl)
    as (placed & Hn & _ & _ & _ & _ & _ & _ & Hs & _).
  exists placed. split; [exact Hn|].
  rewrite (Hs eq_refl). reflexivity.
Defined.

Lemma half_scale (x : Q) : x / 2 == x * (1 # 2).
Proof. reflexivity. Qed.

(** The corners only move outwards. *)
Lemma enclose_grows (box : Vector3d * Vector3d) (center size : Vector3d)
    (part : Vector3d * Vector3d) :
  within_box box part -> within_box (DetectorModel.enclose box center size) part.
Proof.
  destruct box as [max min], part as [c s]. unfold within_box, DetectorModel.enclose.
  cbn. intros (H1 & H2 & H3 & H4 & H5 & H6).
  repeat split;
    first [ eapply Qle_trans; [eassumption | apply Q.le_max_l]
          | eapply Qle_trans; [apply Q.le_min_l | eassumption] ].
Qed.

Lemma enclose_covers (box : Vector3d * Vector3d) (center size : Vector3d) :
  within_box (DetectorModel.enclose box center size) (center, size).
Proof.
  destruct box as [max min]. unfold within_box, DetectorModel.enclose. cbn.
  repeat split; first [apply Q.le_max_r | apply Q.le_min_r].
Qed.

Lemma enclose_all (parts : list (Vector3d * Vector3d)) :
  forall box part,
    within_box box part \/ In part parts ->
    within_box
      (fold_left (fun box p => DetectorModel.enclose box (fst p) (snd p)) parts box)
      part.
Proof.
  induction parts as [|p parts IH]; intros box part [H|H]; cbn [fold_left].
  - exact H.
  - destruct H.
  - apply IH. left. apply enclose_grows. exact H.
  - apply IH. destruct H as [->|H]; [left|right; exact H].
    destruct part; apply enclose_covers.
Qed.

(** The corners [getSize] ends its loops with. *)
Lemma getSize_box (limits : DetectorModel.NumericLimits) (model : DetectorModel.t) :
  exists max min,
    (forall part, In part (assembly model) -> within_box (max, min) part)
    /\ let center := DetectorModel.getMatrixCenter model in
       let size :=
         Vec (2 * Qmax (vx max - vx center) (vx center - vx min))
             (2 * Qmax (vy max - vy center) (vy center - vy min))
             ((vz max - vz center) + (vz center - vz min)) in
       DetectorModel.getSize limits model
       = match DetectorModel.chip_ model with
         | DetectorModel.HybridChip _ (bumps_x, bumps_y) =>
             let bump_grid :=
               (DetectorModel.getSensorSize model
                + 2 * Vec (Qabs bumps_x) (Qabs bumps_y) 0)%vec in
             Vec (Qmax (vx size) (vx bump_grid)) (Qmax (vy size) (vy bump_grid))
                 (Qmax (vz size) (vz bump_grid))
         | DetectorModel.MonolithicChip _ => size
         end.
Proof.
  unfold DetectorModel.getSize.
  set (box0 := (Vec _ _ _, Vec _ _ _)).
  set (box := fold_left _ _ _).
  assert (Hbox : box = fold_left
                   (fun box p => DetectorModel.enclose box (fst p) (snd p))
                   (assembly model) box0).
  { unfold box, assembly. cbn [fold_left fst snd].
    generalize (DetectorModel.enclose
                  (DetectorModel.enclose box0 (DetectorModel.getSensorCenter model)
                     (DetectorModel.getSensorSize model))
                  (DetectorModel.getChipCenter model)
                  (DetectorModel.getChipSize model)).
    induction (DetectorModel.getSupportLayers model) as [|l ls IH]; intros b;
      cbn [fold_left map fst snd]; [reflexivity | apply IH]. }
  destruct box as [max min] eqn:E. exists max, min. split; [|reflexivity].
  intros part Hin. rewrite Hbox. apply enclose_all. right. exact Hin.
Qed.

(** X11. The size [getSize] returns, centred on the matrix centre, contains
    in x and y the sensor, the chip and every support layer where
    [getSupportLayers] places it, and in z it is at least as thick as each
    of them. *)
Theorem getSize_encloses :
  forall (limits : DetectorModel.NumericLimits) (model : DetectorModel.t)
         (center size : Vector3d),
    In (center, size) (assembly model) ->
    let total := DetectorModel.getSize limits model in
    let matrix := DetectorModel.getMatrixCenter model in
    vx matrix - vx total / 2 <= vx center - vx size / 2
    /\ vx center + vx size / 2 <= vx matrix + vx total / 2
    /\ vy matrix - vy total / 2 <= vy center - vy size / 2
    /\ vy center + vy size / 2 <= vy matrix + vy total / 2
    /\ vz size <= vz total.
Proof.
  intros limits model center size Hin total matrix.
  destruct (getSize_box limits model) as (max & min & Hall & Hsize).
  specialize (Hall _ Hin). cbv zeta in Hsize.
  unfold within_box in Hall. destruct Hall as (X1 & X2 & Y1 & Y2 & Z1 & Z2).
  fold matrix in Hsize.
  set (sx := 2 * Qmax (vx max - vx matrix) (vx matrix - vx min)) in *.
  set (sy := 2 * Qmax (vy max - vy matrix) (vy matrix - vy min)) in *.
  set (sz := (vz max - vz matrix) + (vz matrix - vz min)) in *.
  assert (Bx1 := Q.le_max_l (vx max - vx matrix) (vx matrix - vx min)).
  assert (Bx2 := Q.le_max_r (vx max - vx matrix) (vx matrix - vx min)).
  assert (By1 := Q.le_max_l (vy max - vy matrix) (vy matrix - vy min)).
  assert (By2 := Q.le_max_r (vy max - vy matrix) (vy matrix - vy min)).
  assert (Hx : sx <= vx total /\ sy <= vy total /\ sz <= vz total).
  { unfold total. rewrite Hsize.
    destruct (DetectorModel.chip_ model) as [o|o [bx by_]]; cbn.
    - repeat split; apply Qle_refl.
    - repeat split; apply Q.le_max_l. }
  destruct Hx as (Hx & Hy & Hz).
  unfold sx in Hx. unfold sy in Hy. unfold sz in Hz.
  clear Hsize sx sy sz.
  generalize dependent (Qmax (vx max - vx matrix) (vx matrix - vx min)).
  generalize dependent (Qmax (vy max - vy matrix) (vy matrix - vy min)).
  clearbody total matrix. intros my By1 By2 Hy mx Bx1 Bx2 Hx.
  rewrite !half_scale in *.
  repeat split; lra.
Qed.

Lemma getSize_encloses_witness :
  let total :=
    DetectorModel.getSize Fixture.limits
      (Fixture.stack (DetectorModel.MonolithicChip V.zero)) in
  0 - vx total / 2 <= 0 - 1 / 2
  /\ 0 + 1 / 2 <= 0 + vx total / 2
  /\ 0 - vy total / 2 <= 0 - 1 / 2
  /\ 0 + 1 / 2 <= 0 + vy total / 2
  /\ 1 <= vz total.
Proof.
  apply (getSize_encloses Fixture.limits
           (Fixture.stack (DetectorModel.MonolithicChip V.zero))
           (Vec 0 0 (3 # 2)) (Vec 1 1 1)).
  right. left. reflexivity.
Defined.

(** X12. With a hybrid chip the size also covers the bump-bond grid, the
    sensor size widened by twice the bump offset in x and y, and it is
    never smaller than the size of the same assembly computed without the
    bump offset. *)
Theorem getSize_covers_bump_grid :
  forall (limits : DetectorModel.NumericLimits) (model : DetectorModel.t)
         (offset : Vector3d) (bumps_x bumps_y : Q),
    DetectorModel.chip_ model = DetectorModel.HybridChip offset (bumps_x, bumps_y) ->
    let total := DetectorModel.getSize limits model in
    let plain :=
      DetectorModel.getSize limits
        (with_chip model (DetectorModel.MonolithicChip offset)) in
    vx (DetectorModel.getSensorSize model) + 2 * Qabs bumps_x <= vx total
    /\ vy (DetectorModel.getSensorSize model) + 2 * Qabs bumps_y <= vy total
    /\ vx plain <= vx total /\ vy plain <= vy total /\ vz plain <= vz total.
Proof.
  intros limits model offset bx by_ Hchip total plain.
  unfold total, plain, DetectorModel.getSize, DetectorModel.getSupportLayers.
  rewrite Hchip. cbn [with_chip DetectorModel.chip_ DetectorModel.getOffset
    DetectorModel.getSensorCenter DetectorModel.getChipCenter
    DetectorModel.getMatrixCenter DetectorModel.getSensorSize
    DetectorModel.getChipSize DetectorModel.support_layers_].
  destruct (fold_left _ _ _) as [max min]. cbn.
  repeat split; first [apply Q.le_max_l | idtac].
  - eapply Qle_trans; [|apply Q.le_max_r]. lra.
  - eapply Qle_trans; [|apply Q.le_max_r]. lra.
Qed.

Lemma getSize_covers_bump_grid_witness :
  let total :=
    DetectorModel.getSize Fixture.limits
      (Fixture.stack (DetectorModel.HybridChip V.zero (2, -3))) in
  1 + 2 * Qabs 2 <= vx total /\ 1 + 2 * Qabs (-3) <= vy total.
Proof.
  destruct (getSize_covers_bump_grid Fixture.limits
              (Fixture.stack (DetectorModel.HybridChip V.zero (2, -3)))
              V.zero 2 (-3) eq_refl) as (Hx & Hy & _).
  split; [exact Hx | exact Hy].
Defined.

(** ** Mesh elements *)

(** Cramer's rule: the sub-volumes weigh a linear form of the vertices to
    its value at the query point. *)
Lemma barycentric3 (v0 v1 v2 v3 qp g : MeshElement.Point) (c : Q) :
  volume3 qp v1 v2 v3 * linear_form g c v0
  + volume3 v0 qp v2 v3 * linear_form g c v1
  + volume3 v0 v1 qp v3 * linear_form g c v2
  + volume3 v0 v1 v2 qp * linear_form g c v3
  == volume3 v0 v1 v2 v3 * linear_form g c qp.
Proof.
  unfold volume3, linear_form, MeshElement.determinant4, MeshElement.determinant3.
  field.
Qed.

Lemma barycentric2 (v0 v1 v2 qp g : MeshElement.Point) (c : Q) :
  MeshElement.x g == 0 ->
  volume2 qp v1 v2 * linear_form g c v0
  + volume2 v0 qp v2 * linear_form g c v1
  + volume2 v0 v1 qp * linear_form g c v2
  == volume2 v0 v1 v2 * linear_form g c qp.
Proof.
  intros Hg.
  unfold volume2, linear_form, MeshElement.determinant3. rewrite Hg.
  field.
Qed.

(** The sub-volumes add up to the volume. *)
Lemma sub_volumes3 (v0 v1 v2 v3 qp : MeshElement.Point) :
  volume3 qp v1 v2 v3 + volume3 v0 qp v2 v3 + volume3 v0 v1 qp v3
  + volume3 v0 v1 v2 qp == volume3 v0 v1 v2 v3.
Proof.
  unfold volume3, MeshElement.determinant4, MeshElement.determinant3. field.
Qed.

Lemma sub_volumes2 (v0 v1 v2 qp : MeshElement.Point) :
  volume2 qp v1 v2 + volume2 v0 qp v2 + volume2 v0 v1 qp == volume2 v0 v1 v2.
Proof.
  unfold volume2, MeshElement.determinant3. field.
Qed.

(** An element with a repeated vertex is flat. *)
Lemma volume3_repeated (a b c : MeshElement.Point) :
  volume3 a a b c == 0 /\ volume3 a b a c == 0 /\ volume3 a b c a == 0
  /\ volume3 b a a c == 0 /\ volume3 b a c a == 0 /\ volume3 b c a a == 0.
Proof.
  unfold volume3, MeshElement.determinant4, MeshElement.determinant3.
  repeat split; field.
Qed.

Lemma volume2_repeated (a b : MeshElement.Point) :
  volume2 a a b == 0 /\ volume2 a b a == 0 /\ volume2 b a a == 0.
Proof.
  unfold volume2, MeshElement.determinant3. repeat split; field.
Qed.

(** Exchanging two vertices changes the sign. *)
Lemma volume3_mirrored (v0 v1 v2 v3 : MeshElement.Point) :
  volume3 v1 v0 v2 v3 == - volume3 v0 v1 v2 v3.
Proof.
  unfold volume3, MeshElement.determinant4, MeshElement.determinant3. field.
Qed.

Lemma volume2_mirrored (v0 v1 v2 : MeshElement.Point) :
  volume2 v1 v0 v2 == - volume2 v0 v1 v2.
Proof.
  unfold volume2, MeshElement.determinant3. field.
Qed.

(** What the functions compute on a tetrahedron and on a triangle. *)
Lemma make_tetrahedron (v0 v1 v2 v3 : MeshElement.Point)
    (e_field : list MeshElement.Point) :
  MeshElement.make 3 [v0; v1; v2; v3] e_field
  = Ok {| MeshElement.dimension_ := 3;
          MeshElement.vertices_ := [v0; v1; v2; v3];
          MeshElement.e_field_ := e_field;
          MeshElement.volume_ := volume3 v0 v1 v2 v3 |}.
Proof. reflexivity. Qed.

Lemma make_triangle (v0 v1 v2 : MeshElement.Point)
    (e_field : list MeshElement.Point) :
  MeshElement.make 2 [v0; v1; v2] e_field
  = Ok {| MeshElement.dimension_ := 2;
          MeshElement.vertices_ := [v0; v1; v2];
          MeshElement.e_field_ := e_field;
          MeshElement.volume_ := volume2 v0 v1 v2 |}.
Proof. reflexivity. Qed.

Lemma getObservable_tetrahedron (v0 v1 v2 v3 f0 f1 f2 f3 qp : MeshElement.Point)
    (e : MeshElement.t) :
  MeshElement.make 3 [v0; v1; v2; v3] [f0; f1; f2; f3] = Ok e ->
  let V := MeshElement.volume_ e in
  let s0 := volume3 qp v1 v2 v3 in
  let s1 := volume3 v0 qp v2 v3 in
  let s2 := volume3 v0 v1 qp v3 in
  let s3 := volume3 v0 v1 v2 qp in
  V = volume3 v0 v1 v2 v3
  /\ MeshElement.getObservable e qp
     = Ok {| MeshElement.x :=
               weighted4 V s0 s1 s2 s3 (MeshElement.x f0) (MeshElement.x f1)
                 (MeshElement.x f2) (MeshElement.x f3);
             MeshElement.y :=
               weighted4 V s0 s1 s2 s3 (MeshElement.y f0) (MeshElement.y f1)
                 (MeshElement.y f2) (MeshElement.y f3);
             MeshElement.z :=
               weighted4 V s0 s1 s2 s3 (MeshElement.z f0) (MeshElement.z f1)
                 (MeshElement.z f2) (MeshElement.z f3) |}.
Proof.
  rewrite make_tetrahedron. intros [= <-]. split; reflexivity.
Qed.

Lemma getObservable_triangle (v0 v1 v2 f0 f1 f2 qp : MeshElement.Point)
    (e : MeshElement.t) :
  MeshElement.make 2 [v0; v1; v2] [f0; f1; f2] = Ok e ->
  let V := MeshElement.volume_ e in
  let s0 := volume2 qp v1 v2 in
  let s1 := volume2 v0 qp v2 in
  let s2 := volume2 v0 v1 qp in
  V = volume2 v0 v1 v2
  /\ MeshElement.getObservable e qp
     = Ok {| MeshElement.x :=
               weighted3 V s0 s1 s2 (MeshElement.x f0) (MeshElement.x f1)
                 (MeshElement.x f2);
             MeshElement.y :=
               weighted3 V s0 s1 s2 (MeshElement.y f0) (MeshElement.y f1)
                 (MeshElement.y f2);
             MeshElement.z :=
               weighted3 V s0 s1 s2 (MeshElement.z f0) (MeshElement.z f1)
                 (MeshElement.z f2) |}.
Proof.
  rewrite make_triangle. intros [= <-]. split; reflexivity.
Qed.

(** A weighted sum whose weights bring the values to [V * f] is [f]. *)
Lemma weighted4_exact (V s0 s1 s2 s3 f0 f1 f2 f3 f : Q) :
  ~ V == 0 ->
  s0 * f0 + s1 * f1 + s2 * f2 + s3 * f3 == V * f ->
  weighted4 V s0 s1 s2 s3 f0 f1 f2 f3 == f.
Proof.
  intros HV H. unfold weighted4.
  setoid_replace (0 + s0 * f0 / V + s1 * f1 / V + s2 * f2 / V + s3 * f3 / V)
    with ((s0 * f0 + s1 * f1 + s2 * f2 + s3 * f3) / V) by (field; exact HV).
  rewrite H. field. exact HV.
Qed.

Lemma weighted3_exact (V s0 s1 s2 f0 f1 f2 f : Q) :
  ~ V == 0 ->
  s0 * f0 + s1 * f1 + s2 * f2 == V * f ->
  weighted3 V s0 s1 s2 f0 f1 f2 == f.
Proof.
  intros HV H. unfold weighted3.
  setoid_replace (0 + s0 * f0 / V + s1 * f1 / V + s2 * f2 / V)
    with ((s0 * f0 + s1 * f1 + s2 * f2) / V) by (field; exact HV).
  rewrite H. field. exact HV.
Qed.

Lemma sub_volume_tetrahedron (v0 v1 v2 v3 qp : MeshElement.Point)
    (e_field : list MeshElement.Point) (V : Q) :
  let e := {| MeshElement.dimension_ := 3;
              MeshElement.vertices_ := [v0; v1; v2; v3];
              MeshElement.e_field_ := e_field;
              MeshElement.volume_ := V |} in
  MeshElement.sub_volume e 0 qp = Ok (volume3 qp v1 v2 v3)
  /\ MeshElement.sub_volume e 1 qp = Ok (volume3 v0 qp v2 v3)
  /\ MeshElement.sub_volume e 2 qp = Ok (volume3 v0 v1 qp v3)
  /\ MeshElement.sub_volume e 3 qp = Ok (volume3 v0 v1 v2 qp).
Proof. repeat split; reflexivity. Qed.

Lemma sub_volume_triangle (v0 v1 v2 qp : MeshElement.Point)
    (e_field : list MeshElement.Point) (V : Q) :
  let e := {| MeshElement.dimension_ := 2;
              MeshElement.vertices_ := [v0; v1; v2];
              MeshElement.e_field_ := e_field;
              MeshElement.volume_ := V |} in
  MeshElement.sub_volume e 0 qp = Ok (volume2 qp v1 v2)
  /\ MeshElement.sub_volume e 1 qp = Ok (volume2 v0 qp v2)
  /\ MeshElement.sub_volume e 2 qp = Ok (volume2 v0 v1 qp).
Proof. repeat split; reflexivity. Qed.

(** One round of the loop of [validElement] passes exactly when the
    sub-volume has the sign of the volume, or one of them is zero. *)
Lemma sign_test (V s : Q) (continue : Result bool) :
  (if Qle_bool 0 (V * s) then continue
   else if Qltb (V * s) 0 then Ok false else continue)
  = if Qle_bool 0 (V * s) then continue else Ok false.
Proof.
  destruct (Qle_bool 0 (V * s)) eqn:E; [reflexivity|].
  apply Qle_bool_false in E. apply Qltb_true in E. rewrite E. reflexivity.
Qed.

Lemma positive_factor (V s : Q) : 0 < V -> (0 <= V * s <-> 0 <= s).
Proof.
  intros HV. split; intros H; [|nra].
  destruct (Qlt_le_dec s 0) as [Hs|Hs]; [nra | exact Hs].
Qed.

(** The rounds of the loop of [validElement] on an element of positive
    volume. *)
Lemma validElement_loop_accepts (e : MeshElement.t) (qp : MeshElement.Point) :
  0 < MeshElement.volume_ e ->
  forall n i,
    MeshElement.validElement_loop e qp n i = Ok true
    <-> forall j, (i <= j < i + n)%nat ->
          exists s, MeshElement.sub_volume e j qp = Ok s /\ 0 <= s.
Proof.
  intros HV. induction n as [|n IH]; intros i.
  - cbn. split; [intros _ j Hj; lia | reflexivity].
  - cbn [MeshElement.validElement_loop].
    destruct (MeshElement.sub_volume e i qp) as [s| |] eqn:Es; cbn [bind].
    + rewrite sign_test.
      destruct (Qle_bool 0 (MeshElement.volume_ e * s)) eqn:E.
      * apply Qle_bool_iff in E. apply positive_factor in E; [|exact HV].
        rewrite IH. split; intros H j Hj.
        -- destruct (Nat.eq_dec j i) as [->|Hne].
           ++ exists s. split; [exact Es | exact E].
           ++ apply H. lia.
        -- apply H. lia.
      * apply Qle_bool_false in E. split; [discriminate|].
        intros H. destruct (H i ltac:(lia)) as (s' & Hs' & Hpos).
        rewrite Es in Hs'. injection Hs' as <-.
        assert (0 <= MeshElement.volume_ e * s) by nra.
        exfalso. lra.
    + split; [discriminate|]. intros H.
      destruct (H i ltac:(lia)) as (s' & Hs' & _). rewrite Es in Hs'. discriminate.
    + split; [discriminate|]. intros H.
      destruct (H i ltac:(lia)) as (s' & Hs' & _). rewrite Es in Hs'. discriminate.
Qed.

Lemma MIN_VOLUME_pos : 0 < MeshElement.MIN_VOLUME.
Proof. reflexivity. Qed.

(** X15. [validElement] accepts exactly the elements whose signed volume
    reaches MIN_VOLUME and exceeds the volume cut and whose sub-volumes at
    the query point can all be computed and are not negative: the query
    point lies in the element, boundary included.  A negative volume is
    refused whatever its magnitude. *)
Theorem validElement_accepts :
  forall (e : MeshElement.t) (volume_cut : Q) (qp : MeshElement.Point),
    MeshElement.validElement e volume_cut qp = Ok true
    <-> MeshElement.MIN_VOLUME <= MeshElement.volume_ e
        /\ volume_cut < MeshElement.volume_ e
        /\ forall i, (i <= MeshElement.dimension_ e)%nat ->
             exists s, MeshElement.sub_volume e i qp = Ok s /\ 0 <= s.
Proof.
  intros e volume_cut qp. unfold MeshElement.validElement.
  pose proof MIN_VOLUME_pos as Hmin.
  destruct (Qltb (MeshElement.volume_ e) MeshElement.MIN_VOLUME) eqn:E1.
  { apply Qltb_true in E1. split; [discriminate|]. intros (H & _). exfalso. lra. }
  apply Qltb_false in E1.
  assert (HV : 0 < MeshElement.volume_ e) by lra.
  assert (Habs : Qabs (MeshElement.volume_ e) == MeshElement.volume_ e)
    by (apply Qabs_pos; lra).
  destruct (Qle_bool (Qabs (MeshElement.volume_ e)) volume_cut) eqn:E2.
  { apply Qle_bool_iff in E2. rewrite Habs in E2.
    split; [discriminate|]. intros (_ & H & _). exfalso. lra. }
  apply Qle_bool_false in E2. rewrite Habs in E2.
  rewrite (validElement_loop_accepts e qp HV).
  split.
  - intros H. repeat split; try assumption. intros i Hi. apply H. lia.
  - intros (_ & _ & H) j Hj. apply H. lia.
Qed.

(** X13. The interpolation of [getObservable] is exact on affine fields:
    in a triangle or tetrahedron of non-zero volume whose vertices carry the
    values of an affine field, it returns the value of the field at the
    query point, wherever that point lies. *)
Theorem getObservable_exact_on_affine_fields :
  forall (dimension : nat) (vertices : list MeshElement.Point) (F : AffineField)
         (e : MeshElement.t) (qp : MeshElement.Point),
    (dimension = 2 \/ dimension = 3)%nat ->
    List.length vertices = (dimension + 1)%nat ->
    (dimension = 2%nat -> planar F) ->
    MeshElement.make dimension vertices (map (field_at F) vertices) = Ok e ->
    ~ MeshElement.volume_ e == 0 ->
    exists p,
      MeshElement.getObservable e qp = Ok p /\ same_point p (field_at F qp).
Proof.
  intros dimension vertices F e qp [-> | ->] Hlen Hplanar Hmake HV.
  - destruct vertices as [|v0 [|v1 [|v2 [|]]]]; try discriminate Hlen.
    destruct (Hplanar eq_refl) as (Px & Py & Pz).
    cbn [map] in Hmake.
    destruct (getObservable_triangle _ _ _ _ _ _ qp e Hmake) as [EV ->].
    eexists. split; [reflexivity|].
    unfold same_point, field_at. cbn [MeshElement.x MeshElement.y MeshElement.z].
    repeat split; apply weighted3_exact; try exact HV; rewrite EV;
      apply barycentric2; assumption.
  - destruct vertices as [|v0 [|v1 [|v2 [|v3 [|]]]]]; try discriminate Hlen.
    cbn [map] in Hmake.
    destruct (getObservable_tetrahedron _ _ _ _ _ _ _ _ qp e Hmake) as [EV ->].
    eexists. split; [reflexivity|].
    unfold same_point, field_at. cbn [MeshElement.x MeshElement.y MeshElement.z].
    repeat split; apply weighted4_exact; try exact HV; rewrite EV;
      apply barycentric3.
Qed.

(** X14. At a vertex of an element of non-zero volume the interpolation
    returns the field value stored for that vertex. *)
Theorem getObservable_at_vertex :
  forall (dimension : nat) (vertices e_field : list MeshElement.Point)
         (e : MeshElement.t) (k : nat) (v f : MeshElement.Point),
    (dimension = 2 \/ dimension = 3)%nat ->
    List.length vertices = (dimension + 1)%nat ->
    List.length e_field = (dimension + 1)%nat ->
    MeshElement.make dimension vertices e_field = Ok e ->
    ~ MeshElement.volume_ e == 0 ->
    nth_error vertices k = Some v ->
    nth_error e_field k = Some f ->
    exists p, MeshElement.getObservable e v = Ok p /\ same_point p f.
Proof.
  intros dimension vertices e_field e k v f [-> | ->] Hlen Hlen' Hmake HV Hv Hf.
  - destruct vertices as [|v0 [|v1 [|v2 [|]]]]; try discriminate Hlen.
    destruct e_field as [|f0 [|f1 [|f2 [|]]]]; try discriminate Hlen'.
    destruct (getObservable_triangle _ _ _ _ _ _ v e Hmake) as [EV ->].
    eexists. split; [reflexivity|].
    unfold same_point. cbn [MeshElement.x MeshElement.y MeshElement.z].
    destruct k as [|[|[|k]]]; cbn in Hv, Hf;
      try (destruct k; discriminate Hv);
      injection Hv as <-; injection Hf as <-;
      repeat split; apply weighted3_exact; try exact HV; rewrite EV.
    all: unfold volume2, MeshElement.determinant3; field.
  - destruct vertices as [|v0 [|v1 [|v2 [|v3 [|]]]]]; try discriminate Hlen.
    destruct e_field as [|f0 [|f1 [|f2 [|f3 [|]]]]]; try discriminate Hlen'.
    destruct (getObservable_tetrahedron _ _ _ _ _ _ _ _ v e Hmake) as [EV ->].
    eexists. split; [reflexivity|].
    unfold same_point. cbn [MeshElement.x MeshElement.y MeshElement.z].
    destruct k as [|[|[|[|k]]]]; cbn in Hv, Hf;
      try (destruct k; discriminate Hv);
      injection Hv as <-; injection Hf as <-;
      repeat split; apply weighted4_exact; try exact HV; rewrite EV.
    all: unfold volume3, MeshElement.determinant4, MeshElement.determinant3; field.
Qed.

(** A weighted mean stays between bounds of the values. *)
Lemma weighted4_range (V s0 s1 s2 s3 f0 f1 f2 f3 lo hi : Q) :
  0 < V -> 0 <= s0 -> 0 <= s1 -> 0 <= s2 -> 0 <= s3 ->
  s0 + s1 + s2 + s3 == V ->
  lo <= f0 <= hi -> lo <= f1 <= hi -> lo <= f2 <= hi -> lo <= f3 <= hi ->
  lo <= weighted4 V s0 s1 s2 s3 f0 f1 f2 f3 <= hi.
Proof.
  intros HV H0 H1 H2 H3 Hsum [L0 U0] [L1 U1] [L2 U2] [L3 U3].
  unfold weighted4.
  setoid_replace (0 + s0 * f0 / V + s1 * f1 / V + s2 * f2 / V + s3 * f3 / V)
    with ((s0 * f0 + s1 * f1 + s2 * f2 + s3 * f3) / V) by (field; lra).
  split; [apply Qle_shift_div_l | apply Qle_shift_div_r]; try exact HV;
    rewrite <- Hsum; nra.
Qed.

Lemma weighted3_range (V s0 s1 s2 f0 f1 f2 lo hi : Q) :
  0 < V -> 0 <= s0 -> 0 <= s1 -> 0 <= s2 ->
  s0 + s1 + s2 == V ->
  lo <= f0 <= hi -> lo <= f1 <= hi -> lo <= f2 <= hi ->
  lo <= weighted3 V s0 s1 s2 f0 f1 f2 <= hi.
Proof.
  intros HV H0 H1 H2 Hsum [L0 U0] [L1 U1] [L2 U2].
  unfold weighted3.
  setoid_replace (0 + s0 * f0 / V + s1 * f1 / V + s2 * f2 / V)
    with ((s0 * f0 + s1 * f1 + s2 * f2) / V) by (field; lra).
  split; [apply Qle_shift_div_l | apply Qle_shift_div_r]; try exact HV;
    rewrite <- Hsum; nra.
Qed.

(** What an accepted element has passed. *)
Lemma validElement_passed (e : MeshElement.t) (volume_cut : Q)
    (qp : MeshElement.Point) :
  MeshElement.validElement e volume_cut qp = Ok true ->
  0 < MeshElement.volume_ e
  /\ forall i, (i <= MeshElement.dimension_ e)%nat ->
       exists s, MeshElement.sub_volume e i qp = Ok s /\ 0 <= s.
Proof.
  unfold MeshElement.validElement. pose proof MIN_VOLUME_pos as Hmin.
  destruct (Qltb (MeshElement.volume_ e) MeshElement.MIN_VOLUME) eqn:E1;
    [discriminate|].
  apply Qltb_false in E1.
  destruct (Qle_bool (Qabs (MeshElement.volume_ e)) volume_cut); [discriminate|].
  assert (HV : 0 < MeshElement.volume_ e) by lra.
  intros H. split; [exact HV|].
  intros i Hi.
  apply (proj1 (validElement_loop_accepts e qp HV _ 0%nat) H). lia.
Qed.

(** X16. In an element that [validElement] accepts for a query point, the
    field [getObservable] returns at that point lies, coordinate by
    coordinate, between any bounds of the field values at the vertices. *)
Theorem getObservable_within_range :
  forall (dimension : nat) (vertices e_field : list MeshElement.Point)
         (e : MeshElement.t) (volume_cut : Q) (qp lo hi : MeshElement.Point),
    (dimension = 2 \/ dimension = 3)%nat ->
    List.length vertices = (dimension + 1)%nat ->
    List.length e_field = (dimension + 1)%nat ->
    MeshElement.make dimension vertices e_field = Ok e ->
    MeshElement.validElement e volume_cut qp = Ok true ->
    Forall (in_box lo hi) e_field ->
    exists p, MeshElement.getObservable e qp = Ok p /\ in_box lo hi p.
Proof.
  intros dimension vertices e_field e volume_cut qp lo hi [-> | ->]
         Hlen Hlen' Hmake Hvalid Hbox.
  - destruct vertices as [|v0 [|v1 [|v2 [|]]]]; try discriminate Hlen.
    destruct e_field as [|f0 [|f1 [|f2 [|]]]]; try discriminate Hlen'.
    destruct (getObservable_triangle _ _ _ _ _ _ qp e Hmake) as [EV ->].
    destruct (validElement_passed _ _ _ Hvalid) as [HV Hsub].
    rewrite make_triangle in Hmake. injection Hmake as <-.
    cbn [MeshElement.volume_ MeshElement.dimension_] in *.
    destruct (sub_volume_triangle v0 v1 v2 qp [f0; f1; f2] (volume2 v0 v1 v2))
      as (E0 & E1 & E2).
    destruct (Hsub 0%nat ltac:(lia)) as (s0 & Hs0 & P0).
    destruct (Hsub 1%nat ltac:(lia)) as (s1 & Hs1 & P1).
    destruct (Hsub 2%nat ltac:(lia)) as (s2 & Hs2 & P2).
    rewrite E0 in Hs0. rewrite E1 in Hs1. rewrite E2 in Hs2.
    injection Hs0 as <-. injection Hs1 as <-. injection Hs2 as <-.
    inversion Hbox as [|? ? (X0 & Y0 & Z0) Hbox1]; subst.
    inversion Hbox1 as [|? ? (X1 & Y1 & Z1) Hbox2]; subst.
    inversion Hbox2 as [|? ? (X2 & Y2 & Z2) _]; subst.
    eexists. split; [reflexivity|].
    unfold in_box. cbn [MeshElement.x MeshElement.y MeshElement.z].
    (split; [|split]); apply weighted3_range;
      try assumption; apply sub_volumes2.
  - destruct vertices as [|v0 [|v1 [|v2 [|v3 [|]]]]]; try discriminate Hlen.
    destruct e_field as [|f0 [|f1 [|f2 [|f3 [|]]]]]; try discriminate Hlen'.
    destruct (getObservable_tetrahedron _ _ _ _ _ _ _ _ qp e Hmake) as [EV ->].
    destruct (validElement_passed _ _ _ Hvalid) as [HV Hsub].
    rewrite make_tetrahedron in Hmake. injection Hmake as <-.
    cbn [MeshElement.volume_ MeshElement.dimension_] in *.
    destruct (sub_volume_tetrahedron v0 v1 v2 v3 qp [f0; f1; f2; f3]
                (volume3 v0 v1 v2 v3)) as (E0 & E1 & E2 & E3).
    destruct (Hsub 0%nat ltac:(lia)) as (s0 & Hs0 & P0).
    destruct (Hsub 1%nat ltac:(lia)) as (s1 & Hs1 & P1).
    destruct (Hsub 2%nat ltac:(lia)) as (s2 & Hs2 & P2).
    destruct (Hsub 3%nat ltac:(lia)) as (s3 & Hs3 & P3).
    rewrite E0 in Hs0. rewrite E1 in Hs1. rewrite E2 in Hs2. rewrite E3 in Hs3.
    injection Hs0 as <-. injection Hs1 as <-. injection Hs2 as <-.
    injection Hs3 as <-.
    inversion Hbox as [|? ? (X0 & Y0 & Z0) Hbox1]; subst.
    inversion Hbox1 as [|? ? (X1 & Y1 & Z1) Hbox2]; subst.
    inversion Hbox2 as [|? ? (X2 & Y2 & Z2) Hbox3]; subst.
    inversion Hbox3 as [|? ? (X3 & Y3 & Z3) _]; subst.
    eexists. split; [reflexivity|].
    unfold in_box. cbn [MeshElement.x MeshElement.y MeshElement.z].
    (split; [|split]); apply weighted4_range;
      try assumption; apply sub_volumes3.
Qed.

(** X17. The orientation of the vertices decides: an element whose signed
    volume is not negative is refused once two of its vertices are
    exchanged, for every volume cut and query point.  Of an element and its
    mirror image [validElement] accepts at most one. *)
Theorem mirrored_element_refused :
  forall (dimension : nat) (vertices e_field e_field' : list MeshElement.Point)
         (e : MeshElement.t) (volume_cut : Q) (qp : MeshElement.Point),
    (dimension = 2 \/ dimension = 3)%nat ->
    List.length vertices = (dimension + 1)%nat ->
    MeshElement.make dimension vertices e_field = Ok e ->
    0 <= MeshElement.volume_ e ->
    exists e',
      MeshElement.make dimension (mirrored vertices) e_field' = Ok e'
      /\ MeshElement.volume_ e' == - MeshElement.volume_ e
      /\ MeshElement.validElement e' volume_cut qp = Ok false.
Proof.
  intros dimension vertices e_field e_field' e volume_cut qp [-> | ->]
         Hlen Hmake HV; pose proof MIN_VOLUME_pos as Hmin.
  - destruct vertices as [|v0 [|v1 [|v2 [|]]]]; try discriminate Hlen.
    rewrite make_triangle in Hmake. injection Hmake as <-.
    cbn [MeshElement.volume_] in *. cbn [mirrored].
    rewrite make_triangle. eexists. split; [reflexivity|].
    cbn [MeshElement.volume_]. split; [apply volume2_mirrored|].
    unfold MeshElement.validElement. cbn [MeshElement.volume_].
    assert (E : Qltb (volume2 v1 v0 v2) MeshElement.MIN_VOLUME = true).
    { apply Qltb_true. rewrite volume2_mirrored. lra. }
    rewrite E. reflexivity.
  - destruct vertices as [|v0 [|v1 [|v2 [|v3 [|]]]]]; try discriminate Hlen.
    rewrite make_tetrahedron in Hmake. injection Hmake as <-.
    cbn [MeshElement.volume_] in *. cbn [mirrored].
    rewrite make_tetrahedron. eexists. split; [reflexivity|].
    cbn [MeshElement.volume_]. split; [apply volume3_mirrored|].
    unfold MeshElement.validElement. cbn [MeshElement.volume_].
    assert (E : Qltb (volume3 v1 v0 v2 v3) MeshElement.MIN_VOLUME = true).
    { apply Qltb_true. rewrite volume3_mirrored. lra. }
    rewrite E. reflexivity.
Qed.

Lemma getObservable_exact_on_affine_fields_witness :
  exists p,
    MeshElement.getObservable
      (Fixture.element 2 Fixture.triangle
         (map (field_at Fixture.planar_ramp) Fixture.triangle))
      (Fixture.point 5 (1 # 4) 7) = Ok p
    /\ same_point p (field_at Fixture.planar_ramp (Fixture.point 5 (1 # 4) 7)).
Proof.
  apply (getObservable_exact_on_affine_fields 2 Fixture.triangle).
  - left. reflexivity.
  - reflexivity.
  - intros _. repeat split; reflexivity.
  - reflexivity.
  - vm_compute. discriminate.
Defined.

Lemma getObservable_at_vertex_witness :
  exists p,
    MeshElement.getObservable
      (Fixture.element 3 Fixture.tetrahedron
         [Fixture.point 1 0 0; Fixture.point 0 2 0; Fixture.point 0 0 3;
          Fixture.point 4 4 4])
      (Fixture.point 0 1 0) = Ok p
    /\ same_point p (Fixture.point 0 0 3).
Proof.
  apply (getObservable_at_vertex 3 Fixture.tetrahedron
           [Fixture.point 1 0 0; Fixture.point 0 2 0; Fixture.point 0 0 3;
            Fixture.point 4 4 4] _ 2).
  - right. reflexivity.
  - reflexivity.
  - reflexivity.
  - reflexivity.
  - vm_compute. discriminate.
  - reflexivity.
  - reflexivity.
Defined.

Lemma getObservable_within_range_witness :
  exists p,
    MeshElement.getObservable
      (Fixture.element 3 Fixture.tetrahedron
         [Fixture.point 1 0 0; Fixture.point 0 2 0; Fixture.point 0 0 3;
          Fixture.point 4 4 4])
      (Fixture.point (1 # 4) (1 # 4) (1 # 4)) = Ok p
    /\ in_box (Fixture.point 0 0 0) (Fixture.point 4 4 4) p.
Proof.
  apply (getObservable_within_range 3 Fixture.tetrahedron
           [Fixture.point 1 0 0; Fixture.point 0 2 0; Fixture.point 0 0 3;
            Fixture.point 4 4 4] _ (1 # 100)).
  - right. reflexivity.
  - reflexivity.
  - reflexivity.
  - reflexivity.
  - vm_compute. reflexivity.
  - repeat constructor; vm_compute; discriminate.
Defined.

Lemma mirrored_element_refused_witness :
  exists e',
    MeshElement.make 3 (mirrored Fixture.tetrahedron) [] = Ok e'
    /\ MeshElement.volume_ e'
       == - MeshElement.volume_ (Fixture.element 3 Fixture.tetrahedron [])
    /\ MeshElement.validElement e' 0 (Fixture.point (1 # 4) (1 # 4) (1 # 4))
       = Ok false.
Proof.
  apply (mirrored_element_refused 3 Fixture.tetrahedron [] []).
  - right. reflexivity.
  - reflexivity.
  - reflexivity.
  - vm_compute. discriminate.
Defined.

(** ** The field converter *)

(** Induction over command lines, one or two arguments at a time. *)
Lemma args_ind (P : list string -> Prop) :
  P [] ->
  (forall arg rest,
      P rest -> (forall value rest', rest = value :: rest' -> P rest') ->
      P (arg :: rest)) ->
  forall args, P args.
Proof.
  intros H0 Hstep args.
  enough (H : P args /\ forall value rest', args = value :: rest' -> P rest')
    by apply H.
  induction args as [|arg rest [IH1 IH2]].
  - split; [exact H0 | discriminate].
  - split; [apply Hstep; assumption|].
    intros value rest' [= _ <-]. exact IH1.
Qed.

Lemma recognised_inv (arg : string) (rest : list string) :
  recognised (arg :: rest) <->
  (arg = "-h"%string /\ recognised rest)
  \/ (arg = "--scalar"%string /\ recognised rest)
  \/ (In arg value_options
      /\ exists value rest', rest = value :: rest' /\ recognised rest').
Proof.
  split.
  - intros H. inversion H; subst; eauto 8.
  - intros [[-> H] | [[-> H] | (Hin & value & rest' & -> & H)]];
      [apply recognised_help | apply recognised_scalar | apply recognised_value];
      assumption.
Qed.

(** An option at the head, or behind a first option and its value. *)
Lemma given_inv (option arg : string) (rest : list string) :
  given option (arg :: rest) <->
  arg = option
  \/ ((arg = "-h"%string \/ arg = "--scalar"%string) /\ given option rest)
  \/ (In arg value_options
      /\ exists value rest', rest = value :: rest' /\ given option rest').
Proof.
  unfold given. split.
  - intros (before & after & Hrec & E).
    destruct before as [|b before]; cbn in E.
    + left. congruence.
    + injection E as <- ->. right.
      apply recognised_inv in Hrec.
      destruct Hrec as [[-> H] | [[-> H] | (Hin & value & rest' & -> & H)]].
      * left. split; [left; reflexivity|]. eauto.
      * left. split; [right; reflexivity|]. eauto.
      * right. split; [exact Hin|]. exists value, (rest' ++ option :: after).
        split; [reflexivity|]. eauto.
  - intros [-> | [[Harg (before & after & Hrec & ->)]
                 | (Hin & value & rest' & -> & before & after & Hrec & ->)]].
    + exists [], rest. split; [constructor | reflexivity].
    + exists (arg :: before), after. split; [|reflexivity].
      destruct Harg as [-> | ->]; constructor; exact Hrec.
    + exists (arg :: value :: before), after. split; [|reflexivity].
      constructor; assumption.
Qed.

Ltac value_option :=
  right; left; eexists _, _, _; subst;
  (split; [unfold value_options; cbn; tauto|]);
  (split; [reflexivity|]); (split; [reflexivity|]);
  cbn; repeat split; intros; try discriminate; intuition congruence.

Section ParseFacts.

Context {LogLevel : Type}.
Variable getLevelFromString : string -> option LogLevel.

Local Abbreviation parse := (FieldConverter.parse getLevelFromString) (only parsing).

(** One round of the argument loop, by the shape of the command line. *)
Lemma parse_step (arg : string) (rest : list string)
    (l : FieldConverter.Locals LogLevel) :
  (arg = "-h"%string /\ parse (arg :: rest) l = parse rest (FieldConverter.help l))
  \/ (arg = "--scalar"%string
      /\ parse (arg :: rest) l = parse rest (FieldConverter.set_scalar l))
  \/ (exists value rest' l',
        In arg value_options /\ rest = value :: rest'
        /\ parse (arg :: rest) l = parse rest' l'
        /\ FieldConverter.print_help l' = FieldConverter.print_help l
        /\ FieldConverter.return_code l' = FieldConverter.return_code l
        /\ (FieldConverter.format_from l' = None
            <-> FieldConverter.format_from l = None /\ arg <> "--from"%string)
        /\ (FieldConverter.format_to l' = None
            <-> FieldConverter.format_to l = None /\ arg <> "--to"%string))
  \/ (~ recognised (arg :: rest) /\ arg <> "-h"%string
      /\ parse (arg :: rest) l = parse rest (FieldConverter.unrecognized l)).
Proof.
  cbn [FieldConverter.parse]. unfold value_options. cbn [In].
  destruct (String.eqb_spec arg "-h") as [Eh|Nh]; [left; auto|].
  right.
  destruct rest as [|value rest'].
  - destruct (String.eqb_spec arg "--scalar") as [Es|Ns]; [left; auto|].
    right. right. repeat split; try assumption.
    intros H. apply recognised_inv in H.
    destruct H as [[? _] | [[? _] | (_ & v & r & E & _)]]; congruence.
  - destruct (String.eqb_spec arg "-v") as [E1|N1].
    { value_option. }
    destruct (String.eqb_spec arg "--from") as [E2|N2].
    { value_option. }
    destruct (String.eqb_spec arg "--to") as [E3|N3].
    { value_option. }
    destruct (String.eqb_spec arg "--input") as [E4|N4].
    { value_option. }
    destruct (String.eqb_spec arg "--output") as [E5|N5].
    { value_option. }
    destruct (String.eqb_spec arg "--scalar") as [Es|Ns]; [left; auto|].
    right. right. repeat split; try assumption.
    intros H. apply recognised_inv in H. unfold value_options in H. cbn [In] in H.
    destruct H as [[? _] | [[? _] | (Hin & _)]]; try congruence.
    intuition congruence.
Qed.

(** The return code is raised to 1 by an argument that is not recognised,
    and by nothing else. *)
Lemma parse_return_code (args : list string) :
  forall l,
    (FieldConverter.return_code l = 1%Z ->
     FieldConverter.return_code (parse args l) = 1%Z)
    /\ (recognised args ->
        FieldConverter.return_code (parse args l) = FieldConverter.return_code l)
    /\ (~ recognised args -> FieldConverter.return_code (parse args l) = 1%Z).
Proof.
  induction args as [|arg rest IH1 IH2] using args_ind; intros l.
  - cbn. repeat split; auto.
    intros H. exfalso. apply H. constructor.
  - destruct (parse_step arg rest l)
      as [[-> E] | [[-> E] | [(value & rest' & l' & Hin & -> & E & Hp & Hc & _)
                             | (Hn & Nh & E)]]]; rewrite E.
    + destruct (IH1 (FieldConverter.help l)) as (K1 & K2 & K3).
      repeat split.
      * exact K1.
      * intros H. apply recognised_inv in H.
        destruct H as [[_ H] | [[? _] | (Hin & _)]]; try discriminate.
        -- apply K2. exact H.
        -- unfold value_options in Hin. cbn in Hin. intuition discriminate.
      * intros H. apply K3. intro Hr. apply H. constructor. exact Hr.
    + destruct (IH1 (FieldConverter.set_scalar l)) as (K1 & K2 & K3).
      repeat split.
      * exact K1.
      * intros H. apply recognised_inv in H.
        destruct H as [[? _] | [[_ H] | (Hin & _)]]; try discriminate.
        -- apply K2. exact H.
        -- unfold value_options in Hin. cbn in Hin. intuition discriminate.
      * intros H. apply K3. intro Hr. apply H. constructor. exact Hr.
    + destruct (IH2 value rest' eq_refl l') as (K1 & K2 & K3).
      repeat split.
      * rewrite <- Hc. exact K1.
      * intros H. apply recognised_inv in H.
        destruct H as [[-> _] | [[-> _] | (_ & v & r & [= <- <-] & H)]];
          try (unfold value_options in Hin; cbn in Hin; intuition discriminate).
        rewrite <- Hc. apply K2. exact H.
      * intros H. apply K3. intro Hr. apply H. constructor; assumption.
    + destruct (IH1 (FieldConverter.unrecognized l)) as (K1 & K2 & K3).
      repeat split.
      * intros _. apply K1. reflexivity.
      * intros H. contradiction.
      * intros _. apply K1. reflexivity.
Qed.

(** The usage text is asked for by [-h] where an option is read and by an
    argument that is not recognised. *)
Lemma parse_print_help (args : list string) :
  forall l,
    FieldConverter.print_help (parse args l) = true
    <-> FieldConverter.print_help l = true \/ ~ recognised args
        \/ given "-h" args.
Proof.
  induction args as [|arg rest IH1 IH2] using args_ind; intros l.
  - cbn. split; [auto|]. intros [H | [H | H]]; [exact H | |].
    + exfalso. apply H. constructor.
    + destruct H as (before & after & _ & E). destruct before; discriminate E.
  - rewrite given_inv.
    destruct (parse_step arg rest l)
      as [[-> E] | [[-> E] | [(value & rest' & l' & Hin & -> & E & Hp & _)
                             | (Hn & Nh & E)]]]; rewrite E.
    + rewrite IH1. cbn. split; auto.
    + rewrite IH1. cbn [FieldConverter.set_scalar FieldConverter.print_help].
      split.
      * intros [H | [H | H]]; [auto | | right; right; right; left; auto].
        right. left. intro Hr. apply H. apply recognised_inv in Hr.
        destruct Hr as [[? _] | [[_ Hr] | (Hin & _)]]; try discriminate;
          [exact Hr|]. unfold value_options in Hin. cbn in Hin.
        intuition discriminate.
      * intros [H | [H | [H | [[_ H] | (Hin & _)]]]]; auto; try discriminate.
        -- right. left. intro Hr. apply H. constructor. exact Hr.
        -- unfold value_options in Hin. cbn in Hin. intuition discriminate.
    + rewrite (IH2 value rest' eq_refl), Hp.
      assert (Nh : arg <> "-h"%string /\ arg <> "--scalar"%string).
      { unfold value_options in Hin. cbn in Hin. intuition (subst; discriminate). }
      split.
      * intros [H | [H | H]]; [auto | |].
        -- right. left. intro Hr. apply H. apply recognised_inv in Hr.
           destruct Hr as [[? _] | [[? _] | (_ & v & r & [= <- <-] & Hr)]];
             [tauto | tauto | exact Hr].
        -- right. right. right. right. split; [exact Hin|]. eauto.
      * intros [H | [H | [H | [[H _] | (_ & v & r & [= <- <-] & H)]]]];
          auto; try tauto.
        right. left. intro Hr. apply H. constructor; assumption.
    + rewrite IH1. cbn. split; auto.
Qed.

(** A format stays without a value unless its option is given. *)
Lemma parse_formats (args : list string) :
  recognised args ->
  forall l,
    (FieldConverter.format_from (parse args l) = None
     <-> FieldConverter.format_from l = None /\ ~ given "--from" args)
    /\ (FieldConverter.format_to (parse args l) = None
        <-> FieldConverter.format_to l = None /\ ~ given "--to" args).
Proof.
  induction args as [|arg rest IH1 IH2] using args_ind; intros Hrec l.
  - cbn. split; (split; [intros H; split; [exact H|] | intros [H _]; exact H]);
      intros (before & after & _ & E); destruct before; discriminate E.
  - rewrite !given_inv.
    destruct (parse_step arg rest l)
      as [[-> E] | [[-> E] | [(value & rest' & l' & Hin & -> & E & _ & _ & Hf & Ht)
                             | (Hn & _)]]]; [ | | | contradiction]; rewrite E.
    + assert (Hr : recognised rest).
      { apply recognised_inv in Hrec.
        destruct Hrec as [[_ H] | [[? _] | (Hin & _)]]; try discriminate;
          [exact H|]. unfold value_options in Hin. cbn in Hin.
        intuition discriminate. }
      destruct (IH1 Hr (FieldConverter.help l)) as [K1 K2].
      rewrite K1, K2. cbn [FieldConverter.help FieldConverter.format_from
        FieldConverter.format_to]. unfold value_options. cbn [In].
      split; (split; intros [H1 H2]; (split; [exact H1|]));
        intuition (try discriminate; eauto).
    + assert (Hr : recognised rest).
      { apply recognised_inv in Hrec.
        destruct Hrec as [[? _] | [[_ H] | (Hin & _)]]; try discriminate;
          [exact H|]. unfold value_options in Hin. cbn in Hin.
        intuition discriminate. }
      destruct (IH1 Hr (FieldConverter.set_scalar l)) as [K1 K2].
      rewrite K1, K2. cbn [FieldConverter.set_scalar FieldConverter.format_from
        FieldConverter.format_to]. unfold value_options. cbn [In].
      split; (split; intros [H1 H2]; (split; [exact H1|]));
        intuition (try discriminate; eauto).
    + assert (Nh : arg <> "-h"%string /\ arg <> "--scalar"%string).
      { unfold value_options in Hin. cbn in Hin. intuition (subst; discriminate). }
      assert (Hr : recognised rest').
      { apply recognised_inv in Hrec.
        destruct Hrec as [[? _] | [[? _] | (_ & v & r & [= <- <-] & H)]];
          [tauto | tauto | exact H]. }
      destruct (IH2 value rest' eq_refl Hr l') as [K1 K2].
      rewrite K1, K2, Hf, Ht.
      split; split.
      * intros [[H1 H2] H3]. split; [exact H1|].
        intros [H | [[H _] | (_ & v & r & [= <- <-] & H)]]; tauto.
      * intros [H1 H2]. repeat split; [exact H1 | tauto |].
        intros H. apply H2. right. right. split; [exact Hin|]. eauto.
      * intros [[H1 H2] H3]. split; [exact H1|].
        intros [H | [[H _] | (_ & v & r & [= <- <-] & H)]]; tauto.
      * intros [H1 H2]. repeat split; [exact H1 | tauto |].
        intros H. apply H2. right. right. split; [exact Hin|]. eauto.
Qed.

End ParseFacts.

Lemma given_nil (option : string) : ~ given option [].
Proof.
  intros (before & rest & _ & E). destruct before; discriminate E.
Qed.

Lemma recognised_dec (args : list string) : recognised args \/ ~ recognised args.
Proof.
  induction args as [|arg rest IH1 IH2] using args_ind.
  - left. constructor.
  - rewrite recognised_inv. unfold value_options. cbn [In].
    destruct (string_dec arg "-h") as [->|Nh].
    { destruct IH1 as [H|H]; [left; auto|].
      right. intros [[_ K] | [[K _] | ([K|[K|[K|[K|[K|[]]]]]] & _)]];
        try discriminate K. exact (H K). }
    destruct (string_dec arg "--scalar") as [->|Ns].
    { destruct IH1 as [H|H]; [left; auto|].
      right. intros [[K _] | [[_ K] | ([K|[K|[K|[K|[K|[]]]]]] & _)]];
        try discriminate K. exact (H K). }
    destruct (in_dec string_dec arg value_options) as [Hin|Hin].
    + destruct rest as [|value rest'].
      * right. intros [[K _] | [[K _] | (_ & v & r & E & _)]]; try contradiction.
        discriminate E.
      * destruct (IH2 value rest' eq_refl) as [H|H].
        -- left. right. right. split; [exact Hin|]. eauto.
        -- right. intros [[K _] | [[K _] | (_ & v & r & [= <- <-] & K)]];
             try contradiction; try exact (H K).
    + right. intros [[K _] | [[K _] | (K & _)]]; contradiction.
Qed.

(** X18. [main] prints the usage text exactly when there is no argument,
    when some argument is not recognised (an unknown word, or an option
    without its value), or when [-h] is given where an option is read.  It
    then exits with code 1 in the first two cases and with code 0 for a
    well-formed command line that asks for help. *)
Theorem main_prints_usage :
  forall (LogLevel FieldData : Type)
         (getLevelFromString : string -> option LogLevel)
         (get_by_file_name : FieldConverter.FieldQuantity -> string ->
                             FieldConverter.FileType -> option FieldData)
         (write_file : FieldConverter.FieldQuantity -> FieldData -> string ->
                       FieldConverter.FileType -> bool)
         (default_level : LogLevel) (args : list string),
    let result :=
      FieldConverter.main getLevelFromString get_by_file_name write_file
        default_level args in
    ((exists code, result = Ok (FieldConverter.PrintHelp, code))
     <-> args = [] \/ ~ recognised args \/ given "-h" args)
    /\ (result = Ok (FieldConverter.PrintHelp, 1%Z)
        <-> args = [] \/ ~ recognised args)
    /\ (result = Ok (FieldConverter.PrintHelp, 0%Z)
        <-> args <> [] /\ recognised args /\ given "-h" args).
Proof.
  intros LogLevel FieldData getLevelFromString get_by_file_name write_file
         default_level args result.
  unfold result, FieldConverter.main. cbv zeta.
  set (l := FieldConverter.parse getLevelFromString args
              (FieldConverter.initial default_level args)).
  pose proof (parse_print_help getLevelFromString args
                (FieldConverter.initial default_level args)) as Hhelp.
  destruct (parse_return_code getLevelFromString args
              (FieldConverter.initial default_level args)) as (Hone & Hrec & Hnot).
  fold l in Hhelp, Hone, Hrec, Hnot.
  assert (Hinit : FieldConverter.print_help
                    (FieldConverter.initial default_level args) = true
                  <-> args = []).
  { destruct args; cbn; split; congruence. }
  assert (Hcode : args <> [] ->
                  FieldConverter.return_code
                    (FieldConverter.initial default_level args) = 0%Z).
  { destruct args; cbn; congruence. }
  assert (Hcode1 : args = [] -> FieldConverter.return_code l = 1%Z).
  { intros ->. reflexivity. }
  rewrite Hinit in Hhelp.
  destruct (FieldConverter.print_help l) eqn:Eh.
  - assert (Hh : args = [] \/ ~ recognised args \/ given "-h" args)
      by (apply Hhelp; reflexivity).
    split; [|split].
    + split; [intros _; exact Hh | intros _; eauto].
    + split.
      * intros [= E]. destruct args as [|a args]; [left; reflexivity|].
        right. intros Hr. rewrite (Hrec Hr), Hcode in E; discriminate.
      * intros [H | H]; [rewrite (Hcode1 H) | rewrite (Hnot H)]; reflexivity.
    + split.
      * intros [= E].
        assert (Hne : args <> []) by (intros H; rewrite (Hcode1 H) in E; discriminate).
        destruct (recognised_dec args) as [Hr | Hr];
          [|rewrite (Hnot Hr) in E; discriminate].
        repeat split; try assumption.
        destruct Hh as [H | [H | H]]; [contradiction | contradiction | exact H].
      * intros (Hne & Hr & _). rewrite (Hrec Hr), (Hcode Hne). reflexivity.
  - assert (Hno : ~ (args = [] \/ ~ recognised args \/ given "-h" args)).
    { intros H. apply Hhelp in H. discriminate. }
    split; [|split];
      (split; [first [intros [code H] | intros H] | intros H; exfalso; tauto]);
      exfalso;
      repeat match type of H with
             | context [match ?e with _ => _ end] => destruct e
             end;
      discriminate H.
Qed.

(** X19. The parameters the usage text calls mandatory are not checked.  On
    a well-formed command line without [-h], [main] goes on to the
    conversion.  Without [--from] it reads [format_from] without a value,
    which is undefined.  With [--from] it calls the parser; if that throws,
    [main] exits with 127, whether [--to] is given or not.  If the parser
    returns and [--to] is missing, [format_to] is read without a value,
    which is undefined; with [--to] the writer is called and [main] exits
    with 0, or with 127 if the writer throws. *)
Theorem main_converts :
  forall (LogLevel FieldData : Type)
         (getLevelFromString : string -> option LogLevel)
         (get_by_file_name : FieldConverter.FieldQuantity -> string ->
                             FieldConverter.FileType -> option FieldData)
         (write_file : FieldConverter.FieldQuantity -> FieldData -> string ->
                       FieldConverter.FileType -> bool)
         (default_level : LogLevel) (args : list string),
    args <> [] -> recognised args -> ~ given "-h" args ->
    let l := FieldConverter.parse getLevelFromString args
               (FieldConverter.initial default_level args) in
    let quantity := if FieldConverter.scalar l then FieldConverter.SCALAR
                    else FieldConverter.VECTOR in
    let result :=
      FieldConverter.main getLevelFromString get_by_file_name write_file
        default_level args in
    (~ given "--from" args -> result = Undefined)
    /\ (given "--from" args ->
        exists format_from,
          FieldConverter.format_from l = Some format_from
          /\ match get_by_file_name quantity (FieldConverter.file_input l)
                     format_from with
             | None =>
                 result
                 = Ok (FieldConverter.Read quantity (FieldConverter.file_input l)
                         format_from, 127%Z)
             | Some field_data =>
                 (~ given "--to" args -> result = Undefined)
                 /\ (given "--to" args ->
                     exists format_to,
                       FieldConverter.format_to l = Some format_to
                       /\ result
                          = Ok (FieldConverter.Write quantity
                                  (FieldConverter.file_input l) format_from
                                  (FieldConverter.file_output l) format_to,
                                if write_file quantity field_data
                                     (FieldConverter.file_output l) format_to
                                then 0%Z else 127%Z))
             end)
    /\ (result = Undefined
        <-> ~ given "--from" args
            \/ (~ given "--to" args
                /\ exists format_from field_data,
                     FieldConverter.format_from l = Some format_from
                     /\ get_by_file_name quantity (FieldConverter.file_input l)
                          format_from = Some field_data)).
Proof.
  intros LogLevel FieldData getLevelFromString get_by_file_name write_file
         default_level args Hne Hr Hnh l quantity result.
  unfold result, FieldConverter.main. cbv zeta. fold l. fold quantity.
  pose proof (parse_print_help getLevelFromString args
                (FieldConverter.initial default_level args)) as Hhelp.
  destruct (parse_return_code getLevelFromString args
              (FieldConverter.initial default_level args)) as (_ & Hrec & _).
  destruct (parse_formats getLevelFromString args Hr
              (FieldConverter.initial default_level args)) as [Hf Ht].
  fold l in Hhelp, Hrec, Hf, Ht. specialize (Hrec Hr).
  assert (Hcode : FieldConverter.return_code l = 0%Z).
  { rewrite Hrec. destruct args; [contradiction | reflexivity]. }
  assert (Eh : FieldConverter.print_help l = false).
  { destruct (FieldConverter.print_help l); [|reflexivity].
    destruct (proj1 Hhelp eq_refl) as [H | [H | H]]; try contradiction.
    destruct args; [contradiction | discriminate H]. }
  rewrite Eh, Hcode. cbn [FieldConverter.initial FieldConverter.format_from
    FieldConverter.format_to] in Hf, Ht.
  assert (Hfrom : FieldConverter.format_from l = None <-> ~ given "--from" args)
    by (rewrite Hf; tauto).
  assert (Hto : FieldConverter.format_to l = None <-> ~ given "--to" args)
    by (rewrite Ht; tauto).
  clear Hf Ht.
  destruct (FieldConverter.format_from l) as [ff|].
  - assert (Gf : ~ ~ given "--from" args)
      by (intros H; apply Hfrom in H; discriminate H).
    split; [intros H; contradiction|].
    split.
    + intros _. exists ff. split; [reflexivity|].
      destruct (get_by_file_name quantity (FieldConverter.file_input l) ff)
        as [field_data|]; [|reflexivity].
      destruct (FieldConverter.format_to l) as [ft|].
      * split.
        -- intros H. apply Hto in H. discriminate H.
        -- intros _. exists ft. split; [reflexivity|].
           destruct (write_file _ _ _ _); reflexivity.
      * split; [reflexivity|]. intros H. exfalso.
        exact (proj1 Hto eq_refl H).
    + destruct (get_by_file_name quantity (FieldConverter.file_input l) ff)
        as [field_data|] eqn:Ep.
      * destruct (FieldConverter.format_to l) as [ft|].
        -- split.
           ++ destruct (write_file _ _ _ _); discriminate.
           ++ intros [H | [H _]]; [contradiction|].
              apply Hto in H. discriminate H.
        -- split; [|reflexivity]. intros _. right.
           split; [apply Hto; reflexivity|].
           exists ff, field_data. split; [reflexivity | exact Ep].
      * split; [discriminate|].
        intros [H | (_ & ff' & fd & [= <-] & K)]; [contradiction|].
        rewrite Ep in K. discriminate K.
  - assert (Gf : ~ given "--from" args) by (apply Hfrom; reflexivity).
    split; [reflexivity|]. split; [intros H; contradiction|].
    split; [intros _; left; exact Gf | reflexivity].
Qed.

Lemma given_here (option : string) (rest : list string) :
  given option (option :: rest).
Proof. exists [], rest. split; [constructor | reflexivity]. Qed.

Lemma main_converts_witness :
  FieldConverter.main (fun _ => Some tt)
    (fun _ _ _ => @None unit) (fun _ _ _ _ => true) tt
    ["--from"; "INIT"; "--input"; "field.init"]%string
  = Ok (FieldConverter.Read FieldConverter.VECTOR "field.init"
          FieldConverter.INIT, 127%Z).
Proof.
  destruct (main_converts unit unit (fun _ => Some tt) (fun _ _ _ => @None unit)
              (fun _ _ _ _ => true) tt
              ["--from"; "INIT"; "--input"; "field.init"]%string)
    as (_ & H & _).
  - discriminate.
  - apply recognised_value; [right; left; reflexivity|].
    apply recognised_value; [|apply recognised_nil].
    right. right. right. left. reflexivity.
  - rewrite !given_inv. unfold value_options. cbn [In].
    intros [H | [[[H | H] _] | (_ & v & r & [= <- <-] & H)]];
      try discriminate H.
    rewrite !given_inv in H.
    destruct H as [H | [[[H | H] _] | (_ & v & r & [= <- <-] & H)]];
      try discriminate H.
    exact (given_nil _ H).
  - destruct (H (given_here _ _)) as (ff & Hff & Hresult).
    injection Hff as <-. exact Hresult.
Defined.

(** The same command line with a parser that returns: [--to] is missing and
    [format_to] is read without a value.  With [--to] given as well, the
    field is written and [main] exits with 0. *)
Example conversion_without_target_format :
  FieldConverter.main (fun _ => Some tt)
    (fun _ _ _ => Some tt) (fun _ _ _ _ => true) tt
    ["--from"; "INIT"; "--input"; "field.init"]%string
  = Undefined
  /\ FieldConverter.main (fun _ => Some tt)
       (fun _ _ _ => Some tt) (fun _ _ _ _ => true) tt
       ["--from"; "INIT"; "--input"; "field.init"; "--to"; "apf";
        "--output"; "field.apf"]%string
     = Ok (FieldConverter.Write FieldConverter.VECTOR "field.init"
             FieldConverter.INIT "field.apf" FieldConverter.APF, 0%Z).
Proof. split; reflexivity. Qed.
